(** * botmem: the multi-store memory model, its context assembler and its
      extraction pipeline, embedded in Rocq.

    The development follows the Go sources:
    - [GoStrings]  the few functions of Go's [strings] package the code calls;
    - [Engine]     the embedded relational store (tables of [db.migrate], the
                   statements the stores issue, their failure modes);
    - [Memory]     [BlockStore], [ArchivalStore], [GraphStore], [SummaryStore];
    - [Context]    [Build];
    - [Embeddings] the provider interface, the Ollama provider and the
                   BLOB encoding of a vector;
    - [Ingest]     [stripCodeFences], the three backends and [Run];
    - [Cli]        the store-facing part of the commands of [main.go]. *)

From Stdlib Require Import ZArith NArith List String Ascii Bool Lia.
From Stdlib Require Import Permutation Sorted.
Import ListNotations.

Local Open Scope string_scope.
Local Open Scope list_scope.

(* ================================================================= *)
(** ** Go's [strings] package, on byte sequences *)

Module GoStrings.

(** A Go string is a sequence of bytes. *)
Definition bytes := list ascii.

Definition of_string (s : string) : bytes := list_ascii_of_string s.
Definition to_string (b : bytes) : string := string_of_list_ascii b.

Definition code (c : ascii) : N := N_of_ascii c.

Definition newline : ascii := "010"%char.
Definition backtick : ascii := "096"%char.

(** [asciiSpace]: tab, newline, vertical tab, form feed, carriage return
    and space. *)
Definition asciiSpace (c : ascii) : bool :=
  let n := code c in
  ((9 <=? n) && (n <=? 13) || (n =? 32))%N.

(** Two-byte UTF-8 encodings of white space: U+0085 and U+00A0. *)
Definition space2 (b0 b1 : ascii) : bool :=
  ((code b0 =? 194) && ((code b1 =? 133) || (code b1 =? 160)))%N.

(** Three-byte UTF-8 encodings of white space: U+1680, U+2000..U+200A,
    U+2028, U+2029, U+202F, U+205F and U+3000. *)
Definition space3 (b0 b1 b2 : ascii) : bool :=
  let x := code b0 in
  let y := code b1 in
  let z := code b2 in
  ((x =? 225) && (y =? 154) && (z =? 128)
   || (x =? 226) && (y =? 128)
      && ((128 <=? z) && (z <=? 138) || (z =? 168) || (z =? 169) || (z =? 175))
   || (x =? 226) && (y =? 129) && (z =? 159)
   || (x =? 227) && (y =? 128) && (z =? 128))%N.

(** Width in bytes of the white-space rune the string starts with
    ([utf8.DecodeRuneInString] followed by [unicode.IsSpace]); 0 when the
    first rune is not white space. *)
Definition leadingSpace (s : bytes) : nat :=
  match s with
  | [] => 0
  | b0 :: r =>
      if asciiSpace b0 then 1
      else match r with
           | [] => 0
           | b1 :: r' =>
               if space2 b0 b1 then 2
               else match r' with
                    | [] => 0
                    | b2 :: _ => if space3 b0 b1 b2 then 3 else 0
                    end
           end
  end.

(** The same for the last rune ([utf8.DecodeLastRuneInString]); the
    argument is the string reversed. *)
Definition trailingSpace (rs : bytes) : nat :=
  match rs with
  | [] => 0
  | b :: r =>
      if asciiSpace b then 1
      else match r with
           | [] => 0
           | b1 :: r' =>
               if space2 b1 b then 2
               else match r' with
                    | [] => 0
                    | b2 :: _ => if space3 b2 b1 b then 3 else 0
                    end
           end
  end.

(** Drop runes from the front while [width] recognises one. *)
Fixpoint strip (width : bytes -> nat) (fuel : nat) (s : bytes) : bytes :=
  match fuel with
  | O => s
  | S fuel' =>
      match width s with
      | O => s
      | w => strip width fuel' (skipn w s)
      end
  end.

Definition TrimLeft (s : bytes) : bytes := strip leadingSpace (List.length s) s.

Definition TrimRight (s : bytes) : bytes :=
  rev (strip trailingSpace (List.length s) (rev s)).

(** [strings.TrimSpace]: leading white space is removed first, trailing
    white space of what is left second. *)
Definition TrimSpace (s : bytes) : bytes := TrimRight (TrimLeft s).

Fixpoint HasPrefix (s prefix : bytes) {struct prefix} : bool :=
  match prefix, s with
  | [], _ => true
  | p :: prefix', c :: s' => Ascii.eqb c p && HasPrefix s' prefix'
  | _ :: _, [] => false
  end.

Definition HasSuffix (s suffix : bytes) : bool :=
  HasPrefix (rev s) (rev suffix).

(** [strings.Index(s, "\n")]: position of the first occurrence of a
    single byte, [None] for Go's -1. *)
Fixpoint IndexByte (s : bytes) (c : ascii) : option nat :=
  match s with
  | [] => None
  | x :: s' =>
      if Ascii.eqb x c then Some 0
      else match IndexByte s' c with
           | Some i => Some (S i)
           | None => None
           end
  end.

(** [strings.Join(elems, sep)]. *)
Fixpoint Join (elems : list string) (sep : string) : string :=
  match elems with
  | [] => ""
  | [x] => x
  | x :: rest => (x ++ sep ++ Join rest sep)%string
  end.

(** [strings.Split(s, sep)] for a separator of one byte: the pieces
    between the occurrences of [sep]; the empty string has one piece, the
    empty one. *)
Fixpoint Split (s : string) (sep : ascii) : list string :=
  match s with
  | EmptyString => [""]
  | String c s' =>
      if Ascii.eqb c sep then "" :: Split s' sep
      else match Split s' sep with
           | piece :: pieces => String c piece :: pieces
           | [] => [String c ""]
           end
  end.

End GoStrings.

(* ================================================================= *)
(** ** The embedded relational store *)

Module Engine.

(** *** Errors *)

(** Arguments of a format string other than the wrapped error. *)
Inductive FmtArg : Type :=
| ArgS (s : string)
| ArgD (n : Z).

Inductive Err : Type :=
| ErrEngine                    (* the engine refused the call: I/O, lock, closed handle, full *)
| ErrRows                      (* [rows.Scan] or [rows.Err] reported a failure *)
| ErrUnique (column : string)  (* UNIQUE constraint failed *)
| ErrForeignKey                (* FOREIGN KEY constraint failed *)
| ErrNoRows                    (* [sql.ErrNoRows] *)
| ErrFTS                       (* the full-text index rejected the MATCH expression *)
| ErrExternal (what : string)  (* a failure reported by a collaborator outside the store *)
| Errorf (format : string) (args : list FmtArg)               (* no [%w] *)
| Wrapf (format : string) (args : list FmtArg) (wrapped : Err). (* [%w] *)

(** The innermost error of a [%w] chain, as [errors.Unwrap] reaches it. *)
Fixpoint cause (e : Err) : Err :=
  match e with
  | Wrapf _ _ e' => cause e'
  | _ => e
  end.

Definition isConflict (e : Err) : bool :=
  match cause e with ErrUnique _ => true | _ => false end.

Definition isNotFound (e : Err) : bool :=
  match cause e with ErrNoRows => true | _ => false end.

Inductive Result (A : Type) : Type :=
| Ok (a : A)
| Error (e : Err).
Arguments Ok {A} a.
Arguments Error {A} e.

(** *** Tables, after [db.migrate] *)

Record BlockRow : Type := mkBlockRow {
  blk_id : Z;
  blk_label : string;
  blk_block_type : string;
  blk_content : string;
  blk_created_at : Z;
  blk_updated_at : Z }.

Record ArchivalRow : Type := mkArchivalRow {
  arc_id : Z;
  arc_content : string;
  arc_tags : string;
  arc_embedding : option (list Z);   (* BLOB, [None] is NULL *)
  arc_created_at : Z }.

Record EntityRow : Type := mkEntityRow {
  ent_id : Z;
  ent_name : string;
  ent_entity_type : string;
  ent_created_at : Z }.

Record RelationRow : Type := mkRelationRow {
  rel_id : Z;
  rel_subject_id : Z;
  rel_predicate : string;
  rel_object_id : Z;
  rel_metadata : string;
  rel_created_at : Z }.

Record SummaryRow : Type := mkSummaryRow {
  sum_id : Z;
  sum_level : Z;
  sum_content : string;
  sum_source_ids : string;
  sum_created_at : Z }.

(** Every table has an AUTOINCREMENT key: next to its rows the engine
    keeps the largest row id it ever handed out.  Row ids are 64-bit; a
    table that ran out of them makes the engine refuse the statement, which
    is one of the refusals of [Fault] below. *)
Record Tables : Type := mkTables {
  memory_blocks : list BlockRow;
  memory_blocks_seq : Z;
  archival : list ArchivalRow;
  archival_seq : Z;
  entities : list EntityRow;
  entities_seq : Z;
  relations : list RelationRow;
  relations_seq : Z;
  conversation_summaries : list SummaryRow;
  conversation_summaries_seq : Z }.

Definition emptyTables : Tables := mkTables [] 0 [] 0 [] 0 [] 0 [] 0.

Definition set_memory_blocks (rows : list BlockRow) (seq : Z) (t : Tables) : Tables :=
  mkTables rows seq (archival t) (archival_seq t) (entities t) (entities_seq t)
           (relations t) (relations_seq t)
           (conversation_summaries t) (conversation_summaries_seq t).

Definition set_archival (rows : list ArchivalRow) (seq : Z) (t : Tables) : Tables :=
  mkTables (memory_blocks t) (memory_blocks_seq t) rows seq (entities t) (entities_seq t)
           (relations t) (relations_seq t)
           (conversation_summaries t) (conversation_summaries_seq t).

Definition set_entities (rows : list EntityRow) (seq : Z) (t : Tables) : Tables :=
  mkTables (memory_blocks t) (memory_blocks_seq t) (archival t) (archival_seq t) rows seq
           (relations t) (relations_seq t)
           (conversation_summaries t) (conversation_summaries_seq t).

Definition set_relations (rows : list RelationRow) (seq : Z) (t : Tables) : Tables :=
  mkTables (memory_blocks t) (memory_blocks_seq t) (archival t) (archival_seq t)
           (entities t) (entities_seq t) rows seq
           (conversation_summaries t) (conversation_summaries_seq t).

Definition set_conversation_summaries (rows : list SummaryRow) (seq : Z) (t : Tables) : Tables :=
  mkTables (memory_blocks t) (memory_blocks_seq t) (archival t) (archival_seq t)
           (entities t) (entities_seq t) (relations t) (relations_seq t) rows seq.

(** *** The connection *)

(** What the engine does to the next call made on the handle. *)
Inductive Fault : Type :=
| Healthy
| FailStmt    (* the call itself returns an error *)
| FailRows.   (* the call succeeds, reading its rows fails *)

(** [*sql.DB]: the tables, the clock behind CURRENT_TIMESTAMP, and the
    faults the engine will raise, one entry per call; when the list is
    exhausted every later call is healthy. *)
Record DB : Type := mkDB {
  tables : Tables;
  now : Z;
  faults : list Fault }.

Definition emptyDB : DB := mkDB emptyTables 0 [].

(** *** Store computations: a result and the connection afterwards.
    A failed computation keeps whatever it had already written. *)

Definition M (A : Type) : Type := DB -> Result A * DB.

Definition ret {A} (a : A) : M A := fun st => (Ok a, st).

Definition fail {A} (e : Err) : M A := fun st => (Error e, st).

Definition bind {A B} (m : M A) (k : A -> M B) : M B :=
  fun st =>
    match m st with
    | (Ok a, st') => k a st'
    | (Error e, st') => (Error e, st')
    end.

(** [v, err := m; ...]: hand the error to the caller instead of returning. *)
Definition try {A} (m : M A) : M (Result A) :=
  fun st => let (r, st') := m st in (Ok r, st').

(** [if err != nil { return nil, fmt.Errorf(format, args..., err) }]. *)
Definition wrap {A} (format : string) (args : list FmtArg) (m : M A) : M A :=
  fun st =>
    match m st with
    | (Ok a, st') => (Ok a, st')
    | (Error e, st') => (Error (Wrapf format args e), st')
    end.

Definition lift {A} (r : Result A) : M A := fun st => (r, st).

Definition next_fault (st : DB) : Fault * DB :=
  match faults st with
  | [] => (Healthy, st)
  | f :: fs => (f, mkDB (tables st) (now st) fs)
  end.

(** [db.Exec]: one statement, committed on success, without effect on
    failure.  The statement sees the clock and returns its
    [LastInsertId]. *)
Definition Exec {A} (stmt : Z -> Tables -> Result (A * Tables)) : M A :=
  fun st =>
    let (f, st1) := next_fault st in
    match f with
    | Healthy =>
        match stmt (now st1) (tables st1) with
        | Ok (a, t') => (Ok a, mkDB t' (now st1) (faults st1))
        | Error e => (Error e, st1)
        end
    | _ => (Error ErrEngine, st1)
    end.

(** [db.QueryRow(...).Scan(...)]: the first selected row, [sql.ErrNoRows]
    when there is none. *)
Definition QueryRow {A} (sel : Tables -> option A) : M A :=
  fun st =>
    let (f, st1) := next_fault st in
    match f with
    | Healthy =>
        match sel (tables st1) with
        | Some a => (Ok a, st1)
        | None => (Error ErrNoRows, st1)
        end
    | _ => (Error ErrEngine, st1)
    end.

(** [*sql.Rows]: the selected rows and whether reading them will fail. *)
Record Rows (A : Type) : Type := mkRows {
  pending : list A;
  broken : bool }.
Arguments mkRows {A} pending broken.
Arguments pending {A} r.
Arguments broken {A} r.

(** [db.Query]. *)
Definition Query {A} (sel : Tables -> Result (list A)) : M (Rows A) :=
  fun st =>
    let (f, st1) := next_fault st in
    match f with
    | FailStmt => (Error ErrEngine, st1)
    | FailRows =>
        match sel (tables st1) with
        | Ok rows => (Ok (mkRows rows true), st1)
        | Error e => (Error e, st1)
        end
    | Healthy =>
        match sel (tables st1) with
        | Ok rows => (Ok (mkRows rows false), st1)
        | Error e => (Error e, st1)
        end
    end.

(** [for rows.Next() { e := ...; rows.Scan(...); out = append(out, e) };
    return out, rows.Err()]: the error of a broken cursor is returned as
    it is, with no entries. *)
Definition scanAll {A B} (scan : A -> B) (rows : Rows A) : M (list B) :=
  if broken rows then fail ErrRows else ret (map scan (pending rows)).

(** ORDER BY, as a stable insertion sort: [first x y] says that [x] is
    not placed after [y].  Rows the ordering does not tell apart keep the
    order the engine found them in. *)
Fixpoint insertRow {A} (first : A -> A -> bool) (x : A) (l : list A) : list A :=
  match l with
  | [] => [x]
  | y :: l' => if first x y then x :: l else y :: insertRow first x l'
  end.

Definition orderBy {A} (first : A -> A -> bool) (l : list A) : list A :=
  fold_right (insertRow first) [] l.

(** ORDER BY created_at DESC. *)
Definition newestFirst {A} (created : A -> Z) (x y : A) : bool :=
  (created y <=? created x)%Z.

(** LIMIT n. *)
Definition limitTo {A} (n : Z) (l : list A) : list A :=
  if (n <? 0)%Z then l else firstn (Z.to_nat n) l.

End Engine.

Notation "x <- m ;; k" := (Engine.bind m (fun x => k))
  (at level 61, m at next level, right associativity).
Notation "m ;;; k" := (Engine.bind m (fun _ => k))
  (at level 61, right associativity).

(* ================================================================= *)
(** ** Package [memory]: the four typed stores *)

Module Memory.
Import Engine.

(** *** Go structs *)

Record Block : Type := mkBlock {
  Block_ID : Z;
  Block_Label : string;
  Block_BlockType : string;
  Block_Content : string;
  Block_CreatedAt : Z;
  Block_UpdatedAt : Z }.

Record ArchivalEntry : Type := mkArchivalEntry {
  Entry_ID : Z;
  Entry_Content : string;
  Entry_Tags : string;
  Entry_Embedding : option (list Z);   (* [[]byte], [None] is nil *)
  Entry_CreatedAt : Z }.

Record Entity : Type := mkEntity {
  Entity_ID : Z;
  Entity_Name : string;
  Entity_EntityType : string;
  Entity_CreatedAt : Z }.

Record Relation : Type := mkRelation {
  Relation_ID : Z;
  Relation_Subject : string;
  Relation_Predicate : string;
  Relation_Object : string;
  Relation_Metadata : string;
  Relation_CreatedAt : Z }.

Record Summary : Type := mkSummary {
  Summary_ID : Z;
  Summary_Level : Z;
  Summary_Content : string;
  Summary_SourceIDs : string;
  Summary_CreatedAt : Z }.

(** *** BlockStore *)

Definition scanBlock (r : BlockRow) : Block :=
  mkBlock (blk_id r) (blk_label r) (blk_block_type r) (blk_content r)
          (blk_created_at r) (blk_updated_at r).

(** INSERT INTO memory_blocks (label, block_type, content) VALUES (?, ?, ?) *)
Definition insertBlock (label blockType content : string)
    (clock : Z) (t : Tables) : Result (Z * Tables) :=
  if existsb (fun r => blk_label r =? label) (memory_blocks t)
  then Error (ErrUnique "memory_blocks.label")
  else
    let id := (memory_blocks_seq t + 1)%Z in
    Ok (id, set_memory_blocks
              (memory_blocks t ++ [mkBlockRow id label blockType content clock clock])
              id t).

(** SELECT ... FROM memory_blocks WHERE label = ? *)
Definition selectBlockByLabel (label : string) (t : Tables) : option Block :=
  option_map scanBlock (find (fun r => blk_label r =? label) (memory_blocks t)).

(** SELECT ... FROM memory_blocks WHERE id = ? *)
Definition selectBlockByID (id : Z) (t : Tables) : option Block :=
  option_map scanBlock (find (fun r => (blk_id r =? id)%Z) (memory_blocks t)).

(** UPDATE memory_blocks SET content = ?, updated_at = CURRENT_TIMESTAMP
    WHERE label = ? *)
Definition updateBlock (label content : string)
    (clock : Z) (t : Tables) : Result (unit * Tables) :=
  Ok (tt, set_memory_blocks
            (map (fun r =>
                    if blk_label r =? label
                    then mkBlockRow (blk_id r) (blk_label r) (blk_block_type r)
                                    content (blk_created_at r) clock
                    else r)
                 (memory_blocks t))
            (memory_blocks_seq t) t).

(** DELETE FROM memory_blocks WHERE label = ? *)
Definition deleteBlock (label : string)
    (clock : Z) (t : Tables) : Result (unit * Tables) :=
  Ok (tt, set_memory_blocks
            (filter (fun r => negb (blk_label r =? label)) (memory_blocks t))
            (memory_blocks_seq t) t).

(** SELECT ... FROM memory_blocks [WHERE block_type = ?] ORDER BY label *)
Definition selectBlocks (blockType : string) (t : Tables) : Result (list BlockRow) :=
  let rows :=
    if blockType =? "" then memory_blocks t
    else filter (fun r => blk_block_type r =? blockType) (memory_blocks t) in
  Ok (orderBy (fun x y => String.leb (blk_label x) (blk_label y)) rows).

Module BlockStore.

Definition GetByLabel (label : string) : M Block :=
  wrap "get block %q: %w" [ArgS label] (QueryRow (selectBlockByLabel label)).

Definition GetByID (id : Z) : M Block :=
  wrap "get block %d: %w" [ArgD id] (QueryRow (selectBlockByID id)).

Definition Create (label blockType content : string) : M Block :=
  let blockType := if blockType =? "" then "core" else blockType in
  id <- wrap "create block: %w" [] (Exec (insertBlock label blockType content)) ;;
  GetByID id.

Definition Update (label content : string) : M Block :=
  wrap "update block %q: %w" [ArgS label] (Exec (updateBlock label content)) ;;;
  GetByLabel label.

Definition Delete (label : string) : M unit :=
  Exec (deleteBlock label).

Definition List (blockType : string) : M (list Block) :=
  rows <- wrap "list blocks: %w" [] (Query (selectBlocks blockType)) ;;
  scanAll scanBlock rows.

End BlockStore.

(** *** SummaryStore *)

Definition scanSummary (r : SummaryRow) : Summary :=
  mkSummary (sum_id r) (sum_level r) (sum_content r) (sum_source_ids r)
            (sum_created_at r).

(** INSERT INTO conversation_summaries (level, content, source_ids)
    VALUES (?, ?, ?) *)
Definition insertSummary (level : Z) (content sourceIDs : string)
    (clock : Z) (t : Tables) : Result (Z * Tables) :=
    let id := (conversation_summaries_seq t + 1)%Z in
    Ok (id, set_conversation_summaries
              (conversation_summaries t ++ [mkSummaryRow id level content sourceIDs clock])
              id t).

Definition selectSummaryByID (id : Z) (t : Tables) : option Summary :=
  option_map scanSummary
    (find (fun r => (sum_id r =? id)%Z) (conversation_summaries t)).

(** ... WHERE level = ? ORDER BY created_at DESC, id DESC LIMIT ? *)
Definition selectSummaries (level limit : Z) (t : Tables) : Result (list SummaryRow) :=
  Ok (limitTo limit
        (orderBy (fun x y =>
                    (sum_created_at y <? sum_created_at x)
                    || (sum_created_at y =? sum_created_at x) && (sum_id y <=? sum_id x))%Z
                 (filter (fun r => (sum_level r =? level)%Z)
                         (conversation_summaries t)))).

Module SummaryStore.

Definition GetByID (id : Z) : M Summary :=
  wrap "get summary %d: %w" [ArgD id] (QueryRow (selectSummaryByID id)).

Definition Add (level : Z) (content sourceIDs : string) : M Summary :=
  id <- wrap "add summary: %w" [] (Exec (insertSummary level content sourceIDs)) ;;
  GetByID id.

Definition List (level limit : Z) : M (list Summary) :=
  let limit := if (limit <=? 0)%Z then 20%Z else limit in
  rows <- wrap "list summaries: %w" [] (Query (selectSummaries level limit)) ;;
  scanAll scanSummary rows.

Definition CountAtLevel (level : Z) : M Z :=
  QueryRow (fun t =>
    Some (Z.of_nat (List.length
            (filter (fun r => (sum_level r =? level)%Z)
                    (conversation_summaries t))))).

End SummaryStore.

(** *** ArchivalStore *)

Definition scanEntry (r : ArchivalRow) : ArchivalEntry :=
  mkArchivalEntry (arc_id r) (arc_content r) (arc_tags r) (arc_embedding r)
                  (arc_created_at r).

(** The columns [id, content, tags, created_at] of a row: what a SELECT
    that does not name [embedding] hands to [rows.Scan]. *)
Definition ArchivalCols : Type := (Z * string * string * Z)%type.

Definition archivalCols (r : ArchivalRow) : ArchivalCols :=
  (arc_id r, arc_content r, arc_tags r, arc_created_at r).

(** [e := &ArchivalEntry{}; rows.Scan(&e.ID, &e.Content, &e.Tags,
    &e.CreatedAt)]: [Embedding] keeps its zero value. *)
Definition scanEntryCols (c : ArchivalCols) : ArchivalEntry :=
  let '(id, content, tags, created) := c in
  mkArchivalEntry id content tags None created.

(** INSERT INTO archival (content, tags, embedding) VALUES (?, ?, ?) *)
Definition insertArchival (content tags : string) (embedding : option (list Z))
    (clock : Z) (t : Tables) : Result (Z * Tables) :=
    let id := (archival_seq t + 1)%Z in
    Ok (id, set_archival
              (archival t ++ [mkArchivalRow id content tags embedding clock])
              id t).

Definition selectArchivalByID (id : Z) (t : Tables) : option ArchivalEntry :=
  option_map scanEntry (find (fun r => (arc_id r =? id)%Z) (archival t)).

(** DELETE FROM archival WHERE id = ? *)
Definition deleteArchival (id : Z)
    (clock : Z) (t : Tables) : Result (unit * Tables) :=
  Ok (tt, set_archival
            (filter (fun r => negb (arc_id r =? id)%Z) (archival t))
            (archival_seq t) t).

(** SELECT id, content, tags, embedding, created_at FROM archival
    WHERE embedding IS NOT NULL *)
Definition selectEmbedded (t : Tables) : Result (list ArchivalRow) :=
  Ok (filter (fun r => match arc_embedding r with Some _ => true | None => false end)
             (archival t)).

Module ArchivalStore.

Definition GetByID (id : Z) : M ArchivalEntry :=
  wrap "get archival %d: %w" [ArgD id] (QueryRow (selectArchivalByID id)).

Definition Add (content : string) (tags : list string)
    (embedding : option (list Z)) : M ArchivalEntry :=
  let tagStr := GoStrings.Join tags "," in
  id <- wrap "add archival: %w" [] (Exec (insertArchival content tagStr embedding)) ;;
  GetByID id.

Definition Delete (id : Z) : M unit :=
  Exec (deleteArchival id).

Definition AllWithEmbeddings : M (list ArchivalEntry) :=
  rows <- wrap "list embeddings: %w" [] (Query selectEmbedded) ;;
  scanAll scanEntry rows.

Section EngineFunctions.

(** The full-text index [archival_fts], which the triggers keep equal
    to the [content] and [tags] columns of [archival]: for a MATCH
    expression, the row ids it selects, best rank first, or the
    refusal of the expression. *)
Variable fts5 : string -> list ArchivalRow -> Result (list Z).

(** The engine's LIKE operator: pattern, then text. *)
Variable like : string -> string -> bool.

(** SELECT a.id, a.content, a.tags, a.created_at FROM archival_fts f
    JOIN archival a ON a.id = f.rowid WHERE archival_fts MATCH ?
    ORDER BY rank LIMIT ? *)
Definition selectMatches (query : string) (limit : Z) (t : Tables)
    : Result (list ArchivalCols) :=
  match fts5 query (archival t) with
  | Error e => Error e
  | Ok rowids =>
      Ok (limitTo limit
            (flat_map (fun rowid =>
                         map archivalCols
                             (filter (fun a => (arc_id a =? rowid)%Z) (archival t)))
                      rowids))
  end.

Definition Search (query : string) (limit : Z) : M (list ArchivalEntry) :=
  let limit := if (limit <=? 0)%Z then 10%Z else limit in
  rows <- wrap "search archival: %w" [] (Query (selectMatches query limit)) ;;
  scanAll scanEntryCols rows.

(** SELECT id, content, tags, created_at FROM archival
    [WHERE tags LIKE ?] ORDER BY created_at DESC LIMIT ? *)
Definition selectRecent (tag : string) (limit : Z) (t : Tables)
    : Result (list ArchivalCols) :=
  let rows :=
    if tag =? "" then archival t
    else filter (fun r => like ("%" ++ tag ++ "%")%string (arc_tags r)) (archival t) in
  Ok (map archivalCols (limitTo limit (orderBy (newestFirst arc_created_at) rows))).

Definition List (tag : string) (limit : Z) : M (list ArchivalEntry) :=
  let limit := if (limit <=? 0)%Z then 50%Z else limit in
  rows <- wrap "list archival: %w" [] (Query (selectRecent tag limit)) ;;
  scanAll scanEntryCols rows.

End EngineFunctions.

End ArchivalStore.

(** *** GraphStore *)

Definition scanEntity (r : EntityRow) : Entity :=
  mkEntity (ent_id r) (ent_name r) (ent_entity_type r) (ent_created_at r).

(** INSERT OR IGNORE INTO entities (name, entity_type) VALUES (?, ?).
    The row id is reserved before the constraints are looked at, and a
    row id reserved for an ignored row is not handed out again. *)
Definition insertEntityOrIgnore (name entityType : string)
    (clock : Z) (t : Tables) : Result (unit * Tables) :=
    let id := (entities_seq t + 1)%Z in
    if existsb (fun r => ent_name r =? name) (entities t)
    then Ok (tt, set_entities (entities t) id t)
    else Ok (tt, set_entities (entities t ++ [mkEntityRow id name entityType clock]) id t).

(** SELECT id FROM entities WHERE name = ? *)
Definition selectEntityID (name : string) (t : Tables) : option Z :=
  option_map ent_id (find (fun r => ent_name r =? name) (entities t)).

(** INSERT OR IGNORE INTO relations (subject_id, predicate, object_id,
    metadata) VALUES (?, ?, ?, ?), with foreign keys enforced. *)
Definition insertRelationOrIgnore (subID : Z) (predicate : string) (objID : Z)
    (metadata : string) (clock : Z) (t : Tables) : Result (unit * Tables) :=
    let id := (relations_seq t + 1)%Z in
    if existsb (fun r => (rel_subject_id r =? subID)%Z
                         && (rel_predicate r =? predicate)
                         && (rel_object_id r =? objID)%Z) (relations t)
    then Ok (tt, set_relations (relations t) id t)
    else if existsb (fun e => (ent_id e =? subID)%Z) (entities t)
            && existsb (fun e => (ent_id e =? objID)%Z) (entities t)
    then Ok (tt, set_relations
                   (relations t ++ [mkRelationRow id subID predicate objID metadata clock])
                   id t)
    else Error ErrForeignKey.

(** FROM relations r JOIN entities s ON s.id = r.subject_id
                     JOIN entities o ON o.id = r.object_id *)
Definition joinRelations (t : Tables) : list (RelationRow * EntityRow * EntityRow) :=
  flat_map (fun r =>
    flat_map (fun s =>
      map (fun o => (r, s, o))
          (filter (fun o => (ent_id o =? rel_object_id r)%Z) (entities t)))
      (filter (fun s => (ent_id s =? rel_subject_id r)%Z) (entities t)))
    (relations t).

(** SELECT r.id, s.name, r.predicate, o.name, r.metadata, r.created_at *)
Definition scanRelation (j : RelationRow * EntityRow * EntityRow) : Relation :=
  let '(r, s, o) := j in
  mkRelation (rel_id r) (ent_name s) (rel_predicate r) (ent_name o)
             (rel_metadata r) (rel_created_at r).

Definition joinedCreatedAt (j : RelationRow * EntityRow * EntityRow) : Z :=
  let '(r, _, _) := j in rel_created_at r.

(** ... WHERE s.name = ? OR o.name = ? ORDER BY r.created_at DESC *)
Definition selectRelationsOf (name : string) (t : Tables)
    : Result (list (RelationRow * EntityRow * EntityRow)) :=
  Ok (orderBy (newestFirst joinedCreatedAt)
        (filter (fun j => let '(_, s, o) := j in
                          (ent_name s =? name) || (ent_name o =? name))
                (joinRelations t))).

(** SELECT ... FROM entities [WHERE entity_type = ?] ORDER BY name *)
Definition selectEntities (entityType : string) (t : Tables) : Result (list EntityRow) :=
  let rows :=
    if entityType =? "" then entities t
    else filter (fun r => ent_entity_type r =? entityType) (entities t) in
  Ok (orderBy (fun x y => String.leb (ent_name x) (ent_name y)) rows).

Module GraphStore.

Definition EnsureEntity (name entityType : string) : M Z :=
  wrap "ensure entity: %w" [] (Exec (insertEntityOrIgnore name entityType)) ;;;
  wrap "get entity id: %w" [] (QueryRow (selectEntityID name)).

Definition AddRelation (subject predicate object metadata : string) : M unit :=
  subID <- EnsureEntity subject "" ;;
  objID <- EnsureEntity object "" ;;
  wrap "add relation: %w" []
       (Exec (insertRelationOrIgnore subID predicate objID metadata)).

Definition QueryEntity (name : string) : M (list Relation) :=
  rows <- wrap "query entity: %w" [] (Query (selectRelationsOf name)) ;;
  scanAll scanRelation rows.

Definition ListEntities (entityType : string) : M (list Entity) :=
  rows <- wrap "list entities: %w" [] (Query (selectEntities entityType)) ;;
  scanAll scanEntity rows.

Section EngineFunctions.

(** The engine's LIKE operator: pattern, then text. *)
Variable like : string -> string -> bool.

(** ... WHERE r.predicate LIKE ? ORDER BY r.created_at DESC *)
Definition selectRelationsLike (pattern : string) (t : Tables)
    : Result (list (RelationRow * EntityRow * EntityRow)) :=
  Ok (orderBy (newestFirst joinedCreatedAt)
        (filter (fun j => let '(r, _, _) := j in like pattern (rel_predicate r))
                (joinRelations t))).

Definition SearchRelations (predicate : string) : M (list Relation) :=
  rows <- wrap "search relations: %w" []
            (Query (selectRelationsLike ("%" ++ predicate ++ "%")%string)) ;;
  scanAll scanRelation rows.

End EngineFunctions.

End GraphStore.

End Memory.

(* ================================================================= *)
(** ** Package [context]: the context assembler *)

Module Context.
Import Engine Memory.

Record Payload : Type := mkPayload {
  CoreBlocks : list Block;
  Summaries : list Summary;
  Graph : list Relation }.

(** [map[int64]bool]: the latest binding of a key is in front; a key
    without binding reads as [false]. *)
Definition SeenMap : Type := list (Z * bool).

Definition seenGet (seen : SeenMap) (id : Z) : bool :=
  match find (fun kv => (fst kv =? id)%Z) seen with
  | Some (_, b) => b
  | None => false
  end.

Definition seenSet (seen : SeenMap) (id : Z) (b : bool) : SeenMap :=
  (id, b) :: seen.

(** [for _, r := range rels { if !seen[r.ID] { seen[r.ID] = true;
    allRelations = append(allRelations, r) } }] *)
Fixpoint appendUnseen (rels : list Relation) (seen : SeenMap)
    (allRelations : list Relation) : SeenMap * list Relation :=
  match rels with
  | [] => (seen, allRelations)
  | r :: rels' =>
      if negb (seenGet seen (Relation_ID r))
      then appendUnseen rels' (seenSet seen (Relation_ID r) true) (allRelations ++ [r])
      else appendUnseen rels' seen allRelations
  end.

(** [for _, e := range entities { rels, err := graph.QueryEntity(e.Name);
    if err != nil { continue }; ... }] *)
Fixpoint scanEntities (entities : list Entity) (seen : SeenMap)
    (allRelations : list Relation) : M (list Relation) :=
  match entities with
  | [] => ret allRelations
  | e :: entities' =>
      q <- try (GraphStore.QueryEntity (Entity_Name e)) ;;
      match q with
      | Error _ => scanEntities entities' seen allRelations
      | Ok rels =>
          let (seen', allRelations') := appendUnseen rels seen allRelations in
          scanEntities entities' seen' allRelations'
      end
  end.

Definition Build : M Payload :=
  coreBlocks <- wrap "load core blocks: %w" [] (BlockStore.List "core") ;;
  recentSummaries <- wrap "load summaries: %w" [] (SummaryStore.List 0 5) ;;
  entities <- wrap "load entities: %w" [] (GraphStore.ListEntities "") ;;
  allRelations <- scanEntities entities [] [] ;;
  ret (mkPayload coreBlocks recentSummaries allRelations).

End Context.

(* ================================================================= *)
(** ** Package [embeddings] *)

Module Embeddings.
Import Engine.

(** A [float32] is carried as its IEEE 754 bit pattern
    ([math.Float32bits]), a 32-bit unsigned integer. *)
Definition float32 : Type := Z.

(** [Provider]: anything with an [Embed] method. *)
Class Provider (P : Type) : Type := {
  Embed : P -> string -> Result (list float32) }.

(** [binary.LittleEndian.PutUint32]. *)
Definition putUint32 (bits : Z) : list Z :=
  [ Z.land bits 255;
    Z.land (Z.shiftr bits 8) 255;
    Z.land (Z.shiftr bits 16) 255;
    Z.land (Z.shiftr bits 24) 255 ].

Definition SerializeEmbedding (v : list float32) : list Z :=
  flat_map putUint32 v.

(** [binary.LittleEndian.Uint32], on the four bytes it reads. *)
Definition uint32 (b0 b1 b2 b3 : Z) : Z :=
  Z.lor b0 (Z.lor (Z.shiftl b1 8) (Z.lor (Z.shiftl b2 16) (Z.shiftl b3 24))).

(** [v := make([]float32, len(b)/4); for i := range v { v[i] = ...
    b[i*4:] }]: one value for each complete group of four bytes. *)
Fixpoint DeserializeEmbedding (b : list Z) : list float32 :=
  match b with
  | b0 :: b1 :: b2 :: b3 :: rest => uint32 b0 b1 b2 b3 :: DeserializeEmbedding rest
  | _ => []
  end.

End Embeddings.

(* ================================================================= *)
(** ** Package [ingest]: the extraction pipeline *)

Module Ingest.
Import Engine Memory Embeddings.

Record BlockUpdate : Type := mkBlockUpdate {
  BlockUpdate_Label : string;
  BlockUpdate_Content : string }.

Record Fact : Type := mkFact {
  Fact_Content : string;
  Fact_Tags : list string }.

Record Triplet : Type := mkTriplet {
  Triplet_Subject : string;
  Triplet_Predicate : string;
  Triplet_Object : string }.

Record ExtractionResult : Type := mkExtractionResult {
  BlockUpdates : list BlockUpdate;
  Facts : list Fact;
  Triplets : list Triplet;
  Summary : string }.

Record Config (P : Type) : Type := mkConfig {
  Provider : string;
  LLMURL : string;
  LLMModel : string;
  APIKey : string;
  EmbedProv : option P }.
Arguments mkConfig {P} _ _ _ _ _.
Arguments Provider {P} c.
Arguments LLMURL {P} c.
Arguments LLMModel {P} c.
Arguments APIKey {P} c.
Arguments EmbedProv {P} c.

(** *** Fence stripping *)

Definition fence : GoStrings.bytes := GoStrings.of_string "```".

Definition stripCodeFencesBytes (s : GoStrings.bytes) : GoStrings.bytes :=
  let s := GoStrings.TrimSpace s in
  let s :=
    if GoStrings.HasPrefix s fence then
      match GoStrings.IndexByte s GoStrings.newline with
      | Some idx => skipn (idx + 1) s
      | None => s
      end
    else s in
  let s :=
    if GoStrings.HasSuffix s fence then firstn (List.length s - 3) s else s in
  GoStrings.TrimSpace s.

Definition stripCodeFences (s : string) : string :=
  GoStrings.to_string (stripCodeFencesBytes (GoStrings.of_string s)).

(** [strings.TrimSpace] on a [string]. *)
Definition TrimSpaceString (s : string) : string :=
  GoStrings.to_string (GoStrings.TrimSpace (GoStrings.of_string s)).

(** *** The language-model backends *)

(** [cmd.Run()] of [claude -p]: the error and what was written to
    stderr, or what was written to stdout. *)
Inductive CmdResult : Type :=
| CmdFailed (err : Err) (stderr : string)
| CmdDone (stdout : string).

(** An HTTP exchange: the transport error, or status and body. *)
Inductive HttpResult : Type :=
| HttpFailed (err : Err)
| HttpResponse (status : Z) (body : string).

(** Everything [Run] reaches outside the process and the store. *)
Record World : Type := mkWorld {
  systemPrompt : string;
  getenv : string -> string;
  (* exec.Command("claude", "-p", "--output-format", "text", prompt) *)
  claude : string -> CmdResult;
  (* POST https://api.anthropic.com/v1/messages: user text, api key *)
  anthropic : string -> string -> HttpResult;
  (* POST LLMURL/api/chat: base URL, model, user text *)
  ollama : string -> string -> string -> HttpResult;
  (* json.Unmarshal of the vendor envelopes: content[].text, message.content *)
  anthropicTexts : string -> Result (list string);
  ollamaContent : string -> Result string;
  (* json.Unmarshal into ExtractionResult *)
  unmarshal : string -> Result ExtractionResult }.

Definition nl : string := String GoStrings.newline EmptyString.

Section Backends.

Variable w : World.

(** [json.Unmarshal([]byte(raw), &result)] and the error that quotes
    the raw text. *)
Definition decodeResult (raw : string) : Result ExtractionResult :=
  match unmarshal w raw with
  | Ok result => Ok result
  | Error e => Error (Wrapf "decode extraction result: %w\nraw: %s" [ArgS raw] e)
  end.

Definition extractWithOllama {P} (text : string) (cfg : Config P)
    : Result ExtractionResult :=
  match ollama w (LLMURL cfg) (LLMModel cfg) text with
  | HttpFailed e => Error (Wrapf "ollama request: %w" [] e)
  | HttpResponse status body =>
      if negb (status =? 200)%Z
      then Error (Errorf "ollama: status %d: %s" [ArgD status; ArgS body])
      else
        match ollamaContent w body with
        | Error e => Error (Wrapf "decode ollama response: %w" [] e)
        | Ok content => decodeResult content
        end
  end.

Definition extractWithAnthropic (text apiKey : string) : Result ExtractionResult :=
  match anthropic w text apiKey with
  | HttpFailed e => Error (Wrapf "anthropic request: %w" [] e)
  | HttpResponse status body =>
      if negb (status =? 200)%Z
      then Error (Errorf "anthropic: status %d: %s" [ArgD status; ArgS body])
      else
        match anthropicTexts w body with
        | Error e => Error (Wrapf "decode anthropic response: %w" [] e)
        | Ok [] => Error (Errorf "empty anthropic response" [])
        | Ok (first :: _) => decodeResult first
        end
  end.

(** [systemPrompt + "\n\nConversation text to extract from:\n\n" + text] *)
Definition claudePrompt (text : string) : string :=
  (systemPrompt w ++ nl ++ nl ++ "Conversation text to extract from:"
                ++ nl ++ nl ++ text)%string.

Definition extractWithClaude (text : string) : Result ExtractionResult :=
  let prompt := claudePrompt text in
  match claude w prompt with
  | CmdFailed e stderr => Error (Wrapf "claude -p failed: %w\nstderr: %s" [ArgS stderr] e)
  | CmdDone stdout =>
      let output := TrimSpaceString stdout in
      if output =? "" then Error (Errorf "empty response from claude -p" [])
      else decodeResult (stripCodeFences output)
  end.

(** *** Applying an extraction result *)

(** [for _, x := range xs { if err := body(x); err != nil { return err } }] *)
Fixpoint forEach {A} (xs : list A) (body : A -> M unit) : M unit :=
  match xs with
  | [] => ret tt
  | x :: xs' => body x ;;; forEach xs' body
  end.

Definition applyBlockUpdate (bu : BlockUpdate) : M unit :=
  existing <- try (BlockStore.GetByLabel (BlockUpdate_Label bu)) ;;
  match existing with
  | Error _ =>
      wrap "create block %q: %w" [ArgS (BlockUpdate_Label bu)]
           (BlockStore.Create (BlockUpdate_Label bu) "core" (BlockUpdate_Content bu)) ;;;
      ret tt
  | Ok _ =>
      wrap "update block %q: %w" [ArgS (BlockUpdate_Label bu)]
           (BlockStore.Update (BlockUpdate_Label bu) (BlockUpdate_Content bu)) ;;;
      ret tt
  end.

(** [var emb []byte; if cfg.EmbedProv != nil { if vec, err := ...;
    err == nil { emb = SerializeEmbedding(vec) } }] *)
Definition embedFact {P} `{Embeddings.Provider P} (cfg : Config P) (f : Fact)
    : option (list Z) :=
  match EmbedProv cfg with
  | None => None
  | Some prov =>
      match Embed prov (Fact_Content f) with
      | Ok vec => Some (SerializeEmbedding vec)
      | Error _ => None
      end
  end.

Definition storeFact {P} `{Embeddings.Provider P} (cfg : Config P) (f : Fact)
    : M unit :=
  let emb := embedFact cfg f in
  wrap "add fact: %w" [] (ArchivalStore.Add (Fact_Content f) (Fact_Tags f) emb) ;;;
  ret tt.

Definition storeTriplet (t : Triplet) : M unit :=
  wrap "add triplet: %w" []
       (GraphStore.AddRelation (Triplet_Subject t) (Triplet_Predicate t)
                               (Triplet_Object t) "").

Definition storeSummary (summary : string) : M unit :=
  if summary =? "" then ret tt
  else wrap "add summary: %w" [] (SummaryStore.Add 0 summary "") ;;; ret tt.

(** Lines 319 to 366 of [Run]. *)
Definition applyResult {P} `{Embeddings.Provider P} (cfg : Config P)
    (result : ExtractionResult) : M ExtractionResult :=
  forEach (BlockUpdates result) applyBlockUpdate ;;;
  forEach (Facts result) (storeFact cfg) ;;;
  forEach (Triplets result) storeTriplet ;;;
  storeSummary (Summary result) ;;;
  ret result.

Definition extracted {P} `{Embeddings.Provider P} (cfg : Config P)
    (r : Result ExtractionResult) : M ExtractionResult :=
  result <- wrap "extract: %w" [] (lift r) ;;
  applyResult cfg result.

Definition Run {P} `{Embeddings.Provider P} (text : string)
    (cfg : option (Config P)) : M ExtractionResult :=
  match cfg with
  | None => fail (Errorf "no config provided — run 'botmem init' to set up" [])
  | Some cfg =>
      if Provider cfg =? "claude" then
        extracted cfg (extractWithClaude text)
      else if Provider cfg =? "anthropic" then
        let apiKey := APIKey cfg in
        let apiKey := if apiKey =? "" then getenv w "ANTHROPIC_API_KEY" else apiKey in
        if apiKey =? ""
        then fail (Errorf "no Anthropic API key — set ANTHROPIC_API_KEY or run 'botmem init'" [])
        else extracted cfg (extractWithAnthropic text apiKey)
      else if Provider cfg =? "ollama" then
        extracted cfg (extractWithOllama text cfg)
      else
        fail (Errorf "unknown provider %q — run 'botmem init' to configure"
                     [ArgS (Provider cfg)])
  end.

End Backends.

End Ingest.

(* ================================================================= *)
(** ** Package [main]: what the commands do with the stores *)

Module Cli.
Import Engine Memory.

(** [block set <label> <content>], on the opened database.  The [err]
    the branches assign is the one the [if] statement declares; the [err]
    tested after the statement is the one of [db.Open], which is nil. *)
Definition blockSet (label content : string) : M unit :=
  existing <- try (BlockStore.GetByLabel label) ;;
  match existing with
  | Error _ => try (BlockStore.Create label "core" content) ;;; ret tt
  | Ok _ => try (BlockStore.Update label content) ;;; ret tt
  end.

(** [var tags []string; if tagsFlag != "" { tags = strings.Split(tagsFlag,
    ",") }] *)
Definition tagsOfFlag (tagsFlag : string) : list string :=
  if tagsFlag =? "" then [] else GoStrings.Split tagsFlag ","%char.

(** [archive add <text> --tags ...], on the opened database. *)
Definition archiveAdd (text tagsFlag : string) : M ArchivalEntry :=
  ArchivalStore.Add text (tagsOfFlag tagsFlag) None.

End Cli.

(* ================================================================= *)
(** ** The vocabulary of the properties *)

Module Schema.
Import Engine Memory.

(** No call on the connection is going to be refused. *)
Definition healthy (st : DB) : Prop := faults st = [].

(** UNIQUE(subject_id, predicate, object_id) *)
Definition relKey (r : RelationRow) : Z * string * Z :=
  (rel_subject_id r, rel_predicate r, rel_object_id r).

(** The constraints [db.migrate] declares on [entities] and [relations]:
    primary keys, UNIQUE columns, row ids below the AUTOINCREMENT high-water
    mark, and the two foreign keys. *)
Record GraphOK (t : Tables) : Prop := mkGraphOK {
  ent_ids_unique : NoDup (map ent_id (entities t));
  ent_names_unique : NoDup (map ent_name (entities t));
  ent_ids_issued : Forall (fun e => (ent_id e <= entities_seq t)%Z) (entities t);
  rel_ids_unique : NoDup (map rel_id (relations t));
  rel_keys_unique : NoDup (map relKey (relations t));
  rel_ids_issued : Forall (fun r => (rel_id r <= relations_seq t)%Z) (relations t);
  rel_references :
    Forall (fun r => In (rel_subject_id r) (map ent_id (entities t))
                     /\ In (rel_object_id r) (map ent_id (entities t)))
           (relations t) }.

(** Row ids of [archival] are below its high-water mark. *)
Definition ArchivalOK (t : Tables) : Prop :=
  Forall (fun r => (arc_id r <= archival_seq t)%Z) (archival t).

(** What the engine guarantees of the tables the properties below rely
    on. *)
Definition SchemaOK (t : Tables) : Prop := GraphOK t /\ ArchivalOK t.

(** A step of the tables that does not break the schema. *)
Definition preserving (before after : Tables) : Prop :=
  SchemaOK before -> SchemaOK after.

(** The entity a relation end refers to; the foreign keys make sure there
    is one. *)
Definition noEntity : EntityRow := mkEntityRow 0 "" "" 0.

Definition entityRow (t : Tables) (id : Z) : EntityRow :=
  match find (fun e => (ent_id e =? id)%Z) (entities t) with
  | Some e => e
  | None => noEntity
  end.

Definition entityName (t : Tables) (id : Z) : string := ent_name (entityRow t id).

(** A relation row next to the rows of its two ends. *)
Definition joined (t : Tables) (r : RelationRow) : RelationRow * EntityRow * EntityRow :=
  (r, entityRow t (rel_subject_id r), entityRow t (rel_object_id r)).

(** Equality of two relation keys. *)
Definition relKeyEqb (k k' : Z * string * Z) : bool :=
  let '(s, p, o) := k in
  let '(s', p', o') := k' in
  (s =? s')%Z && (p =? p') && (o =? o')%Z.

(** A row of [relations] as the graph store reports it. *)
Definition relationOf (t : Tables) (r : RelationRow) : Relation :=
  mkRelation (rel_id r) (entityName t (rel_subject_id r)) (rel_predicate r)
             (entityName t (rel_object_id r)) (rel_metadata r) (rel_created_at r).

(** [name] is the subject or the object of the relation. *)
Definition involves (t : Tables) (name : string) (r : RelationRow) : bool :=
  (entityName t (rel_subject_id r) =? name) || (entityName t (rel_object_id r) =? name).

(** How many relation rows stand for the triple (subject, predicate, object). *)
Definition tripleCount (t : Tables) (subject predicate object : string) : nat :=
  List.length
    (filter (fun j => let '(r, s, o) := j in
                      (ent_name s =? subject) && (rel_predicate r =? predicate)
                      && (ent_name o =? object))
            (joinRelations t)).

(** The entries a call handed back; none when it failed. *)
Definition returned {A} (out : Result (list A) * DB) : list A :=
  match fst out with
  | Ok l => l
  | Error _ => []
  end.

End Schema.

Module Assembly.
Import Engine Memory Context.

(** What [graph.QueryEntity] answers for each entity in turn, failures
    included. *)
Fixpoint queryAll (entities : list Entity) (st : DB)
    : list (Result (list Relation)) * DB :=
  match entities with
  | [] => ([], st)
  | e :: entities' =>
      let (q, st1) := GraphStore.QueryEntity (Entity_Name e) st in
      let (qs, st2) := queryAll entities' st1 in
      (q :: qs, st2)
  end.

(** The relations of the queries that succeeded, in order. *)
Definition succeeded (qs : list (Result (list Relation))) : list Relation :=
  flat_map (fun q => match q with Ok rels => rels | Error _ => [] end) qs.

(** De-duplication by relation identifier: the first occurrence stays. *)
Fixpoint dedupFrom (ids : list Z) (rels : list Relation) : list Relation :=
  match rels with
  | [] => []
  | r :: rels' =>
      if existsb (fun id => (id =? Relation_ID r)%Z) ids
      then dedupFrom ids rels'
      else r :: dedupFrom (Relation_ID r :: ids) rels'
  end.

Definition dedupByID (rels : list Relation) : list Relation := dedupFrom [] rels.

(** The [seen] map and a list of identifiers say the same. *)
Definition agree (seen : SeenMap) (ids : list Z) : Prop :=
  forall id, seenGet seen id = existsb (fun x => (x =? id)%Z) ids.

(** The assembler as the corrected claim words it: the three listings fail
    the assembly with the name of their store; a failed entity query is
    skipped; the relations are the de-duplicated union of the others. *)
Definition assemble (st : DB) : Result Payload * DB :=
  match BlockStore.List "core" st with
  | (Error e, st1) => (Error (Wrapf "load core blocks: %w" [] e), st1)
  | (Ok coreBlocks, st1) =>
      match SummaryStore.List 0 5 st1 with
      | (Error e, st2) => (Error (Wrapf "load summaries: %w" [] e), st2)
      | (Ok recentSummaries, st2) =>
          match GraphStore.ListEntities "" st2 with
          | (Error e, st3) => (Error (Wrapf "load entities: %w" [] e), st3)
          | (Ok entities, st3) =>
              let (qs, st4) := queryAll entities st3 in
              (Ok (mkPayload coreBlocks recentSummaries (dedupByID (succeeded qs))), st4)
          end
      end
  end.

End Assembly.

Module Plan.
Import Engine Memory Embeddings Ingest.

(** One store write of the apply phase. *)
Inductive Write : Type :=
| WBlock (bu : BlockUpdate)
| WFact (f : Fact)
| WTriplet (t : Triplet)
| WSummary (summary : string).

(** The writes an extraction result asks for, in the order of the claim:
    block updates, facts, triplets, summary. *)
Definition writePlan (result : ExtractionResult) : list Write :=
  map WBlock (BlockUpdates result)
  ++ map WFact (Facts result)
  ++ map WTriplet (Triplets result)
  ++ (if Summary result =? "" then [] else [WSummary (Summary result)]).

Definition doWrite {P} `{Embeddings.Provider P} (cfg : Config P) (w : Write) : M unit :=
  match w with
  | WBlock bu => applyBlockUpdate bu
  | WFact f => storeFact cfg f
  | WTriplet t => storeTriplet t
  | WSummary s => wrap "add summary: %w" [] (SummaryStore.Add 0 s "") ;;; ret tt
  end.

(** Nothing that was in the store before a write is missing after it: rows
    of the append-only tables are still there, and so is every block the
    write does not itself address. *)
Definition kept (w : Write) (before after : Tables) : Prop :=
  incl (archival before) (archival after)
  /\ incl (entities before) (entities after)
  /\ incl (relations before) (relations after)
  /\ incl (conversation_summaries before) (conversation_summaries after)
  /\ incl (map blk_label (memory_blocks before)) (map blk_label (memory_blocks after))
  /\ forall b, In b (memory_blocks before) ->
       match w with
       | WBlock bu => blk_label b <> BlockUpdate_Label bu
       | _ => True
       end ->
       In b (memory_blocks after).

(** Every run of [m] takes the tables from one state to a state related
    to it by [R]. *)
Definition steps {A} (R : Tables -> Tables -> Prop) (m : M A) : Prop :=
  forall st r st', m st = (r, st') -> R (tables st) (tables st').

(** Relations on tables that hold of no change at all and compose. *)
Class Cumulative (R : Tables -> Tables -> Prop) : Prop := {
  cumulative_refl : forall t, R t t;
  cumulative_trans : forall t1 t2 t3, R t1 t2 -> R t2 t3 -> R t1 t3 }.


(** The configuration with the embedding provider taken out. *)
Definition withoutEmbedder {P} (cfg : Config P) : Config P :=
  mkConfig (Provider cfg) (LLMURL cfg) (LLMModel cfg) (APIKey cfg) None.

End Plan.

(* ================================================================= *)
(** ** More vocabulary: keys of the other tables, orders, limits *)

Module Constraints.
Import Engine Memory Schema.

(** Row ids of [memory_blocks] are below its high-water mark. *)
Definition BlocksOK (t : Tables) : Prop :=
  Forall (fun r => (blk_id r <= memory_blocks_seq t)%Z) (memory_blocks t).

(** Row ids of [conversation_summaries] are below its high-water mark. *)
Definition SummariesOK (t : Tables) : Prop :=
  Forall (fun r => (sum_id r <= conversation_summaries_seq t)%Z)
         (conversation_summaries t).

(** The number of rows a listing asks for: [limit], or the default of
    the method when [limit] is not positive. *)
Definition limitOr (default limit : Z) : nat :=
  Z.to_nat (if (limit <=? 0)%Z then default else limit).

(** [x] is listed before [y] under ORDER BY label (or name): bytewise. *)
Definition byLabel (x y : Block) : Prop :=
  String.leb (Block_Label x) (Block_Label y) = true.

Definition byName (x y : Entity) : Prop :=
  String.leb (Entity_Name x) (Entity_Name y) = true.

(** [x] is listed before [y] under ORDER BY created_at DESC. *)
Definition newerFirst {A} (created : A -> Z) (x y : A) : Prop :=
  (created y <= created x)%Z.

(** ... under ORDER BY created_at DESC, id DESC. *)
Definition newerThenHigher (x y : Summary) : Prop :=
  (Summary_CreatedAt y < Summary_CreatedAt x)%Z
  \/ (Summary_CreatedAt y = Summary_CreatedAt x /\ Summary_ID y <= Summary_ID x)%Z.

(** The comparison behind ORDER BY created_at DESC, id DESC. *)
Definition summaryFirst (x y : SummaryRow) : bool :=
  ((sum_created_at y <? sum_created_at x)
   || (sum_created_at y =? sum_created_at x) && (sum_id y <=? sum_id x))%Z.

(** The rows [List] is asked for: all of them, or those of a type. *)
Definition ofType (blockType : string) (r : BlockRow) : bool :=
  (blockType =? "") || (blk_block_type r =? blockType).

Definition ofEntityType (entityType : string) (r : EntityRow) : bool :=
  (entityType =? "") || (ent_entity_type r =? entityType).


(** The rows [ArchivalStore.List] is asked for: all of them, or those
    whose tag string the engine's LIKE accepts for [%tag%]. *)
Definition tagged (like : string -> string -> bool) (tag : string) (r : ArchivalRow) : bool :=
  (tag =? "") || like ("%" ++ tag ++ "%")%string (arc_tags r).

(** A step of the tables that leaves a column set of them as it was. *)
Definition untouched {A} (column : Tables -> A) (before after : Tables) : Prop :=
  column after = column before.

(** The columns of an archival row the pipeline decides: content, tag
    string and embedding. *)
Definition factColumns (r : ArchivalRow) : string * string * option (list Z) :=
  (arc_content r, arc_tags r, arc_embedding r).

(** The columns of a summary row the pipeline decides. *)
Definition summaryColumns (r : SummaryRow) : Z * string * string :=
  (sum_level r, sum_content r, sum_source_ids r).

End Constraints.

Module Outcome.
Import Engine Memory Embeddings Ingest.


(** The content the last update of a label carries, if the label is
    updated at all. *)
Fixpoint lastContent (label : string) (updates : list BlockUpdate) : option string :=
  match updates with
  | [] => None
  | bu :: rest =>
      match lastContent label rest with
      | Some c => Some c
      | None => if BlockUpdate_Label bu =? label then Some (BlockUpdate_Content bu) else None
      end
  end.

End Outcome.

(* ================================================================= *)
(** ** Concrete stores, results and collaborators *)

Module Examples.
Import Engine Memory Context Embeddings Ingest Schema Plan.

(** An embedding provider given by its answers. *)
Definition AnswerTable : Type := string -> Result (list float32).

#[export] Instance AnswerTable_Provider : Embeddings.Provider AnswerTable :=
  {| Embed := fun (answers : AnswerTable) text => answers text |}.

(** An Ollama instance that answers every request with status 500. *)
Definition brokenEmbedder : AnswerTable :=
  fun _ => Error (Errorf "ollama embed: status %d" [ArgD 500]).

Definition noResult : ExtractionResult := mkExtractionResult [] [] [] "".

(** The extraction result of the end-to-end example of the specification. *)
Definition sampleResult : ExtractionResult :=
  mkExtractionResult
    [mkBlockUpdate "human" "X"]
    [mkFact "Y" ["t"]]
    [mkTriplet "A" "p" "B"]
    "S".

Definition claudeConfig : Config AnswerTable :=
  mkConfig "claude" "" "claude" "" None.


Definition brokenEmbedderConfig : Config AnswerTable :=
  mkConfig "claude" "" "claude" "" (Some brokenEmbedder).

(** A JSON decoder good for two texts: the empty object decodes to the
    empty result, anything else is refused. *)
Definition unmarshalEmptyObject (raw : string) : Result ExtractionResult :=
  if raw =? "{}" then Ok noResult
  else Error (ErrExternal "invalid character looking for beginning of value").


(** Two entities, one relation between them and one relation of the first
    entity with itself. *)
Definition graphTables : Tables :=
  mkTables [] 0 [] 0
           [mkEntityRow 1 "A" "" 10; mkEntityRow 2 "B" "" 10] 2
           [mkRelationRow 1 1 "p" 2 "" 10; mkRelationRow 2 1 "q" 1 "" 11] 2
           [] 0.

Definition graphDB : DB := mkDB graphTables 20 [].

(** The same store on a connection that refuses the fourth and the fifth
    call. *)
Definition graphDBRefusingQueries : DB :=
  mkDB graphTables 20 [Healthy; Healthy; Healthy; FailStmt; FailStmt].

(** A row with an embedding and a row without. *)
Definition archiveDB : DB :=
  mkDB (mkTables [] 0
                 [mkArchivalRow 1 "no embedding" "" None 5;
                  mkArchivalRow 2 "has embedding" "a,b" (Some [1; 2; 3; 4]%Z) 6] 2
                 [] 0 [] 0 [] 0)
       20 [].

(** Toy engine functions: the index matches every row, LIKE matches every
    text. *)
Definition matchAll (query : string) (rows : list ArchivalRow) : Result (list Z) :=
  Ok (map arc_id rows).

Definition likeAll (pattern text : string) : bool := true.

(** An empty store on a connection that refuses its fourth call: the
    block update of [sampleResult] goes through, the INSERT of its fact does
    not. *)
Definition refusingFourthCall : DB :=
  mkDB emptyTables 7 [Healthy; Healthy; Healthy; FailStmt].



End Examples.

(* ================================================================= *)
(** ** More concrete stores, results and collaborators *)

Module MoreExamples.
Import Engine Memory Embeddings Ingest Schema Plan Examples.

(** Two blocks; the id 2 was handed out once and its block deleted. *)
Definition blocksDB : DB :=
  mkDB (mkTables [mkBlockRow 1 "human" "core" "Stuart" 10 10;
                  mkBlockRow 3 "scratch" "notes" "todo" 12 14] 3
                 [] 0 [] 0 [] 0 [] 0)
       50 [].

(** Three summaries, two of level 0 and one of level 1, the last two
    written within one second. *)
Definition summariesDB : DB :=
  mkDB (mkTables [] 0 [] 0 [] 0 [] 0
                 [mkSummaryRow 1 0 "first" "" 10;
                  mkSummaryRow 2 1 "weekly" "1,3" 11;
                  mkSummaryRow 3 0 "second" "" 11] 3)
       50 [].

(** Whether [text] has [part] at its front, and somewhere. *)
Fixpoint startsWith (part text : string) : bool :=
  match part, text with
  | EmptyString, _ => true
  | String p part', String c text' => Ascii.eqb p c && startsWith part' text'
  | String _ _, EmptyString => false
  end.

Fixpoint contains (part text : string) : bool :=
  startsWith part text
  || match text with
     | EmptyString => false
     | String _ text' => contains part text'
     end.

(** LIKE as far as the examples need it: a pattern [%part%], with no
    other wildcard in [part], accepts the texts that contain [part]. *)
Definition likeContains (pattern text : string) : bool :=
  match pattern with
  | String "%"%char rest =>
      contains (substring 0 (String.length rest - 1) rest) text
  | _ => pattern =? text
  end.

(** A provider that answers every text with the vector (1.0, 0.0), given
    by the bits of its values. *)
Definition unitEmbedder : AnswerTable :=
  fun _ => Ok [1065353216; 0]%Z.

Definition embedderConfig : Config AnswerTable :=
  mkConfig "claude" "" "claude" "" (Some unitEmbedder).

(** A result that updates one label twice, has a fact without tags, and
    names one triplet twice. *)
Definition busyResult : ExtractionResult :=
  mkExtractionResult
    [mkBlockUpdate "human" "X"; mkBlockUpdate "persona" "P"; mkBlockUpdate "human" "Y"]
    [mkFact "likes Go" ["tech"; "opinion"]; mkFact "lives in NZ" []]
    [mkTriplet "A" "p" "B"; mkTriplet "B" "q" "C"; mkTriplet "A" "p" "B"]
    "talked about Go".

(** A world in which the claude CLI is not installed. *)
Definition noClaudeWorld : World :=
  mkWorld "You are a memory extraction system."
          (fun _ => "")
          (fun _ => CmdFailed (ErrExternal "exec: claude: executable file not found") "")
          (fun _ _ => HttpFailed (ErrExternal "dial tcp: connection refused"))
          (fun _ _ _ => HttpFailed (ErrExternal "dial tcp: connection refused"))
          (fun _ => Error (ErrExternal "unexpected end of JSON input"))
          (fun _ => Error (ErrExternal "unexpected end of JSON input"))
          unmarshalEmptyObject.

(** The block store on a connection that refuses its next call and
    serves the one after. *)
Definition blocksDBRefusingLookup : DB :=
  mkDB (tables blocksDB) 50 [FailStmt; Healthy].

(** ... and on one that serves the lookup and refuses the write. *)
Definition blocksDBRefusingWrite : DB :=
  mkDB (tables blocksDB) 50 [Healthy; FailStmt].

End MoreExamples.

(* ================================================================= *)
(** ** Facts about [strings.TrimSpace] and fence stripping *)

Module StringFacts.
Import GoStrings Ingest.

Lemma leadingSpace_le s : leadingSpace s <= List.length s.
Proof.
  destruct s as [|a [|b [|c s]]]; simpl; repeat match goal with |- context [if ?x then _ else _] => destruct x end; lia.
Qed.

Lemma trailingSpace_le s : trailingSpace s <= List.length s.
Proof.
  destruct s as [|a [|b [|c s]]]; simpl; repeat match goal with |- context [if ?x then _ else _] => destruct x end; lia.
Qed.

Lemma strip_stop width n s : width s = 0 -> strip width n s = s.
Proof. intros H; destruct n; simpl; [reflexivity | now rewrite H]. Qed.

Lemma strip_fuel width (Hle : forall s, width s <= List.length s) n :
  forall m s, List.length s <= n -> List.length s <= m ->
  strip width n s = strip width m s.
Proof.
  induction n as [|n IH]; intros m s Hn Hm.
  - destruct s; [|simpl in Hn; lia]. destruct m; [reflexivity|].
    cbn [strip]. assert (H := Hle []). cbn [List.length] in H.
    destruct (width []); [reflexivity | lia].
  - destruct (width s) as [|w] eqn:E.
    + now rewrite !strip_stop.
    + assert (Hw := Hle s). rewrite E in Hw.
      destruct m as [|m]; [lia|].
      cbn [strip]. rewrite E.
      apply IH; rewrite length_skipn; lia.
Qed.

Lemma leadingSpace_app s t :
  leadingSpace s <> 0 -> leadingSpace (s ++ t) = leadingSpace s.
Proof.
  destruct s as [|a [|b [|c s]]]; simpl; intros H;
    repeat match goal with
           | |- context [if ?x then _ else _] => destruct x eqn:?
           | H : context [if ?x then _ else _] |- _ => destruct x eqn:?
           end; try congruence; try reflexivity.
Qed.








Lemma leadingSpace_backtick r : leadingSpace (backtick :: r) = 0.
Proof.
  destruct r as [|b [|c r]]; reflexivity.
Qed.

Lemma trailingSpace_backtick r : trailingSpace (backtick :: r) = 0.
Proof.
  destruct r as [|b [|c r]]; cbn [trailingSpace]; change (asciiSpace backtick) with false;
    cbn iota; try reflexivity.
  - unfold space2. cbn. now rewrite andb_false_r.
  - unfold space2, space3. cbn. rewrite !andb_false_r. reflexivity.
Qed.

Lemma TrimSpace_fenced mid :
  TrimSpace (backtick :: mid ++ [backtick]) = backtick :: mid ++ [backtick].
Proof.
  unfold TrimSpace, TrimLeft. rewrite strip_stop by apply leadingSpace_backtick.
  unfold TrimRight.
  rewrite strip_stop, rev_involutive; [reflexivity|].
  change (backtick :: mid ++ [backtick]) with ((backtick :: mid) ++ [backtick]).
  rewrite rev_app_distr. apply trailingSpace_backtick.
Qed.


Lemma of_string_app a b : of_string (a ++ b)%string = of_string a ++ of_string b.
Proof.
  unfold of_string. induction a as [|c a IH]; cbn; [reflexivity | now rewrite IH].
Qed.



End StringFacts.

(* ================================================================= *)
(** ** The stores on a healthy connection *)

Module StoreFacts.
Import Engine Memory Schema.

Lemma find_app {A} (f : A -> bool) l l' :
  find f (l ++ l') = match find f l with Some x => Some x | None => find f l' end.
Proof. induction l as [|a l IH]; cbn; [reflexivity|]. destruct (f a); auto. Qed.

Lemma find_none_existsb {A} (f : A -> bool) l :
  find f l = None -> existsb f l = false.
Proof.
  induction l as [|a l IH]; cbn; [reflexivity|].
  destruct (f a); [discriminate | auto].
Qed.

Lemma existsb_false_find {A} (f : A -> bool) l :
  existsb f l = false -> find f l = None.
Proof.
  induction l as [|a l IH]; cbn; [reflexivity|].
  destruct (f a); [discriminate | auto].
Qed.

Lemma next_fault_healthy st : healthy st -> next_fault st = (Healthy, st).
Proof. unfold healthy, next_fault. intros ->. reflexivity. Qed.

Lemma Exec_healthy {A} (stmt : Z -> Tables -> Result (A * Tables)) st :
  healthy st ->
  Exec stmt st =
  match stmt (now st) (tables st) with
  | Ok (a, t') => (Ok a, mkDB t' (now st) (faults st))
  | Error e => (Error e, st)
  end.
Proof. intros H. unfold Exec. rewrite (next_fault_healthy st H). reflexivity. Qed.

Lemma QueryRow_healthy {A} (sel : Tables -> option A) st :
  healthy st ->
  QueryRow sel st =
  match sel (tables st) with
  | Some a => (Ok a, st)
  | None => (Error ErrNoRows, st)
  end.
Proof. intros H. unfold QueryRow. rewrite (next_fault_healthy st H). reflexivity. Qed.

Lemma Query_healthy {A} (sel : Tables -> Result (list A)) st :
  healthy st ->
  Query sel st =
  match sel (tables st) with
  | Ok rows => (Ok (mkRows rows false), st)
  | Error e => (Error e, st)
  end.
Proof. intros H. unfold Query. rewrite (next_fault_healthy st H). reflexivity. Qed.

Lemma selectBlockByLabel_none label t :
  selectBlockByLabel label t = None ->
  find (fun r => blk_label r =? label) (memory_blocks t) = None.
Proof.
  unfold selectBlockByLabel. destruct (find _ _); [discriminate | reflexivity].
Qed.

(** C5.  On a healthy connection, for a label that has no block,
    [Create] followed by [GetByLabel] returns a block with that label and
    exactly the created content, and every further [Create] with the label,
    whatever its type and content, fails with a conflict (the UNIQUE
    constraint on [label]) and changes nothing. *)
Theorem create_getByLabel_roundtrip st label blockType content :
  healthy st ->
  selectBlockByLabel label (tables st) = None ->
  exists b st1 b',
    BlockStore.Create label blockType content st = (Ok b, st1)
    /\ BlockStore.GetByLabel label st1 = (Ok b', st1)
    /\ Block_Label b' = label
    /\ Block_Content b' = content
    /\ forall blockType2 content2, exists e,
         BlockStore.Create label blockType2 content2 st1 = (Error e, st1)
         /\ isConflict e = true.
Proof.
  intros Hh Hnone.
  apply selectBlockByLabel_none in Hnone.
  pose proof (find_none_existsb _ _ Hnone) as Hex.
  set (ty := if blockType =? "" then "core" else blockType).
  set (id := (memory_blocks_seq (tables st) + 1)%Z).
  set (row := mkBlockRow id label ty content (now st) (now st)).
  set (t1 := set_memory_blocks (memory_blocks (tables st) ++ [row]) id (tables st)).
  set (st1 := mkDB t1 (now st) (faults st)).
  assert (Hh1 : healthy st1) by exact Hh.
  assert (Hins : Exec (insertBlock label ty content) st = (Ok id, st1)).
  { rewrite Exec_healthy by exact Hh. unfold insertBlock. rewrite Hex. reflexivity. }
  assert (Hbyid : exists r, find (fun r => (blk_id r =? id)%Z) (memory_blocks t1) = Some r).
  { unfold t1. cbn [memory_blocks set_memory_blocks]. rewrite find_app.
    destruct (find (fun r => (blk_id r =? id)%Z) (memory_blocks (tables st))) as [r|]; [now exists r|].
    exists row. unfold row at 1. cbn [find blk_id]. rewrite Z.eqb_refl. reflexivity. }
  destruct Hbyid as [r Hr].
  assert (Hlab : find (fun r => blk_label r =? label) (memory_blocks t1) = Some row).
  { unfold t1. cbn [memory_blocks set_memory_blocks]. rewrite find_app, Hnone.
    unfold row at 1. cbn [find blk_label]. rewrite String.eqb_refl. reflexivity. }
  exists (scanBlock r), st1, (scanBlock row).
  split; [|split; [|split; [|split]]].
  - unfold BlockStore.Create. fold ty. unfold bind, wrap. rewrite Hins.
    unfold BlockStore.GetByID, wrap. rewrite QueryRow_healthy by exact Hh1.
    unfold selectBlockByID. cbn [tables st1]. rewrite Hr. reflexivity.
  - unfold BlockStore.GetByLabel, wrap. rewrite QueryRow_healthy by exact Hh1.
    unfold selectBlockByLabel. cbn [tables st1]. rewrite Hlab. reflexivity.
  - reflexivity.
  - reflexivity.
  - intros ty2 content2. eexists. split.
    + unfold BlockStore.Create, bind, wrap. rewrite Exec_healthy by exact Hh1.
      unfold insertBlock. cbn [tables st1].
      assert (Hex1 : existsb (fun r => blk_label r =? label) (memory_blocks t1) = true).
      { unfold t1. cbn [memory_blocks set_memory_blocks]. rewrite existsb_app. cbn.
        rewrite String.eqb_refl. now rewrite orb_true_r. }
      rewrite Hex1. reflexivity.
    + reflexivity.
Qed.


Lemma map_id_when {A} (f : A -> A) (p : A -> bool) l :
  existsb p l = false -> map (fun r => if p r then f r else r) l = l.
Proof.
  induction l as [|a l IH]; cbn; [reflexivity|].
  destruct (p a); [discriminate|]. intros H. now rewrite IH.
Qed.

Lemma filter_all_when {A} (p : A -> bool) l :
  existsb p l = false -> filter (fun r => negb (p r)) l = l.
Proof.
  induction l as [|a l IH]; cbn; [reflexivity|].
  destruct (p a); [discriminate|]. intros H. cbn. now rewrite IH.
Qed.

Lemma set_memory_blocks_same t :
  set_memory_blocks (memory_blocks t) (memory_blocks_seq t) t = t.
Proof. destruct t; reflexivity. Qed.

Lemma DB_eta st : mkDB (tables st) (now st) (faults st) = st.
Proof. destruct st; reflexivity. Qed.

(** C6.  On a healthy connection, for a label that has no block,
    [Update] returns a not-found error ([sql.ErrNoRows] under its wrappers)
    and leaves the store as it was, and [Delete] succeeds and leaves the
    store as it was. *)
Theorem update_missing_not_found_delete_missing_ok st label content :
  healthy st ->
  selectBlockByLabel label (tables st) = None ->
  (exists e, BlockStore.Update label content st = (Error e, st)
             /\ isNotFound e = true)
  /\ BlockStore.Delete label st = (Ok tt, st).
Proof.
  intros Hh Hnone.
  pose proof (find_none_existsb _ _ (selectBlockByLabel_none _ _ Hnone)) as Hex.
  split.
  - eexists. split.
    + unfold BlockStore.Update, bind, wrap. rewrite Exec_healthy by exact Hh.
      unfold updateBlock.
      rewrite (map_id_when _ (fun r => blk_label r =? label)) by exact Hex.
      rewrite set_memory_blocks_same, DB_eta.
      unfold BlockStore.GetByLabel, wrap. rewrite QueryRow_healthy by exact Hh.
      rewrite Hnone. reflexivity.
    + reflexivity.
  - unfold BlockStore.Delete. rewrite Exec_healthy by exact Hh.
    unfold deleteBlock. rewrite filter_all_when by exact Hex.
    now rewrite set_memory_blocks_same, DB_eta.
Qed.

Lemma Join_concat tags sep : GoStrings.Join tags sep = String.concat sep tags.
Proof.
  induction tags as [|x [|y tags] IH]; cbn; [reflexivity | reflexivity |].
  cbn in IH. now rewrite IH.
Qed.

Lemma find_fresh_id (rows : list ArchivalRow) seq id :
  Forall (fun r => (arc_id r <= seq)%Z) rows -> (seq < id)%Z ->
  find (fun r => (arc_id r =? id)%Z) rows = None.
Proof.
  intros Hall Hlt. apply existsb_false_find.
  induction Hall as [|r rows Hr _ IH]; cbn; [reflexivity|].
  rewrite IH, orb_false_r. apply Z.eqb_neq. lia.
Qed.

(** C7.  On a healthy connection [Add] stores one new row and returns the
    entry read back from it; the tags of both are the comma-join of the tag
    list in order, which for the empty (or nil) list is the empty string. *)
Theorem add_stores_comma_joined_tags st content tags embedding :
  healthy st ->
  ArchivalOK (tables st) ->
  exists e st',
    ArchivalStore.Add content tags embedding st = (Ok e, st')
    /\ Entry_Tags e = String.concat "," tags
    /\ archival (tables st') =
       archival (tables st)
       ++ [mkArchivalRow (Entry_ID e) content (String.concat "," tags) embedding (now st)]
    /\ String.concat "," [] = "".
Proof.
  intros Hh Hok.
  set (id := (archival_seq (tables st) + 1)%Z).
  set (row := mkArchivalRow id content (GoStrings.Join tags ",") embedding (now st)).
  set (t1 := set_archival (archival (tables st) ++ [row]) id (tables st)).
  set (st1 := mkDB t1 (now st) (faults st)).
  exists (scanEntry row), st1.
  assert (Hfind : find (fun r => (arc_id r =? id)%Z) (archival t1) = Some row).
  { unfold t1. cbn [archival set_archival]. rewrite find_app.
    rewrite (find_fresh_id _ (archival_seq (tables st)) id Hok) by (unfold id; lia).
    unfold row at 1. cbn [find arc_id]. now rewrite Z.eqb_refl. }
  split; [|split; [|split]].
  - unfold ArchivalStore.Add, bind, wrap. rewrite Exec_healthy by exact Hh.
    unfold insertArchival. fold id. fold row. fold t1. fold st1.
    unfold ArchivalStore.GetByID, wrap. rewrite QueryRow_healthy by exact Hh.
    unfold selectArchivalByID. cbn [tables st1]. rewrite Hfind. reflexivity.
  - cbn. apply Join_concat.
  - cbn [tables st1 t1 archival set_archival]. unfold row.
    cbn [scanEntry Entry_ID arc_id]. now rewrite Join_concat.
  - reflexivity.
Qed.





End StoreFacts.

(* ================================================================= *)
(** ** The graph store: schema constraints and what they give *)

Module GraphFacts.
Import Engine Memory Schema StoreFacts.

(** *** Lists with a key *)

Section Keyed.
Context {A K : Type} (key : A -> K).

Lemma key_injective l a b :
  NoDup (map key l) -> In a l -> In b l -> key a = key b -> a = b.
Proof.
  induction l as [|x l IH]; cbn; intros Hnd Ha Hb Hk; [contradiction|].
  inversion Hnd as [|? ? Hnotin Hnd']; subst.
  destruct Ha as [<-|Ha], Hb as [<-|Hb]; auto.
  - exfalso. apply Hnotin. rewrite Hk. now apply in_map.
  - exfalso. apply Hnotin. rewrite <- Hk. now apply in_map.
Qed.

Lemma NoDup_snoc l x :
  NoDup (map key l) -> ~ In (key x) (map key l) -> NoDup (map key (l ++ [x])).
Proof.
  intros Hnd Hx. rewrite map_app. apply NoDup_app; [exact Hnd | |].
  - cbn. constructor; [intros [] | constructor].
  - cbn. intros a Ha [<-|[]]. contradiction.
Qed.

Variable eqb : K -> K -> bool.
Hypothesis eqb_spec : forall k k', eqb k k' = true <-> k = k'.

Lemma existsb_key_false l k :
  existsb (fun a => eqb (key a) k) l = false -> ~ In k (map key l).
Proof.
  intros Hex Hin. apply in_map_iff in Hin. destruct Hin as [a [Hk Ha]].
  assert (existsb (fun a => eqb (key a) k) l = true).
  { apply existsb_exists. exists a. split; [exact Ha | now apply eqb_spec]. }
  congruence.
Qed.

Lemma existsb_key_true l k :
  existsb (fun a => eqb (key a) k) l = true -> exists a, In a l /\ key a = k.
Proof.
  intros Hex. apply existsb_exists in Hex. destruct Hex as [a [Ha Hk]].
  exists a. split; [exact Ha | now apply eqb_spec].
Qed.

Lemma find_key l k a :
  find (fun a => eqb (key a) k) l = Some a -> In a l /\ key a = k.
Proof.
  intros H. apply find_some in H. destruct H as [Ha Hk].
  split; [exact Ha | now apply eqb_spec].
Qed.

Lemma find_key_in l a :
  NoDup (map key l) -> In a l -> find (fun x => eqb (key x) (key a)) l = Some a.
Proof.
  intros Hnd Ha.
  destruct (find (fun x => eqb (key x) (key a)) l) as [b|] eqn:E.
  - apply find_key in E. destruct E as [Hb Hk].
    f_equal. now apply (key_injective l).
  - exfalso. pose proof (find_none _ _ E a Ha) as H. cbn in H.
    assert (eqb (key a) (key a) = true) by now apply eqb_spec.
    congruence.
Qed.

Lemma filter_key_single l a :
  NoDup (map key l) -> In a l -> filter (fun x => eqb (key x) (key a)) l = [a].
Proof.
  induction l as [|x l IH]; cbn; intros Hnd Ha; [contradiction|].
  inversion Hnd as [|? ? Hnotin Hnd']; subst.
  destruct Ha as [->|Ha].
  - assert (E : eqb (key a) (key a) = true) by now apply eqb_spec.
    rewrite E. f_equal.
    assert (Hnone : forall y, In y l -> eqb (key y) (key a) = false).
    { intros y Hy. destruct (eqb (key y) (key a)) eqn:Ey; [|reflexivity].
      exfalso. apply Hnotin. apply eqb_spec in Ey. rewrite <- Ey. now apply in_map. }
    clear -Hnone. induction l as [|y l IH]; cbn; [reflexivity|].
    rewrite (Hnone y) by now left. apply IH. intros z Hz. apply Hnone. now right.
  - destruct (eqb (key x) (key a)) eqn:Ex.
    + exfalso. apply Hnotin. apply eqb_spec in Ex. rewrite Ex. now apply in_map.
    + now apply IH.
Qed.

End Keyed.

Lemma Zeqb_spec k k' : (k =? k')%Z = true <-> k = k'.
Proof. apply Z.eqb_eq. Qed.

Lemma Seqb_spec (k k' : string) : (k =? k') = true <-> k = k'.
Proof. apply String.eqb_eq. Qed.

Lemma relKeyEqb_spec k k' : relKeyEqb k k' = true <-> k = k'.
Proof.
  destruct k as [[s p] o], k' as [[s' p'] o']. cbn.
  rewrite !andb_true_iff, !Z.eqb_eq, String.eqb_eq.
  split; [intros [[-> ->] ->]; reflexivity | intros [= -> -> ->]; auto].
Qed.

(** *** The join *)

Lemma entityRow_of_id t id :
  NoDup (map ent_id (entities t)) -> In id (map ent_id (entities t)) ->
  In (entityRow t id) (entities t) /\ ent_id (entityRow t id) = id
  /\ filter (fun e => (ent_id e =? id)%Z) (entities t) = [entityRow t id].
Proof.
  intros Hnd Hin. apply in_map_iff in Hin. destruct Hin as [e [<- He]].
  unfold entityRow.
  rewrite (find_key_in ent_id Z.eqb Zeqb_spec _ e Hnd He).
  repeat split; auto.
  now apply (filter_key_single ent_id Z.eqb Zeqb_spec).
Qed.

Lemma joinRelations_joined t :
  GraphOK t -> joinRelations t = map (joined t) (relations t).
Proof.
  intros [Hids _ _ _ _ _ Hfk]. unfold joinRelations.
  induction Hfk as [|r rels [Hs Ho] _ IH]; cbn [flat_map map]; [reflexivity|].
  rewrite IH. clear IH.
  destruct (entityRow_of_id t _ Hids Hs) as [_ [_ ->]].
  destruct (entityRow_of_id t _ Hids Ho) as [_ [_ ->]].
  reflexivity.
Qed.

Lemma scanRelation_joined t r : scanRelation (joined t r) = relationOf t r.
Proof. reflexivity. Qed.

(** *** ORDER BY only permutes *)

Lemma insertRow_perm {A} (first : A -> A -> bool) x l :
  Permutation (insertRow first x l) (x :: l).
Proof.
  induction l as [|y l IH]; cbn; [reflexivity|].
  destruct (first x y); [reflexivity|].
  rewrite IH. apply perm_swap.
Qed.

Lemma orderBy_perm {A} (first : A -> A -> bool) l :
  Permutation (orderBy first l) l.
Proof.
  induction l as [|x l IH]; cbn; [reflexivity|].
  rewrite insertRow_perm. now constructor.
Qed.


Lemma count_occ_filter_id (q : RelationRow -> bool) l r :
  NoDup (map rel_id l) -> In r l ->
  count_occ Z.eq_dec (map rel_id (filter q l)) (rel_id r) = if q r then 1 else 0.
Proof.
  induction l as [|x l IH]; cbn; intros Hnd Hr; [contradiction|].
  inversion Hnd as [|? ? Hnotin Hnd']; subst.
  assert (Hrest : ~ In (rel_id x) (map rel_id (filter q l))).
  { intros H. apply Hnotin. apply in_map_iff in H. destruct H as [y [Hy Hin]].
    apply filter_In in Hin. rewrite <- Hy. apply in_map. tauto. }
  destruct Hr as [->|Hr].
  - destruct (q r); cbn.
    + destruct (Z.eq_dec (rel_id r) (rel_id r)); [|congruence].
      f_equal. now apply count_occ_not_In.
    + now apply count_occ_not_In.
  - assert (Hne : rel_id x <> rel_id r).
    { intros E. apply Hnotin. rewrite E. now apply in_map. }
    destruct (q x); cbn.
    + destruct (Z.eq_dec (rel_id x) (rel_id r)); [contradiction|]. now apply IH.
    + now apply IH.
Qed.

Lemma QueryEntity_healthy st name :
  healthy st ->
  GraphStore.QueryEntity name st =
  (Ok (map scanRelation
         (orderBy (newestFirst joinedCreatedAt)
            (filter (fun j => let '(_, s, o) := j in
                              (ent_name s =? name) || (ent_name o =? name))
                    (joinRelations (tables st))))), st).
Proof.
  intros Hh. unfold GraphStore.QueryEntity, bind, wrap.
  rewrite Query_healthy by exact Hh. reflexivity.
Qed.

(** C9.  On a healthy connection over tables that satisfy the schema,
    [QueryEntity name] returns, up to order, the relations of which [name]
    is the subject or the object, and the identifier of every such relation
    occurs exactly once in the answer (that of any other relation not at
    all), also when [name] is both subject and object. *)
Theorem queryEntity_exactly_once st name :
  healthy st ->
  GraphOK (tables st) ->
  exists rels,
    GraphStore.QueryEntity name st = (Ok rels, st)
    /\ Permutation rels
         (map (relationOf (tables st))
              (filter (involves (tables st) name) (relations (tables st))))
    /\ forall r, In r (relations (tables st)) ->
         count_occ Z.eq_dec (map Relation_ID rels) (rel_id r)
         = if involves (tables st) name r then 1 else 0.
Proof.
  intros Hh Hok. eexists. split; [apply QueryEntity_healthy; exact Hh|].
  assert (Hperm :
    Permutation
      (map scanRelation
         (orderBy (newestFirst joinedCreatedAt)
            (filter (fun j => let '(_, s, o) := j in
                              (ent_name s =? name) || (ent_name o =? name))
                    (joinRelations (tables st)))))
      (map (relationOf (tables st))
           (filter (involves (tables st) name) (relations (tables st))))).
  { rewrite (Permutation_map scanRelation (orderBy_perm _ _)).
    rewrite (joinRelations_joined _ Hok), filter_map_swap, map_map.
    reflexivity. }
  split; [exact Hperm|].
  intros r Hr.
  assert (Hids : Permutation
            (map Relation_ID
               (map scanRelation
                  (orderBy (newestFirst joinedCreatedAt)
                     (filter (fun j => let '(_, s, o) := j in
                                       (ent_name s =? name) || (ent_name o =? name))
                             (joinRelations (tables st))))))
            (map rel_id (filter (involves (tables st) name) (relations (tables st))))).
  { rewrite (Permutation_map Relation_ID Hperm), map_map. reflexivity. }
  rewrite (proj1 (Permutation_count_occ Z.eq_dec _ _) Hids).
  apply count_occ_filter_id; [apply (rel_ids_unique _ Hok) | exact Hr].
Qed.


(** *** Writes keep the constraints *)

Lemma issued_fresh {A} (id : A -> Z) l seq :
  Forall (fun a => (id a <= seq)%Z) l -> ~ In (seq + 1)%Z (map id l).
Proof.
  intros Hall Hin. apply in_map_iff in Hin. destruct Hin as [a [Ha Hin]].
  rewrite Forall_forall in Hall. specialize (Hall a Hin). lia.
Qed.

Lemma issued_next {A} (id : A -> Z) l seq :
  Forall (fun a => (id a <= seq)%Z) l -> Forall (fun a => (id a <= seq + 1)%Z) l.
Proof. apply Forall_impl. intros a Ha. lia. Qed.

Lemma insertEntityOrIgnore_ok name ty clock t :
  GraphOK t ->
  exists t',
    insertEntityOrIgnore name ty clock t = Ok (tt, t')
    /\ GraphOK t'
    /\ relations t' = relations t
    /\ existsb (fun e => ent_name e =? name) (entities t') = true
    /\ (forall n i, selectEntityID n t = Some i -> selectEntityID n t' = Some i)
    /\ (existsb (fun e => ent_name e =? name) (entities t) = true ->
        entities t' = entities t).
Proof.
  intros [Hids Hnames Hiss Hrids Hkeys Hriss Hfk].
  unfold insertEntityOrIgnore.
  destruct (existsb (fun e => ent_name e =? name) (entities t)) eqn:Hex.
  - eexists. split; [reflexivity|]. cbn [entities relations set_entities].
    split; [|split; [reflexivity|split; [exact Hex|split; [|reflexivity]]]].
    + apply mkGraphOK; cbn [entities relations set_entities entities_seq relations_seq]; auto.
      now apply issued_next.
    + intros n i H. exact H.
  - eexists. split; [reflexivity|]. cbn [entities relations set_entities].
    split; [|split; [reflexivity|split; [|split]]].
    + apply mkGraphOK; cbn [entities relations set_entities entities_seq relations_seq]; auto.
      * apply NoDup_snoc; [exact Hids|]. now apply issued_fresh.
      * apply NoDup_snoc; [exact Hnames|].
        now apply (existsb_key_false ent_name String.eqb Seqb_spec).
      * apply Forall_app. split; [now apply issued_next|].
        constructor; [cbn; lia | constructor].
      * eapply Forall_impl; [|exact Hfk]. cbn. intros r [Hs Ho].
        rewrite map_app. split; apply in_or_app; now left.
    + rewrite existsb_app. cbn. rewrite String.eqb_refl. now rewrite orb_true_r.
    + intros n i. unfold selectEntityID. cbn [entities set_entities].
      rewrite find_app. destruct (find _ (entities t)); [auto | discriminate].
    + discriminate.
Qed.

Lemma EnsureEntity_spec st name ty :
  healthy st ->
  GraphOK (tables st) ->
  exists id st',
    GraphStore.EnsureEntity name ty st = (Ok id, st')
    /\ healthy st'
    /\ GraphOK (tables st')
    /\ selectEntityID name (tables st') = Some id
    /\ relations (tables st') = relations (tables st)
    /\ (forall n i, selectEntityID n (tables st) = Some i ->
                    selectEntityID n (tables st') = Some i)
    /\ (existsb (fun e => ent_name e =? name) (entities (tables st)) = true ->
        entities (tables st') = entities (tables st)).
Proof.
  intros Hh Hok.
  destruct (insertEntityOrIgnore_ok name ty (now st) (tables st) Hok)
    as [t' [Hins [Hok' [Hrel [Hex [Hstable Hsame]]]]]].
  set (st' := mkDB t' (now st) (faults st)).
  assert (Hh' : healthy st') by exact Hh.
  destruct (existsb_key_true ent_name String.eqb Seqb_spec _ _ Hex) as [e [He Hname]].
  assert (Hfind : find (fun x => ent_name x =? name) (entities t') = Some e).
  { rewrite <- Hname.
    apply (find_key_in ent_name String.eqb Seqb_spec);
      [apply (ent_names_unique _ Hok') | exact He]. }
  exists (ent_id e), st'.
  split; [|split; [exact Hh'|split; [exact Hok'|split; [|split; [exact Hrel|split; [exact Hstable|exact Hsame]]]]]].
  - unfold GraphStore.EnsureEntity, bind, wrap.
    rewrite Exec_healthy by exact Hh. rewrite Hins. fold st'.
    rewrite QueryRow_healthy by exact Hh'.
    unfold selectEntityID. cbn [tables st']. rewrite Hfind. reflexivity.
  - unfold selectEntityID. cbn [tables st']. now rewrite Hfind.
Qed.


Lemma insertRelationOrIgnore_ok subID predicate objID metadata clock t :
  GraphOK t ->
  In subID (map ent_id (entities t)) ->
  In objID (map ent_id (entities t)) ->
  exists t',
    insertRelationOrIgnore subID predicate objID metadata clock t = Ok (tt, t')
    /\ GraphOK t'
    /\ entities t' = entities t
    /\ exists r, In r (relations t') /\ relKey r = (subID, predicate, objID).
Proof.
  intros [Hids Hnames Hiss Hrids Hkeys Hriss Hfk] Hs Ho.
  unfold insertRelationOrIgnore.
  change (existsb _ (relations t))
    with (existsb (fun r => relKeyEqb (relKey r) (subID, predicate, objID)) (relations t)).
  destruct (existsb (fun r => relKeyEqb (relKey r) (subID, predicate, objID)) (relations t))
    eqn:Hex.
  - eexists. split; [reflexivity|]. cbn [entities relations set_relations].
    split; [|split; [reflexivity|]].
    + apply mkGraphOK; cbn [entities relations set_relations entities_seq relations_seq]; auto.
      now apply issued_next.
    + apply (existsb_key_true relKey relKeyEqb relKeyEqb_spec). exact Hex.
  - assert (Hes : existsb (fun e => (ent_id e =? subID)%Z) (entities t) = true).
    { apply in_map_iff in Hs. destruct Hs as [e [He Hin]].
      apply existsb_exists. exists e. split; [exact Hin | now apply Z.eqb_eq]. }
    assert (Heo : existsb (fun e => (ent_id e =? objID)%Z) (entities t) = true).
    { apply in_map_iff in Ho. destruct Ho as [e [He Hin]].
      apply existsb_exists. exists e. split; [exact Hin | now apply Z.eqb_eq]. }
    rewrite Hes, Heo. cbn [andb].
    eexists. split; [reflexivity|]. cbn [entities relations set_relations].
    split; [|split; [reflexivity|]].
    + apply mkGraphOK; cbn [entities relations set_relations entities_seq relations_seq]; auto.
      * apply NoDup_snoc; [exact Hrids|]. now apply issued_fresh.
      * apply NoDup_snoc; [exact Hkeys|].
        now apply (existsb_key_false relKey relKeyEqb relKeyEqb_spec).
      * apply Forall_app. split; [now apply issued_next|].
        constructor; [cbn; lia | constructor].
      * apply Forall_app. split; [exact Hfk|].
        constructor; [cbn; auto | constructor].
    + eexists. split; [apply in_or_app; right; left; reflexivity | reflexivity].
Qed.

Lemma selectEntityID_in name t id :
  selectEntityID name t = Some id ->
  exists e, In e (entities t) /\ ent_name e = name /\ ent_id e = id.
Proof.
  unfold selectEntityID.
  destruct (find (fun r => ent_name r =? name) (entities t)) as [e|] eqn:E; [|discriminate].
  intros [= <-]. apply (find_key ent_name String.eqb Seqb_spec) in E.
  exists e. tauto.
Qed.

Lemma name_test_is_id_test t name id x :
  GraphOK t ->
  selectEntityID name t = Some id ->
  In x (map ent_id (entities t)) ->
  (ent_name (entityRow t x) =? name) = (x =? id)%Z.
Proof.
  intros Hok Hsel Hx.
  destruct (selectEntityID_in _ _ _ Hsel) as [e' [He' [Hname' Hid']]].
  destruct (entityRow_of_id t x (ent_ids_unique _ Hok) Hx) as [He [Hid _]].
  destruct (String.eqb_spec (ent_name (entityRow t x)) name) as [En|En];
    destruct (Z.eqb_spec x id) as [Ei|Ei]; auto; exfalso.
  - apply Ei. rewrite <- Hid, <- Hid'. f_equal.
    apply (key_injective ent_name (entities t)); auto.
    + apply (ent_names_unique _ Hok).
    + congruence.
  - apply En. rewrite <- Hname'. f_equal.
    apply (key_injective ent_id (entities t)); auto.
    + apply (ent_ids_unique _ Hok).
    + congruence.
Qed.

Lemma tripleCount_one t subject predicate object subID objID :
  GraphOK t ->
  selectEntityID subject t = Some subID ->
  selectEntityID object t = Some objID ->
  (exists r, In r (relations t) /\ relKey r = (subID, predicate, objID)) ->
  tripleCount t subject predicate object = 1.
Proof.
  intros Hok Hs Ho [r0 [Hr0 Hk0]].
  unfold tripleCount.
  rewrite (joinRelations_joined _ Hok), filter_map_swap, length_map.
  rewrite (filter_ext_in _ (fun r => relKeyEqb (relKey r) (relKey r0))).
  - rewrite (filter_key_single relKey relKeyEqb relKeyEqb_spec);
      [reflexivity | apply (rel_keys_unique _ Hok) | exact Hr0].
  - intros r Hr. rewrite Hk0. unfold joined, relKey, relKeyEqb.
    pose proof (rel_references _ Hok) as Hfk. rewrite Forall_forall in Hfk.
    destruct (Hfk r Hr) as [Hrs Hro].
    rewrite (name_test_is_id_test t subject subID _ Hok Hs Hrs).
    rewrite (name_test_is_id_test t object objID _ Hok Ho Hro).
    reflexivity.
Qed.

Lemma AddRelation_spec st subject predicate object metadata :
  healthy st ->
  GraphOK (tables st) ->
  exists st',
    GraphStore.AddRelation subject predicate object metadata st = (Ok tt, st')
    /\ healthy st'
    /\ GraphOK (tables st')
    /\ tripleCount (tables st') subject predicate object = 1.
Proof.
  intros Hh Hok.
  destruct (EnsureEntity_spec st subject "" Hh Hok)
    as [subID [st1 [E1 [Hh1 [Hok1 [Hs1 [_ [_ _]]]]]]]].
  destruct (EnsureEntity_spec st1 object "" Hh1 Hok1)
    as [objID [st2 [E2 [Hh2 [Hok2 [Ho2 [_ [Hstable _]]]]]]]].
  pose proof (Hstable _ _ Hs1) as Hs2.
  assert (Hins : In subID (map ent_id (entities (tables st2)))).
  { destruct (selectEntityID_in _ _ _ Hs2) as [e [He [_ <-]]]. now apply in_map. }
  assert (Hino : In objID (map ent_id (entities (tables st2)))).
  { destruct (selectEntityID_in _ _ _ Ho2) as [e [He [_ <-]]]. now apply in_map. }
  destruct (insertRelationOrIgnore_ok subID predicate objID metadata (now st2)
              (tables st2) Hok2 Hins Hino) as [t3 [E3 [Hok3 [Hent Hrow]]]].
  exists (mkDB t3 (now st2) (faults st2)).
  split; [|split; [exact Hh2|split; [exact Hok3|]]].
  - unfold GraphStore.AddRelation, bind. rewrite E1, E2.
    unfold wrap. rewrite Exec_healthy by exact Hh2. rewrite E3. reflexivity.
  - cbn [tables].
    apply (tripleCount_one t3 subject predicate object subID objID Hok3); auto.
    + unfold selectEntityID in *. now rewrite Hent.
    + unfold selectEntityID in *. now rewrite Hent.
Qed.

(** C8.  On a healthy connection over tables that satisfy the schema,
    two calls of [EnsureEntity] with one name return the same id whatever
    the types, and two calls of [AddRelation] with one (subject, predicate,
    object) both succeed and leave exactly one relation row for the
    triple. *)
Theorem ensureEntity_and_addRelation_idempotent
    st name type1 type2 subject predicate object metadata1 metadata2 :
  healthy st ->
  GraphOK (tables st) ->
  (exists id st1 st2,
      GraphStore.EnsureEntity name type1 st = (Ok id, st1)
      /\ GraphStore.EnsureEntity name type2 st1 = (Ok id, st2))
  /\ (exists st1 st2,
        GraphStore.AddRelation subject predicate object metadata1 st = (Ok tt, st1)
        /\ GraphStore.AddRelation subject predicate object metadata2 st1 = (Ok tt, st2)
        /\ tripleCount (tables st2) subject predicate object = 1).
Proof.
  intros Hh Hok. split.
  - destruct (EnsureEntity_spec st name type1 Hh Hok)
      as [id [st1 [E1 [Hh1 [Hok1 [Hsel1 _]]]]]].
    destruct (EnsureEntity_spec st1 name type2 Hh1 Hok1)
      as [id2 [st2 [E2 [_ [_ [Hsel2 [_ [Hstable _]]]]]]]].
    exists id, st1, st2. split; [exact E1|].
    rewrite (Hstable _ _ Hsel1) in Hsel2. injection Hsel2 as <-. exact E2.
  - destruct (AddRelation_spec st subject predicate object metadata1 Hh Hok)
      as [st1 [E1 [Hh1 [Hok1 _]]]].
    destruct (AddRelation_spec st1 subject predicate object metadata2 Hh1 Hok1)
      as [st2 [E2 [_ [_ Hcount]]]].
    exists st1, st2. auto.
Qed.

End GraphFacts.

(* ================================================================= *)
(** ** The context assembler *)

Module AssemblyFacts.
Import Engine Memory Context Assembly.

Lemma agree_empty : agree [] [].
Proof. intros id. reflexivity. Qed.

Lemma agree_set seen ids id :
  agree seen ids -> agree (seenSet seen id true) (id :: ids).
Proof.
  intros H x. unfold seenGet, seenSet. cbn [find fst existsb].
  destruct (id =? x)%Z; [reflexivity|]. apply H.
Qed.

Lemma dedupFrom_app ids a b :
  dedupFrom ids (a ++ b)
  = dedupFrom ids a
    ++ dedupFrom (rev (map Relation_ID (dedupFrom ids a)) ++ ids) b.
Proof.
  revert ids. induction a as [|r a IH]; intros ids; cbn [app dedupFrom]; [reflexivity|].
  destruct (existsb (fun id => (id =? Relation_ID r)%Z) ids).
  - apply IH.
  - cbn [app map rev]. rewrite IH. rewrite <- app_assoc. reflexivity.
Qed.

Lemma appendUnseen_spec rels :
  forall seen ids allRelations,
    agree seen ids ->
    exists seen',
      appendUnseen rels seen allRelations = (seen', allRelations ++ dedupFrom ids rels)
      /\ agree seen' (rev (map Relation_ID (dedupFrom ids rels)) ++ ids).
Proof.
  induction rels as [|r rels IH]; intros seen ids allRelations Hag; cbn [appendUnseen dedupFrom].
  - exists seen. rewrite app_nil_r. auto.
  - rewrite (Hag (Relation_ID r)).
    destruct (existsb (fun x => (x =? Relation_ID r)%Z) ids); cbn [negb].
    + apply IH. exact Hag.
    + destruct (IH _ _ (allRelations ++ [r]) (agree_set _ _ (Relation_ID r) Hag))
        as [seen' [E Hag']].
      exists seen'. split.
      * rewrite E, <- app_assoc. reflexivity.
      * cbn [map rev]. rewrite <- app_assoc. exact Hag'.
Qed.

Lemma scanEntities_spec entities :
  forall seen ids allRelations st,
    agree seen ids ->
    scanEntities entities seen allRelations st
    = (Ok (allRelations ++ dedupFrom ids (succeeded (fst (queryAll entities st)))),
       snd (queryAll entities st)).
Proof.
  induction entities as [|e entities IH]; intros seen ids allRelations st Hag;
    cbn [scanEntities queryAll].
  - cbn. now rewrite app_nil_r.
  - unfold bind, try.
    destruct (GraphStore.QueryEntity (Entity_Name e) st) as [[rels|err] st1].
    + destruct (appendUnseen_spec rels seen ids allRelations Hag) as [seen' [E Hag']].
      rewrite E. rewrite (IH _ _ _ st1 Hag').
      destruct (queryAll entities st1) as [qs st2]. cbn [fst snd].
      unfold succeeded. cbn [flat_map]. fold (succeeded qs).
      rewrite dedupFrom_app, app_assoc. reflexivity.
    + rewrite (IH _ _ _ st1 Hag).
      destruct (queryAll entities st1) as [qs st2]. reflexivity.
Qed.

(** C1, as the code has it: the assembly fails, naming the store, when
    listing the core blocks, the level-0 summaries or the entities fails; a
    failed [QueryEntity] is skipped, and the payload carries the relations
    of the entities whose query succeeded, de-duplicated by identifier. *)
Theorem Build_propagates_listing_failures_only st :
  Build st = assemble st.
Proof.
  unfold Build, assemble, bind, wrap.
  destruct (BlockStore.List "core" st) as [[coreBlocks|e] st1]; [|reflexivity].
  destruct (SummaryStore.List 0 5 st1) as [[recentSummaries|e] st2]; [|reflexivity].
  destruct (GraphStore.ListEntities "" st2) as [[entities|e] st3]; [|reflexivity].
  rewrite (scanEntities_spec entities [] [] [] st3 agree_empty).
  destruct (queryAll entities st3) as [qs st4]. reflexivity.
Qed.

End AssemblyFacts.

(* ================================================================= *)
(** ** The apply phase of the extraction pipeline *)

Module ApplyFacts.
Import Engine Memory Embeddings Ingest Schema Plan StoreFacts.

(** *** Sequencing *)

Lemma forEach_app {A} (xs ys : list A) (body : A -> M unit) st :
  forEach (xs ++ ys) body st = (forEach xs body ;;; forEach ys body) st.
Proof.
  revert st. induction xs as [|x xs IH]; intros st; cbn [app forEach].
  - reflexivity.
  - unfold bind. destruct (body x st) as [[[]|e] st1]; [|reflexivity].
    rewrite IH. reflexivity.
Qed.

Lemma forEach_map {A B} (f : A -> B) (xs : list A) (body : B -> M unit) st :
  forEach (map f xs) body st = forEach xs (fun x => body (f x)) st.
Proof.
  revert st. induction xs as [|x xs IH]; intros st; cbn [map forEach]; [reflexivity|].
  unfold bind. destruct (body (f x) st) as [[[]|e] st1]; [apply IH | reflexivity].
Qed.


Lemma applyResult_follows_plan {P} `{Embeddings.Provider P} (cfg : Config P) result st :
  applyResult cfg result st
  = (forEach (writePlan result) (doWrite cfg) ;;; ret result) st.
Proof.
  unfold applyResult, writePlan, bind.
  rewrite forEach_app. unfold bind.
  rewrite forEach_map. change (fun x => doWrite cfg (WBlock x)) with applyBlockUpdate.
  destruct (forEach (BlockUpdates result) applyBlockUpdate st) as [[[]|e] st1]; [|reflexivity].
  rewrite forEach_app. unfold bind.
  rewrite forEach_map. change (fun x => doWrite cfg (WFact x)) with (storeFact cfg).
  destruct (forEach (Facts result) (storeFact cfg) st1) as [[[]|e] st2]; [|reflexivity].
  rewrite forEach_app. unfold bind.
  rewrite forEach_map. change (fun x => doWrite cfg (WTriplet x)) with storeTriplet.
  destruct (forEach (Triplets result) storeTriplet st2) as [[[]|e] st3]; [|reflexivity].
  unfold storeSummary.
  destruct (Summary result =? ""); [reflexivity|].
  cbn [forEach doWrite]. unfold bind, wrap, ret.
  destruct (SummaryStore.Add 0 (Summary result) "" st3) as [[s|e] st4]; reflexivity.
Qed.

(** *** What a write leaves in place *)

Section Steps.
Context (R : Tables -> Tables -> Prop) `{Cumulative R}.

Lemma steps_ret {A} (a : A) : steps R (ret a).
Proof. intros st r st' [= _ <-]. apply cumulative_refl. Qed.

Lemma steps_fail {A} e : steps R (@fail A e).
Proof. intros st r st' [= _ <-]. apply cumulative_refl. Qed.

Lemma steps_bind {A B} (m : M A) (k : A -> M B) :
  steps R m -> (forall a, steps R (k a)) -> steps R (bind m k).
Proof.
  intros Hm Hk st r st'. unfold bind.
  destruct (m st) as [[a|e] st1] eqn:E.
  - intros Hka. eapply cumulative_trans; [eapply Hm; eauto | eapply Hk; eauto].
  - intros [= _ <-]. eapply Hm; eauto.
Qed.

Lemma steps_try {A} (m : M A) : steps R m -> steps R (try m).
Proof.
  intros Hm st r st'. unfold try. destruct (m st) as [q st1] eqn:E.
  intros [= _ <-]. eapply Hm; eauto.
Qed.

Lemma steps_wrap {A} format args (m : M A) : steps R m -> steps R (wrap format args m).
Proof.
  intros Hm st r st'. unfold wrap. destruct (m st) as [[a|e] st1] eqn:E;
    intros [= _ <-]; eapply Hm; eauto.
Qed.

Lemma next_fault_tables st : tables (snd (next_fault st)) = tables st.
Proof. unfold next_fault. destruct (faults st); reflexivity. Qed.

Lemma steps_Exec {A} (stmt : Z -> Tables -> Result (A * Tables)) :
  (forall clock t a t', stmt clock t = Ok (a, t') -> R t t') -> steps R (Exec stmt).
Proof.
  intros Hstmt st r st'. unfold Exec.
  pose proof (next_fault_tables st) as Ht.
  destruct (next_fault st) as [f st1]. cbn [snd] in Ht.
  destruct f.
  - destruct (stmt (now st1) (tables st1)) as [[a t']|e] eqn:E; intros [= _ <-]; cbn [tables].
    + rewrite <- Ht. eapply Hstmt; eauto.
    + rewrite Ht. apply cumulative_refl.
  - intros [= _ <-]. rewrite Ht. apply cumulative_refl.
  - intros [= _ <-]. rewrite Ht. apply cumulative_refl.
Qed.

Lemma steps_QueryRow {A} (sel : Tables -> option A) : steps R (QueryRow sel).
Proof.
  intros st r st'. unfold QueryRow.
  pose proof (next_fault_tables st) as Ht.
  destruct (next_fault st) as [f st1]. cbn [snd] in Ht.
  destruct f; [destruct (sel (tables st1))| |]; intros [= _ <-];
    rewrite Ht; apply cumulative_refl.
Qed.

End Steps.

#[local] Instance kept_cumulative (w : Write) : Cumulative (kept w).
Proof.
  split.
  - intros t. unfold kept. repeat split; try apply incl_refl. auto.
  - intros t1 t2 t3 (A1 & E1 & R1 & S1 & L1 & B1) (A2 & E2 & R2 & S2 & L2 & B2).
    unfold kept. repeat split; try (eapply incl_tran; eauto).
    intros b Hb Hw. auto.
Qed.









Ltac walk :=
  repeat (intros;
          first [ match goal with |- Cumulative _ => exact _ end
                | apply steps_ret | apply steps_fail | apply steps_QueryRow
                | apply steps_try | apply steps_wrap | apply steps_bind
                | apply steps_Exec ]).


(** *** The schema is an invariant of the pipeline *)

Lemma steps_forEach {A} (R : Tables -> Tables -> Prop) `{Cumulative R}
    (xs : list A) (body : A -> M unit) :
  (forall x, steps R (body x)) -> steps R (forEach xs body).
Proof.
  intros Hbody. induction xs as [|x xs IH]; cbn [forEach].
  - now apply steps_ret.
  - apply steps_bind; auto.
Qed.

#[local] Instance preserving_cumulative : Cumulative preserving.
Proof. split; unfold preserving; auto. Qed.

Lemma GraphOK_same_graph t t' :
  entities t' = entities t -> entities_seq t' = entities_seq t ->
  relations t' = relations t -> relations_seq t' = relations_seq t ->
  GraphOK t -> GraphOK t'.
Proof.
  intros E Es R Rs [H1 H2 H3 H4 H5 H6 H7].
  apply mkGraphOK; rewrite ?E, ?Es, ?R, ?Rs; assumption.
Qed.

Lemma insertRelationOrIgnore_preserves s p o m clock t a t' :
  insertRelationOrIgnore s p o m clock t = Ok (a, t') -> GraphOK t -> GraphOK t'.
Proof.
  intros Hstmt Hok.
  assert (Hcases :
    existsb (fun r => relKeyEqb (relKey r) (s, p, o)) (relations t) = true
    \/ (In s (map ent_id (entities t)) /\ In o (map ent_id (entities t)))).
  { revert Hstmt. unfold insertRelationOrIgnore.
    change (existsb _ (relations t))
      with (existsb (fun r => relKeyEqb (relKey r) (s, p, o)) (relations t)).
    destruct (existsb (fun r => relKeyEqb (relKey r) (s, p, o)) (relations t));
      [now left|].
    destruct (existsb (fun e => (ent_id e =? s)%Z) (entities t)) eqn:Es;
      destruct (existsb (fun e => (ent_id e =? o)%Z) (entities t)) eqn:Eo;
      cbn [andb]; try discriminate.
    intros _. right.
    destruct (GraphFacts.existsb_key_true ent_id Z.eqb GraphFacts.Zeqb_spec _ _ Es)
      as [x [Hx <-]].
    destruct (GraphFacts.existsb_key_true ent_id Z.eqb GraphFacts.Zeqb_spec _ _ Eo)
      as [y [Hy <-]].
    split; now apply in_map. }
  destruct Hcases as [Hex|[Hs Ho]].
  - revert Hstmt. unfold insertRelationOrIgnore.
    change (existsb _ (relations t))
      with (existsb (fun r => relKeyEqb (relKey r) (s, p, o)) (relations t)).
    rewrite Hex. intros [= _ <-].
    destruct Hok as [H1 H2 H3 H4 H5 H6 H7].
    apply mkGraphOK; cbn [entities relations set_relations entities_seq relations_seq]; auto.
    now apply GraphFacts.issued_next.
  - destruct (GraphFacts.insertRelationOrIgnore_ok s p o m clock t Hok Hs Ho)
      as [t0 [E [Hok0 _]]].
    rewrite E in Hstmt. now injection Hstmt as _ <-.
Qed.

Lemma doWrite_preserves_schema {P} `{Embeddings.Provider P} (cfg : Config P) w :
  steps preserving (doWrite cfg w).
Proof.
  assert (Hblock : forall label ty content clock t a t',
            insertBlock label ty content clock t = Ok (a, t') -> preserving t t').
  { unfold insertBlock. intros label ty content clock t a t'.
    destruct (existsb _ _); [discriminate|]. intros [= _ <-] [Hg Ha].
    split; [revert Hg; apply GraphOK_same_graph; reflexivity | exact Ha]. }
  assert (Hupdate : forall label content clock t a t',
            updateBlock label content clock t = Ok (a, t') -> preserving t t').
  { unfold updateBlock. intros label content clock t a t' [= _ <-] [Hg Ha].
    split; [revert Hg; apply GraphOK_same_graph; reflexivity | exact Ha]. }
  assert (Harchival : forall content tags emb clock t a t',
            insertArchival content tags emb clock t = Ok (a, t') -> preserving t t').
  { unfold insertArchival. intros content tags emb clock t a t' [= _ <-] [Hg Ha].
    split; [revert Hg; apply GraphOK_same_graph; reflexivity|].
    unfold ArchivalOK in *. cbn [archival archival_seq set_archival].
    apply Forall_app. split; [now apply GraphFacts.issued_next|].
    constructor; [cbn; lia | constructor]. }
  assert (Hentity : forall name ty clock t a t',
            insertEntityOrIgnore name ty clock t = Ok (a, t') -> preserving t t').
  { intros name ty clock t a t' Hstmt [Hg Ha].
    destruct (GraphFacts.insertEntityOrIgnore_ok name ty clock t Hg) as [t0 [E [Hg0 _]]].
    rewrite E in Hstmt. injection Hstmt as _ <-. split; [exact Hg0|].
    revert E. unfold insertEntityOrIgnore. destruct (existsb _ _); intros [= <-]; exact Ha. }
  assert (Hrelation : forall s p o m clock t a t',
            insertRelationOrIgnore s p o m clock t = Ok (a, t') -> preserving t t').
  { intros s p o m clock t a t' Hstmt [Hg Ha].
    split; [eapply insertRelationOrIgnore_preserves; eauto|].
    revert Hstmt. unfold insertRelationOrIgnore.
    repeat match goal with |- context [if ?c then _ else _] => destruct c end;
      try discriminate; intros [= _ <-]; exact Ha. }
  assert (Hsummary : forall level content src clock t a t',
            insertSummary level content src clock t = Ok (a, t') -> preserving t t').
  { unfold insertSummary. intros level content src clock t a t' [= _ <-] [Hg Ha].
    split; [revert Hg; apply GraphOK_same_graph; reflexivity | exact Ha]. }
  destruct w as [bu|f|t|s]; cbn [doWrite].
  - unfold applyBlockUpdate. apply steps_bind; [walk|walk|].
    intros [existing|e].
    + unfold BlockStore.Update, BlockStore.GetByLabel. walk. eauto.
    + unfold BlockStore.Create, BlockStore.GetByID. walk. eauto.
  - unfold storeFact, ArchivalStore.Add, ArchivalStore.GetByID. walk. eauto.
  - unfold storeTriplet, GraphStore.AddRelation, GraphStore.EnsureEntity.
    walk; eauto.
  - unfold SummaryStore.Add, SummaryStore.GetByID. walk. eauto.
Qed.

(** The schema constraints hold of the empty store and of every store the
    apply phase leaves behind, whether it succeeds or fails. *)
Lemma applyResult_preserves_schema {P} `{Embeddings.Provider P}
    (cfg : Config P) result st :
  SchemaOK (tables st) -> SchemaOK (tables (snd (applyResult cfg result st))).
Proof.
  intros Hok.
  rewrite applyResult_follows_plan.
  assert (Hsteps : steps preserving
                     (forEach (writePlan result) (doWrite cfg) ;;; ret result)).
  { apply steps_bind; [walk| |walk].
    apply steps_forEach; [walk|]. intros w. apply doWrite_preserves_schema. }
  destruct ((forEach (writePlan result) (doWrite cfg) ;;; ret result) st) as [r st'] eqn:E.
  exact (Hsteps st r st' E Hok).
Qed.

Lemma emptyTables_schema_ok : SchemaOK emptyTables.
Proof. split; [apply mkGraphOK; cbn; constructor | constructor]. Qed.


(** *** Embedding is best effort *)

Lemma embedFact_without {P} `{Embeddings.Provider P} (cfg : Config P) f :
  embedFact (withoutEmbedder cfg) f = None.
Proof. reflexivity. Qed.

Lemma forEach_ext_in {A} (xs : list A) (body body' : A -> M unit) st :
  (forall x s, In x xs -> body x s = body' x s) ->
  forEach xs body st = forEach xs body' st.
Proof.
  revert st. induction xs as [|x xs IH]; intros st Hext; cbn [forEach]; [reflexivity|].
  unfold bind. rewrite (Hext x st (or_introl eq_refl)).
  destruct (body' x st) as [[[]|e] st1]; [|reflexivity].
  apply IH. intros y s Hy. apply Hext. now right.
Qed.

Lemma Add_healthy st content tags embedding :
  healthy st ->
  exists entry,
    ArchivalStore.Add content tags embedding st
    = (Ok entry,
       mkDB (set_archival
               (archival (tables st)
                ++ [mkArchivalRow (archival_seq (tables st) + 1) content
                                  (GoStrings.Join tags ",") embedding (now st)])
               (archival_seq (tables st) + 1) (tables st))
            (now st) (faults st)).
Proof.
  intros Hh.
  unfold ArchivalStore.Add, bind, wrap. rewrite Exec_healthy by exact Hh.
  unfold insertArchival.
  unfold ArchivalStore.GetByID, wrap. rewrite QueryRow_healthy by exact Hh.
  unfold selectArchivalByID. cbn [tables archival set_archival].
  rewrite find_app.
  destruct (find (fun r => (arc_id r =? archival_seq (tables st) + 1)%Z) (archival (tables st)))
    as [r|].
  - eexists. reflexivity.
  - cbn [find arc_id]. rewrite Z.eqb_refl. eexists. reflexivity.
Qed.

(** C4.  When [Embed] fails for a fact, the fact goes to the archival store
    as it would without any embedding provider: [Add] is called with no
    vector, and on a healthy connection the row is stored with a NULL
    embedding.  A pipeline all of whose embeddings fail runs as the pipeline
    without provider does. *)
Theorem embedding_failure_never_blocks_fact
    {P} `{Embeddings.Provider P} (cfg : Config P) (prov : P)
    (result : ExtractionResult) (f : Fact) (st : DB) :
  EmbedProv cfg = Some prov ->
  In f (Facts result) ->
  (forall f', In f' (Facts result) -> exists e, Embed prov (Fact_Content f') = Error e) ->
  storeFact cfg f st
  = (wrap "add fact: %w" []
       (ArchivalStore.Add (Fact_Content f) (Fact_Tags f) None) ;;; ret tt) st
  /\ (healthy st ->
      exists st',
        storeFact cfg f st = (Ok tt, st')
        /\ archival (tables st')
           = archival (tables st)
             ++ [mkArchivalRow (archival_seq (tables st) + 1) (Fact_Content f)
                               (String.concat "," (Fact_Tags f)) None (now st)])
  /\ applyResult cfg result st = applyResult (withoutEmbedder cfg) result st.
Proof.
  intros Hprov Hin Hfail.
  assert (Hemb : forall f', In f' (Facts result) -> embedFact cfg f' = None).
  { intros f' Hf'. unfold embedFact. rewrite Hprov.
    destruct (Hfail f' Hf') as [e ->]. reflexivity. }
  assert (Hstore : forall f' s, In f' (Facts result) ->
            storeFact cfg f' s
            = (wrap "add fact: %w" []
                 (ArchivalStore.Add (Fact_Content f') (Fact_Tags f') None) ;;; ret tt) s).
  { intros f' s Hf'. unfold storeFact. now rewrite (Hemb f' Hf'). }
  split; [now apply Hstore|]. split.
  - intros Hh. rewrite (Hstore f st Hin). unfold bind, wrap.
    destruct (Add_healthy st (Fact_Content f) (Fact_Tags f) None Hh) as [entry ->].
    eexists. split; [reflexivity|].
    cbn [tables archival set_archival]. now rewrite Join_concat.
  - unfold applyResult, bind.
    destruct (forEach (BlockUpdates result) applyBlockUpdate st) as [[[]|e] st1]; [|reflexivity].
    rewrite (forEach_ext_in (Facts result) (storeFact cfg) (storeFact (withoutEmbedder cfg))).
    + reflexivity.
    + intros f' s Hf'. rewrite (Hstore f' s Hf'). reflexivity.
Qed.

End ApplyFacts.

(* ================================================================= *)
(** ** The claude backend and the fence *)

Module FenceFacts.
Import Engine Ingest Plan StringFacts.




End FenceFacts.

(* ================================================================= *)
(** ** The properties at concrete inputs *)

Module Checks.
Import Engine Memory Context Embeddings Ingest Schema Assembly Plan Examples.

Lemma emptyTables_graph_ok : GraphOK emptyTables.
Proof. apply mkGraphOK; cbn; constructor. Qed.

Lemma graphTables_ok : GraphOK graphTables.
Proof.
  apply mkGraphOK; cbn;
    repeat first [ apply NoDup_cons | apply NoDup_nil | apply Forall_cons | apply Forall_nil ];
    cbn; try lia; try tauto;
    try (intros H; repeat destruct H as [H|H]; try discriminate H; try contradiction).
Qed.

(** C1 fails as stated: both entity queries are refused, and [Build] still
    returns a payload, from which the two relations of the store are
    missing. *)
Lemma Build_returns_payload_after_refused_queries :
  fst (GraphStore.QueryEntity "A" (mkDB graphTables 20 [FailStmt; FailStmt]))
  = Error (Wrapf "query entity: %w" [] ErrEngine)
  /\ fst (Build graphDBRefusingQueries) = Ok (mkPayload [] [] [])
  /\ fst (Build graphDB)
     = Ok (mkPayload [] [] [mkRelation 2 "A" "q" "A" "" 11; mkRelation 1 "A" "p" "B" "" 10]).
Proof. repeat split; vm_compute; reflexivity. Qed.




(** The block written before the refused INSERT is still in the store. *)
Example block_survives_refused_fact :
  memory_blocks (tables (snd (applyResult claudeConfig sampleResult refusingFourthCall)))
  = [mkBlockRow 1 "human" "core" "X" 7 7].
Proof. vm_compute. reflexivity. Qed.

Lemma embedding_failure_never_blocks_fact_witness :
  storeFact brokenEmbedderConfig (mkFact "Y" ["t"]) emptyDB
  = (wrap "add fact: %w" [] (ArchivalStore.Add "Y" ["t"] None) ;;; ret tt) emptyDB
  /\ (exists st',
        storeFact brokenEmbedderConfig (mkFact "Y" ["t"]) emptyDB = (Ok tt, st')
        /\ archival (tables st') = [mkArchivalRow 1 "Y" "t" None 0])
  /\ applyResult brokenEmbedderConfig sampleResult emptyDB
     = applyResult (withoutEmbedder brokenEmbedderConfig) sampleResult emptyDB.
Proof.
  destruct (ApplyFacts.embedding_failure_never_blocks_fact
              brokenEmbedderConfig brokenEmbedder sampleResult (mkFact "Y" ["t"]) emptyDB)
    as [Hcall [Hstored Hsame]].
  - reflexivity.
  - left. reflexivity.
  - intros f' [<-|[]]. eexists. reflexivity.
  - split; [exact Hcall|]. split; [|exact Hsame].
    apply Hstored. reflexivity.
Defined.

Lemma create_getByLabel_roundtrip_witness :
  exists b st1 b',
    BlockStore.Create "human" "core" "Stuart Kennedy" emptyDB = (Ok b, st1)
    /\ BlockStore.GetByLabel "human" st1 = (Ok b', st1)
    /\ Block_Label b' = "human"
    /\ Block_Content b' = "Stuart Kennedy"
    /\ forall blockType2 content2, exists e,
         BlockStore.Create "human" blockType2 content2 st1 = (Error e, st1)
         /\ isConflict e = true.
Proof.
  apply (StoreFacts.create_getByLabel_roundtrip emptyDB "human" "core" "Stuart Kennedy").
  - reflexivity.
  - reflexivity.
Defined.

Lemma update_missing_not_found_delete_missing_ok_witness :
  (exists e, BlockStore.Update "nope" "content" emptyDB = (Error e, emptyDB)
             /\ isNotFound e = true)
  /\ BlockStore.Delete "nope" emptyDB = (Ok tt, emptyDB).
Proof.
  apply (StoreFacts.update_missing_not_found_delete_missing_ok emptyDB "nope" "content").
  - reflexivity.
  - reflexivity.
Defined.

Lemma add_stores_comma_joined_tags_witness :
  exists e st',
    ArchivalStore.Add "Go is great for CLIs" ["tech"; "opinion"] None emptyDB = (Ok e, st')
    /\ Entry_Tags e = "tech,opinion"
    /\ archival (tables st')
       = [mkArchivalRow (Entry_ID e) "Go is great for CLIs" "tech,opinion" None 0]
    /\ String.concat "," [] = "".
Proof.
  apply (StoreFacts.add_stores_comma_joined_tags
           emptyDB "Go is great for CLIs" ["tech"; "opinion"] None).
  - reflexivity.
  - constructor.
Defined.

Lemma ensureEntity_and_addRelation_idempotent_witness :
  (exists id st1 st2,
      GraphStore.EnsureEntity "Stuart" "person" emptyDB = (Ok id, st1)
      /\ GraphStore.EnsureEntity "Stuart" "project" st1 = (Ok id, st2))
  /\ (exists st1 st2,
        GraphStore.AddRelation "A" "knows" "B" "" emptyDB = (Ok tt, st1)
        /\ GraphStore.AddRelation "A" "knows" "B" "again" st1 = (Ok tt, st2)
        /\ tripleCount (tables st2) "A" "knows" "B" = 1).
Proof.
  apply (GraphFacts.ensureEntity_and_addRelation_idempotent
           emptyDB "Stuart" "person" "project" "A" "knows" "B" "" "again").
  - reflexivity.
  - exact emptyTables_graph_ok.
Defined.

Lemma queryEntity_exactly_once_witness :
  exists rels,
    GraphStore.QueryEntity "A" graphDB = (Ok rels, graphDB)
    /\ Permutation rels
         (map (relationOf graphTables) (filter (involves graphTables "A") (relations graphTables)))
    /\ forall r, In r (relations graphTables) ->
         count_occ Z.eq_dec (map Relation_ID rels) (rel_id r)
         = if involves graphTables "A" r then 1 else 0.
Proof.
  apply (GraphFacts.queryEntity_exactly_once graphDB "A").
  - reflexivity.
  - exact graphTables_ok.
Defined.

(** The relation of "A" with itself is reported once; "B" gets the one
    relation it is the object of. *)
Example queryEntity_self_relation_once :
  fst (GraphStore.QueryEntity "A" graphDB)
  = Ok [mkRelation 2 "A" "q" "A" "" 11; mkRelation 1 "A" "p" "B" "" 10]
  /\ fst (GraphStore.QueryEntity "B" graphDB) = Ok [mkRelation 1 "A" "p" "B" "" 10].
Proof. split; vm_compute; reflexivity. Qed.

(** The stored embedding of row 2 is left out by [Search] and [List] and
    handed out by [GetByID] and [AllWithEmbeddings]. *)
Example embedding_left_out_of_listings :
  fst (ArchivalStore.List likeAll "" 50 archiveDB)
  = Ok [mkArchivalEntry 2 "has embedding" "a,b" None 6;
        mkArchivalEntry 1 "no embedding" "" None 5]
  /\ fst (ArchivalStore.Search matchAll "embedding" 10 archiveDB)
     = Ok [mkArchivalEntry 1 "no embedding" "" None 5;
           mkArchivalEntry 2 "has embedding" "a,b" None 6]
  /\ fst (ArchivalStore.GetByID 2 archiveDB)
     = Ok (mkArchivalEntry 2 "has embedding" "a,b" (Some [1; 2; 3; 4]%Z) 6)
  /\ fst (ArchivalStore.AllWithEmbeddings archiveDB)
     = Ok [mkArchivalEntry 2 "has embedding" "a,b" (Some [1; 2; 3; 4]%Z) 6].
Proof. repeat split; vm_compute; reflexivity. Qed.

(** The end-to-end example of the specification, on an empty store. *)
Example sampleResult_applied_to_empty_store :
  let st := snd (applyResult claudeConfig sampleResult emptyDB) in
  fst (applyResult claudeConfig sampleResult emptyDB) = Ok sampleResult
  /\ memory_blocks (tables st) = [mkBlockRow 1 "human" "core" "X" 0 0]
  /\ archival (tables st) = [mkArchivalRow 1 "Y" "t" None 0]
  /\ entities (tables st) = [mkEntityRow 1 "A" "" 0; mkEntityRow 2 "B" "" 0]
  /\ map relKey (relations (tables st)) = [(1, "p", 2)%Z]
  /\ conversation_summaries (tables st) = [mkSummaryRow 1 0 "S" "" 0].
Proof. repeat split; vm_compute; reflexivity. Qed.

End Checks.

(* ================================================================= *)
(** ** ORDER BY sorts, LIMIT bounds *)

Module OrderFacts.
Import Engine.

Lemma ascii_compare_N a b :
  Ascii.compare a b = N.compare (N_of_ascii a) (N_of_ascii b).
Proof. reflexivity. Qed.

Lemma string_compare_trans c :
  forall x y z, String.compare x y = c -> String.compare y z = c -> String.compare x z = c.
Proof.
  induction x as [|a x IH]; intros [|b y] [|d z]; cbn; try congruence.
  rewrite !ascii_compare_N. intros H1 H2.
  destruct (N.compare_spec (N_of_ascii a) (N_of_ascii b));
    destruct (N.compare_spec (N_of_ascii b) (N_of_ascii d));
    destruct (N.compare_spec (N_of_ascii a) (N_of_ascii d));
    try lia; try congruence; eapply IH; eauto.
Qed.

Lemma string_leb_trans x y z :
  String.leb x y = true -> String.leb y z = true -> String.leb x z = true.
Proof.
  unfold String.leb.
  destruct (String.compare x y) eqn:E1; try discriminate; intros _.
  - apply String.compare_eq_iff in E1. subst. auto.
  - destruct (String.compare y z) eqn:E2; try discriminate; intros _.
    + apply String.compare_eq_iff in E2. subst. now rewrite E1.
    + now rewrite (string_compare_trans Lt x y z E1 E2).
Qed.

Section Sorting.
Context {A : Type} (first : A -> A -> bool).
Hypothesis first_total : forall x y, first x y = true \/ first y x = true.
Hypothesis first_trans :
  forall x y z, first x y = true -> first y z = true -> first x z = true.

Lemma insertRow_sorted x l :
  StronglySorted (fun a b => first a b = true) l ->
  StronglySorted (fun a b => first a b = true) (insertRow first x l).
Proof.
  induction 1 as [|y l Hl IH Hy]; cbn [insertRow].
  - constructor; constructor.
  - destruct (first x y) eqn:E.
    + constructor; [constructor; assumption|].
      constructor; [exact E|].
      eapply Forall_impl; [|exact Hy]. intros b Hb. eapply first_trans; eauto.
    + constructor; [exact IH|].
      assert (Hyx : first y x = true) by (destruct (first_total x y); congruence).
      rewrite Forall_forall. intros b Hb.
      apply (Permutation_in _ (GraphFacts.insertRow_perm first x l)) in Hb.
      destruct Hb as [<-|Hb]; [exact Hyx|].
      rewrite Forall_forall in Hy. now apply Hy.
Qed.

Lemma orderBy_sorted l :
  StronglySorted (fun a b => first a b = true) (orderBy first l).
Proof.
  induction l as [|x l IH]; cbn; [constructor|]. now apply insertRow_sorted.
Qed.

End Sorting.

Lemma sorted_firstn {A} (R : A -> A -> Prop) n l :
  StronglySorted R l -> StronglySorted R (firstn n l).
Proof.
  intros H. revert n. induction H as [|x l Hl IH Hx]; intros [|n]; cbn; try constructor.
  - apply IH.
  - rewrite Forall_forall in *. intros y Hy. apply Hx.
    eapply (In_nth_error) in Hy. destruct Hy as [i Hi].
    clear -Hi. revert n i Hi. induction l as [|a l IH]; intros [|n] [|i]; cbn; try discriminate.
    + intros [= ->]. now left.
    + intros Hi. right. eapply IH; eauto.
Qed.

Lemma sorted_limitTo {A} (R : A -> A -> Prop) n l :
  StronglySorted R l -> StronglySorted R (limitTo n l).
Proof.
  intros H. unfold limitTo. destruct (n <? 0)%Z; [exact H | now apply sorted_firstn].
Qed.

Lemma sorted_map {A B} (R : A -> A -> Prop) (S : B -> B -> Prop) (f : A -> B) l :
  (forall x y, R x y -> S (f x) (f y)) ->
  StronglySorted R l -> StronglySorted S (map f l).
Proof.
  intros HRS. induction 1 as [|x l Hl IH Hx]; cbn; constructor; auto.
  rewrite Forall_forall in *. intros y Hy. apply in_map_iff in Hy.
  destruct Hy as [a [<- Ha]]. auto.
Qed.

Lemma limitTo_length {A} n (l : list A) :
  (0 <= n)%Z -> List.length (limitTo n l) <= Z.to_nat n.
Proof.
  intros Hn. unfold limitTo. destruct (Z.ltb_spec n 0); [lia|].
  rewrite length_firstn. lia.
Qed.

Lemma limitTo_incl {A} n (l : list A) : incl (limitTo n l) l.
Proof.
  unfold limitTo. destruct (n <? 0)%Z; [apply incl_refl|].
  intros x Hx. rewrite <- (firstn_skipn (Z.to_nat n) l). apply in_or_app. now left.
Qed.

Lemma limitTo_all {A} n (l : list A) :
  List.length l <= Z.to_nat n -> limitTo n l = l.
Proof.
  intros H. unfold limitTo. destruct (n <? 0)%Z; [reflexivity|]. now apply firstn_all2.
Qed.

End OrderFacts.

(* ================================================================= *)
(** ** The block store, operation by operation *)

Module BlockFacts.
Import Engine Memory Schema Constraints StoreFacts OrderFacts.

Lemma find_above {A} (id : A -> Z) rows seq x :
  Forall (fun r => (id r <= seq)%Z) rows -> (seq < x)%Z ->
  find (fun r => (id r =? x)%Z) rows = None.
Proof.
  intros Hall Hlt. induction Hall as [|r rows Hr _ IH]; cbn; [reflexivity|].
  destruct (Z.eqb_spec (id r) x); [lia | exact IH].
Qed.

Lemma find_map_same {A} (p : A -> bool) (f : A -> A) l :
  (forall a, p (f a) = p a) -> find p (map f l) = option_map f (find p l).
Proof.
  intros Hp. induction l as [|a l IH]; cbn; [reflexivity|].
  rewrite Hp. destruct (p a); [reflexivity | exact IH].
Qed.

Lemma find_filter_out {A} (p q : A -> bool) l :
  (forall a, p a = true -> q a = true) -> find p (filter q l) = find p l.
Proof.
  intros Hpq. induction l as [|a l IH]; cbn; [reflexivity|].
  destruct (q a) eqn:Eq; cbn.
  - destruct (p a); [reflexivity | exact IH].
  - destruct (p a) eqn:Ep; [|exact IH]. rewrite (Hpq a Ep) in Eq. discriminate.
Qed.

Lemma find_filter_none {A} (p q : A -> bool) l :
  (forall a, p a = true -> q a = false) -> find p (filter q l) = None.
Proof.
  intros Hpq. induction l as [|a l IH]; cbn; [reflexivity|].
  destruct (q a) eqn:Eq; cbn; [|exact IH].
  destruct (p a) eqn:Ep; [|exact IH]. rewrite (Hpq a Ep) in Eq. discriminate.
Qed.

Lemma filter_true {A} (l : list A) : filter (fun _ => true) l = l.
Proof. induction l as [|a l IH]; cbn; [reflexivity | now rewrite IH]. Qed.

Lemma selectBlocks_ofType blockType t :
  selectBlocks blockType t
  = Ok (orderBy (fun x y => String.leb (blk_label x) (blk_label y))
          (filter (ofType blockType) (memory_blocks t))).
Proof.
  unfold selectBlocks, ofType. destruct (blockType =? ""); cbn [orb].
  - now rewrite filter_true.
  - reflexivity.
Qed.

Lemma BlockStore_List_healthy st blockType :
  healthy st ->
  BlockStore.List blockType st
  = (Ok (map scanBlock
           (orderBy (fun x y => String.leb (blk_label x) (blk_label y))
              (filter (ofType blockType) (memory_blocks (tables st))))), st).
Proof.
  intros Hh. unfold BlockStore.List, bind, wrap.
  rewrite Query_healthy by exact Hh. now rewrite selectBlocks_ofType.
Qed.

Lemma Create_new_label st label blockType content :
  healthy st ->
  selectBlockByLabel label (tables st) = None ->
  exists b st',
    BlockStore.Create label blockType content st = (Ok b, st')
    /\ healthy st'
    /\ selectBlockByLabel label (tables st')
       = Some (mkBlock (memory_blocks_seq (tables st) + 1) label
                       (if blockType =? "" then "core" else blockType) content
                       (now st) (now st))
    /\ (forall other, other <> label ->
          selectBlockByLabel other (tables st') = selectBlockByLabel other (tables st)).
Proof.
  intros Hh Hnone.
  pose proof (selectBlockByLabel_none _ _ Hnone) as Hfind.
  pose proof (find_none_existsb _ _ Hfind) as Hex.
  set (ty := if blockType =? "" then "core" else blockType).
  set (id := (memory_blocks_seq (tables st) + 1)%Z).
  set (row := mkBlockRow id label ty content (now st) (now st)).
  set (t1 := set_memory_blocks (memory_blocks (tables st) ++ [row]) id (tables st)).
  assert (Hins : Exec (insertBlock label ty content) st
                 = (Ok id, mkDB t1 (now st) (faults st))).
  { rewrite Exec_healthy by exact Hh. unfold insertBlock. rewrite Hex. reflexivity. }
  assert (Hbyid : exists r, find (fun r => (blk_id r =? id)%Z) (memory_blocks t1) = Some r).
  { unfold t1. cbn [memory_blocks set_memory_blocks]. rewrite find_app.
    destruct (find (fun r => (blk_id r =? id)%Z) (memory_blocks (tables st))) as [r|];
      [now exists r|].
    exists row. unfold row at 1. cbn [find blk_id]. rewrite Z.eqb_refl. reflexivity. }
  destruct Hbyid as [r Hr].
  exists (scanBlock r), (mkDB t1 (now st) (faults st)).
  split; [|split; [exact Hh|split]].
  - unfold BlockStore.Create. fold ty. unfold bind, wrap. rewrite Hins.
    unfold BlockStore.GetByID, wrap. rewrite QueryRow_healthy by exact Hh.
    unfold selectBlockByID. cbn [tables]. rewrite Hr. reflexivity.
  - unfold selectBlockByLabel. cbn [tables t1 memory_blocks set_memory_blocks].
    rewrite find_app, Hfind. unfold row at 1. cbn [find blk_label].
    rewrite String.eqb_refl. reflexivity.
  - intros other Hne. unfold selectBlockByLabel.
    cbn [tables t1 memory_blocks set_memory_blocks]. rewrite find_app.
    destruct (find (fun r => blk_label r =? other) (memory_blocks (tables st)));
      [reflexivity|].
    unfold row. cbn [find blk_label].
    assert (Hl : (label =? other) = false) by (apply String.eqb_neq; congruence).
    now rewrite Hl.
Qed.

(** X1.  On a healthy connection, over a table whose ids are below the
    high-water mark, [Create] of a label that has no block returns the
    block it stored: the label and the content it was given, the type
    "core" when the type argument is empty, an id above every id of the
    table, and one time stamp for both dates. *)
Theorem Create_returns_the_stored_block st label blockType content :
  healthy st ->
  BlocksOK (tables st) ->
  selectBlockByLabel label (tables st) = None ->
  exists st',
    BlockStore.Create label blockType content st
    = (Ok (mkBlock (memory_blocks_seq (tables st) + 1) label
                   (if blockType =? "" then "core" else blockType) content
                   (now st) (now st)), st')
    /\ memory_blocks (tables st')
       = memory_blocks (tables st)
         ++ [mkBlockRow (memory_blocks_seq (tables st) + 1) label
                        (if blockType =? "" then "core" else blockType) content
                        (now st) (now st)]
    /\ Forall (fun r => (blk_id r < memory_blocks_seq (tables st) + 1)%Z)
              (memory_blocks (tables st))
    /\ BlocksOK (tables st')
    /\ healthy st'.
Proof.
  intros Hh Hok Hnone.
  pose proof (find_none_existsb _ _ (selectBlockByLabel_none _ _ Hnone)) as Hex.
  set (ty := if blockType =? "" then "core" else blockType).
  set (id := (memory_blocks_seq (tables st) + 1)%Z).
  set (row := mkBlockRow id label ty content (now st) (now st)).
  exists (mkDB (set_memory_blocks (memory_blocks (tables st) ++ [row]) id (tables st))
               (now st) (faults st)).
  split; [|split; [reflexivity|split; [|split; [|exact Hh]]]].
  - unfold BlockStore.Create. fold ty. unfold bind, wrap.
    rewrite Exec_healthy by exact Hh. unfold insertBlock. rewrite Hex.
    fold id. fold row.
    unfold BlockStore.GetByID, wrap. rewrite QueryRow_healthy by exact Hh.
    unfold selectBlockByID. cbn [tables memory_blocks set_memory_blocks].
    rewrite find_app, (find_above blk_id _ _ id Hok) by (unfold id; lia).
    unfold row at 1. cbn [find blk_id]. rewrite Z.eqb_refl. reflexivity.
  - eapply Forall_impl; [|exact Hok]. intros r Hr. cbn in Hr. lia.
  - unfold BlocksOK. cbn [tables memory_blocks memory_blocks_seq set_memory_blocks].
    apply Forall_app. split.
    + eapply Forall_impl; [|exact Hok]. intros r Hr. cbn in Hr. unfold id. lia.
    + constructor; [cbn; lia | constructor].
Qed.

Lemma Update_existing_block st label content b :
  healthy st ->
  selectBlockByLabel label (tables st) = Some b ->
  exists st',
    BlockStore.Update label content st
    = (Ok (mkBlock (Block_ID b) label (Block_BlockType b) content
                   (Block_CreatedAt b) (now st)), st')
    /\ selectBlockByLabel label (tables st')
       = Some (mkBlock (Block_ID b) label (Block_BlockType b) content
                       (Block_CreatedAt b) (now st))
    /\ map blk_id (memory_blocks (tables st')) = map blk_id (memory_blocks (tables st))
    /\ map blk_label (memory_blocks (tables st'))
       = map blk_label (memory_blocks (tables st))
    /\ (forall other, other <> label ->
          selectBlockByLabel other (tables st') = selectBlockByLabel other (tables st))
    /\ healthy st'.
Proof.
  intros Hh Hsel.
  set (f := fun r => if blk_label r =? label
                     then mkBlockRow (blk_id r) (blk_label r) (blk_block_type r)
                                     content (blk_created_at r) (now st)
                     else r).
  assert (Hlabel : forall r, blk_label (f r) = blk_label r).
  { intros r. unfold f. destruct (blk_label r =? label); reflexivity. }
  assert (Hid : forall r, blk_id (f r) = blk_id r).
  { intros r. unfold f. destruct (blk_label r =? label); reflexivity. }
  exists (mkDB (set_memory_blocks (map f (memory_blocks (tables st)))
                                  (memory_blocks_seq (tables st)) (tables st))
               (now st) (faults st)).
  assert (Hfind : forall l,
            find (fun r => blk_label r =? l) (map f (memory_blocks (tables st)))
            = option_map f (find (fun r => blk_label r =? l) (memory_blocks (tables st)))).
  { intros l. apply find_map_same. intros r. now rewrite Hlabel. }
  assert (Hnew : selectBlockByLabel label
                   (set_memory_blocks (map f (memory_blocks (tables st)))
                                      (memory_blocks_seq (tables st)) (tables st))
                 = Some (mkBlock (Block_ID b) label (Block_BlockType b) content
                                 (Block_CreatedAt b) (now st))).
  { unfold selectBlockByLabel in *. cbn [memory_blocks set_memory_blocks].
    rewrite Hfind.
    destruct (find (fun r => blk_label r =? label) (memory_blocks (tables st)))
      as [r|] eqn:E; [|discriminate].
    injection Hsel as <-. apply find_some in E. destruct E as [_ E].
    cbn [option_map]. unfold f. rewrite E. apply String.eqb_eq in E.
    cbn. now rewrite E. }
  split; [|split; [exact Hnew|split; [|split; [|split; [|exact Hh]]]]].
  - unfold BlockStore.Update, bind, wrap. rewrite Exec_healthy by exact Hh.
    unfold updateBlock. fold f.
    unfold BlockStore.GetByLabel, wrap. rewrite QueryRow_healthy by exact Hh.
    cbn [tables]. now rewrite Hnew.
  - cbn [tables memory_blocks set_memory_blocks]. rewrite map_map.
    apply map_ext. exact Hid.
  - cbn [tables memory_blocks set_memory_blocks]. rewrite map_map.
    apply map_ext. exact Hlabel.
  - intros other Hne. unfold selectBlockByLabel.
    cbn [tables memory_blocks set_memory_blocks]. rewrite Hfind.
    destruct (find (fun r => blk_label r =? other) (memory_blocks (tables st)))
      as [r|] eqn:E; [|reflexivity].
    apply find_some in E. destruct E as [_ E]. apply String.eqb_eq in E.
    cbn [option_map]. unfold f.
    assert (Hl : (blk_label r =? label) = false) by (apply String.eqb_neq; congruence).
    now rewrite Hl.
Qed.

(** X2.  On a healthy connection, [Update] of a label that has a block
    returns that block with the new content and the time of the update; its
    id, type and creation date stay, no row is added or removed, and the
    block of every other label is as it was. *)
Theorem Update_rewrites_content_only st label content b :
  healthy st ->
  selectBlockByLabel label (tables st) = Some b ->
  exists st',
    BlockStore.Update label content st
    = (Ok (mkBlock (Block_ID b) label (Block_BlockType b) content
                   (Block_CreatedAt b) (now st)), st')
    /\ map blk_id (memory_blocks (tables st')) = map blk_id (memory_blocks (tables st))
    /\ map blk_label (memory_blocks (tables st'))
       = map blk_label (memory_blocks (tables st))
    /\ (forall other, other <> label ->
          selectBlockByLabel other (tables st') = selectBlockByLabel other (tables st))
    /\ healthy st'.
Proof.
  intros Hh Hsel.
  destruct (Update_existing_block st label content b Hh Hsel)
    as [st' [E [_ [Hids [Hlabels [Hother Hh']]]]]].
  exists st'. auto.
Qed.

(** X3.  On a healthy connection, [Delete] removes the block of the
    label and no other; reading the label afterwards reports
    [sql.ErrNoRows], a second [Delete] finds nothing to do, and the
    AUTOINCREMENT counter is not taken back, so a later [Create] cannot hand
    out the id again. *)
Theorem Delete_removes_the_block_only st label :
  healthy st ->
  exists st',
    BlockStore.Delete label st = (Ok tt, st')
    /\ selectBlockByLabel label (tables st') = None
    /\ (forall other, other <> label ->
          selectBlockByLabel other (tables st') = selectBlockByLabel other (tables st))
    /\ (exists e, BlockStore.GetByLabel label st' = (Error e, st')
                  /\ isNotFound e = true)
    /\ BlockStore.Delete label st' = (Ok tt, st')
    /\ memory_blocks_seq (tables st') = memory_blocks_seq (tables st).
Proof.
  intros Hh.
  set (rows := filter (fun r => negb (blk_label r =? label)) (memory_blocks (tables st))).
  set (st' := mkDB (set_memory_blocks rows (memory_blocks_seq (tables st)) (tables st))
                   (now st) (faults st)).
  assert (Hh' : healthy st') by exact Hh.
  assert (Hgone : find (fun r => blk_label r =? label) rows = None).
  { apply find_filter_none. intros r ->. reflexivity. }
  exists st'.
  split; [|split; [|split; [|split; [|split]]]].
  - unfold BlockStore.Delete. rewrite Exec_healthy by exact Hh. reflexivity.
  - unfold selectBlockByLabel. cbn [tables st' memory_blocks set_memory_blocks].
    now rewrite Hgone.
  - intros other Hne. unfold selectBlockByLabel.
    cbn [tables st' memory_blocks set_memory_blocks]. unfold rows.
    rewrite find_filter_out; [reflexivity|].
    intros r Hr. apply String.eqb_eq in Hr.
    apply negb_true_iff, String.eqb_neq. congruence.
  - eexists. split.
    + unfold BlockStore.GetByLabel, wrap. rewrite QueryRow_healthy by exact Hh'.
      unfold selectBlockByLabel. cbn [tables st' memory_blocks set_memory_blocks].
      rewrite Hgone. reflexivity.
    + reflexivity.
  - unfold BlockStore.Delete. rewrite Exec_healthy by exact Hh'.
    unfold deleteBlock. cbn [tables st' memory_blocks memory_blocks_seq set_memory_blocks].
    rewrite (filter_all_when (fun r => blk_label r =? label))
      by (apply find_none_existsb; exact Hgone).
    reflexivity.
  - reflexivity.
Qed.

(** X4.  On a healthy connection, [List] returns the blocks of the type
    asked for, all blocks for the empty type, each once, in the bytewise
    order of their labels. *)
Theorem List_returns_blocks_of_type_by_label st blockType :
  healthy st ->
  exists blocks,
    BlockStore.List blockType st = (Ok blocks, st)
    /\ Permutation blocks
         (map scanBlock (filter (ofType blockType) (memory_blocks (tables st))))
    /\ StronglySorted byLabel blocks.
Proof.
  intros Hh. eexists. split; [apply BlockStore_List_healthy; exact Hh|]. split.
  - apply Permutation_map, GraphFacts.orderBy_perm.
  - eapply sorted_map; [|apply orderBy_sorted].
    + intros x y H. exact H.
    + intros x y. apply String.leb_total.
    + intros x y z. apply string_leb_trans.
Qed.

End BlockFacts.

(* ================================================================= *)
(** ** The archival store, operation by operation *)

Module ArchiveFacts.
Import Engine Memory Schema Constraints StoreFacts OrderFacts BlockFacts.

Lemma listing_healthy {A B} format (sel : Tables -> Result (list A)) (scan : A -> B) st :
  healthy st ->
  (rows <- wrap format [] (Query sel) ;; scanAll scan rows) st
  = match sel (tables st) with
    | Ok rows => (Ok (map scan rows), st)
    | Error e => (Error (Wrapf format [] e), st)
    end.
Proof.
  intros Hh. unfold bind, wrap. rewrite Query_healthy by exact Hh.
  destruct (sel (tables st)); reflexivity.
Qed.

Lemma listing_length {A B} n format (sel : Tables -> Result (list A)) (scan : A -> B) st :
  (forall rows, sel (tables st) = Ok rows -> List.length rows <= n) ->
  List.length (returned ((rows <- wrap format [] (Query sel) ;; scanAll scan rows) st)) <= n.
Proof.
  intros Hn. unfold returned, bind, wrap, Query, scanAll, next_fault.
  destruct (faults st) as [|[| |] fs]; cbn [tables];
    destruct (sel (tables st)) as [rows|e] eqn:E; cbn; try lia;
    rewrite length_map; auto.
Qed.


Lemma Add_stores st content tags embedding :
  healthy st ->
  ArchivalOK (tables st) ->
  ArchivalStore.Add content tags embedding st
  = (Ok (mkArchivalEntry (archival_seq (tables st) + 1) content
                         (GoStrings.Join tags ",") embedding (now st)),
     mkDB (set_archival
             (archival (tables st)
              ++ [mkArchivalRow (archival_seq (tables st) + 1) content
                                (GoStrings.Join tags ",") embedding (now st)])
             (archival_seq (tables st) + 1) (tables st))
          (now st) (faults st)).
Proof.
  intros Hh Hok.
  unfold ArchivalStore.Add, bind, wrap. rewrite Exec_healthy by exact Hh.
  unfold insertArchival.
  unfold ArchivalStore.GetByID, wrap. rewrite QueryRow_healthy by exact Hh.
  unfold selectArchivalByID. cbn [tables archival set_archival].
  rewrite find_app, (find_above arc_id _ _ _ Hok) by lia.
  cbn [find arc_id]. rewrite Z.eqb_refl. reflexivity.
Qed.


(** X6.  On a healthy connection, [Delete] removes the entry of the id
    and no other; reading the id afterwards reports [sql.ErrNoRows];
    deleting an id that has no entry succeeds and changes nothing. *)
Theorem Delete_removes_the_entry_only st id :
  healthy st ->
  exists st',
    ArchivalStore.Delete id st = (Ok tt, st')
    /\ (exists e, ArchivalStore.GetByID id st' = (Error e, st')
                  /\ isNotFound e = true)
    /\ (forall other, other <> id ->
          selectArchivalByID other (tables st') = selectArchivalByID other (tables st))
    /\ (selectArchivalByID id (tables st) = None -> st' = st)
    /\ archival_seq (tables st') = archival_seq (tables st).
Proof.
  intros Hh.
  set (rows := filter (fun r => negb (arc_id r =? id)%Z) (archival (tables st))).
  set (st' := mkDB (set_archival rows (archival_seq (tables st)) (tables st))
                   (now st) (faults st)).
  assert (Hh' : healthy st') by exact Hh.
  assert (Hgone : find (fun r => (arc_id r =? id)%Z) rows = None).
  { apply find_filter_none. intros r ->. reflexivity. }
  exists st'.
  split; [|split; [|split; [|split]]].
  - unfold ArchivalStore.Delete. rewrite Exec_healthy by exact Hh. reflexivity.
  - eexists. split.
    + unfold ArchivalStore.GetByID, wrap. rewrite QueryRow_healthy by exact Hh'.
      unfold selectArchivalByID. cbn [tables st' archival set_archival].
      rewrite Hgone. reflexivity.
    + reflexivity.
  - intros other Hne. unfold selectArchivalByID.
    cbn [tables st' archival set_archival]. unfold rows.
    rewrite find_filter_out; [reflexivity|].
    intros r Hr. apply Z.eqb_eq in Hr.
    apply negb_true_iff, Z.eqb_neq. congruence.
  - intros Hnone. unfold st', rows.
    rewrite (filter_all_when (fun r => (arc_id r =? id)%Z)).
    + destruct st as [[] ? ?]. reflexivity.
    + apply find_none_existsb. unfold selectArchivalByID in Hnone.
      destruct (find (fun r => (arc_id r =? id)%Z) (archival (tables st)));
        [discriminate | reflexivity].
  - reflexivity.
Qed.

Lemma limitOr_positive default limit :
  (0 < default)%Z -> (0 <= if (limit <=? 0)%Z then default else limit)%Z.
Proof. intros Hd. destruct (Z.leb_spec limit 0); lia. Qed.

(** X7.  Whatever the connection, the index and LIKE do, [Search], [List]
    and the summary store's [List] return no more entries than they were
    asked for, where a limit that is not positive asks for 10, for 50 and
    for 20. *)
Theorem listings_respect_their_limit
    (fts5 : string -> list ArchivalRow -> Result (list Z))
    (like : string -> string -> bool)
    (st : DB) (query tag : string) (level limit : Z) :
  List.length (returned (ArchivalStore.Search fts5 query limit st)) <= limitOr 10 limit
  /\ List.length (returned (ArchivalStore.List like tag limit st)) <= limitOr 50 limit
  /\ List.length (returned (SummaryStore.List level limit st)) <= limitOr 20 limit.
Proof.
  split; [|split].
  - unfold ArchivalStore.Search. apply listing_length.
    unfold ArchivalStore.selectMatches. intros rows.
    destruct (fts5 query (archival (tables st))); [|discriminate].
    intros [= <-]. apply limitTo_length, limitOr_positive. lia.
  - unfold ArchivalStore.List. apply listing_length.
    unfold ArchivalStore.selectRecent. intros rows [= <-].
    rewrite length_map. apply limitTo_length, limitOr_positive. lia.
  - unfold SummaryStore.List. apply listing_length.
    unfold selectSummaries. intros rows [= <-].
    apply limitTo_length, limitOr_positive. lia.
Qed.

Lemma ArchivalStore_List_healthy like st tag limit :
  healthy st ->
  ArchivalStore.List like tag limit st
  = (Ok (map (fun r => scanEntryCols (archivalCols r))
           (limitTo (if (limit <=? 0)%Z then 50%Z else limit)
              (orderBy (newestFirst arc_created_at)
                 (filter (tagged like tag) (archival (tables st)))))), st).
Proof.
  intros Hh. unfold ArchivalStore.List. rewrite listing_healthy by exact Hh.
  unfold ArchivalStore.selectRecent, tagged. rewrite map_map.
  destruct (tag =? ""); cbn [orb]; [now rewrite filter_true | reflexivity].
Qed.

Lemma newestFirst_total {A} (created : A -> Z) x y :
  newestFirst created x y = true \/ newestFirst created y x = true.
Proof. unfold newestFirst. destruct (Z.leb_spec (created y) (created x)); [now left|]. right. apply Z.leb_le. lia. Qed.

Lemma newestFirst_trans {A} (created : A -> Z) x y z :
  newestFirst created x y = true -> newestFirst created y z = true ->
  newestFirst created x z = true.
Proof. unfold newestFirst. rewrite !Z.leb_le. lia. Qed.

(** X8.  On a healthy connection, [List] returns entries of the store,
    newest first: those whose tag string the LIKE operator accepts for
    [%tag%], any entry for the empty tag; all of them when the limit allows,
    each once. *)
Theorem List_returns_tagged_entries_newest_first
    (like : string -> string -> bool) st tag limit :
  healthy st ->
  exists entries,
    ArchivalStore.List like tag limit st = (Ok entries, st)
    /\ StronglySorted (newerFirst Entry_CreatedAt) entries
    /\ incl entries
         (map (fun r => scanEntryCols (archivalCols r))
              (filter (tagged like tag) (archival (tables st))))
    /\ (List.length (filter (tagged like tag) (archival (tables st))) <= limitOr 50 limit ->
        Permutation entries
          (map (fun r => scanEntryCols (archivalCols r))
               (filter (tagged like tag) (archival (tables st))))).
Proof.
  intros Hh. eexists. split; [apply ArchivalStore_List_healthy; exact Hh|].
  split; [|split].
  - eapply sorted_map; [|apply sorted_limitTo, orderBy_sorted].
    + intros x y H. unfold newerFirst. cbn. apply Z.leb_le. exact H.
    + apply newestFirst_total.
    + apply newestFirst_trans.
  - apply incl_map. eapply incl_tran; [apply limitTo_incl|].
    intros x Hx. eapply Permutation_in; [apply GraphFacts.orderBy_perm | exact Hx].
  - intros Hlen. apply Permutation_map. rewrite limitTo_all.
    + apply GraphFacts.orderBy_perm.
    + rewrite (Permutation_length (GraphFacts.orderBy_perm _ _)). exact Hlen.
Qed.

End ArchiveFacts.

(* ================================================================= *)
(** ** The graph store, operation by operation *)

Module GraphMore.
Import Engine Memory Schema Constraints StoreFacts GraphFacts OrderFacts BlockFacts
       ArchiveFacts.

Lemma find_some_existsb {A} (f : A -> bool) l a :
  find f l = Some a -> existsb f l = true.
Proof.
  intros H. apply find_some in H. apply existsb_exists. exists a. exact H.
Qed.

(** What [EnsureEntity] does on a healthy connection, with no assumption
    on the tables. *)
Lemma EnsureEntity_healthy st name entityType :
  healthy st ->
  GraphStore.EnsureEntity name entityType st
  = match find (fun e => ent_name e =? name) (entities (tables st)) with
    | Some e =>
        (Ok (ent_id e),
         mkDB (set_entities (entities (tables st)) (entities_seq (tables st) + 1)
                            (tables st))
              (now st) (faults st))
    | None =>
        (Ok (entities_seq (tables st) + 1)%Z,
         mkDB (set_entities
                 (entities (tables st)
                  ++ [mkEntityRow (entities_seq (tables st) + 1) name entityType (now st)])
                 (entities_seq (tables st) + 1) (tables st))
              (now st) (faults st))
    end.
Proof.
  intros Hh. unfold GraphStore.EnsureEntity, bind, wrap.
  rewrite Exec_healthy by exact Hh. unfold insertEntityOrIgnore.
  destruct (find (fun e => ent_name e =? name) (entities (tables st))) as [e|] eqn:E.
  - rewrite (find_some_existsb _ _ _ E).
    rewrite QueryRow_healthy by exact Hh.
    unfold selectEntityID. cbn [tables entities set_entities]. rewrite E. reflexivity.
  - rewrite (find_none_existsb _ _ E).
    rewrite QueryRow_healthy by exact Hh.
    unfold selectEntityID. cbn [tables entities set_entities].
    rewrite find_app, E. cbn [find ent_name]. rewrite String.eqb_refl. reflexivity.
Qed.

(** X9.  On a healthy connection, [EnsureEntity] of a name that has an
    entity returns the id of that entity and leaves the entity, its type
    included, as it is, whatever type the call names; of a new name it
    stores an entity of the given type under the id after the high-water
    mark.  Relations are not touched. *)
Theorem EnsureEntity_finds_or_creates st name entityType :
  healthy st ->
  exists id st',
    GraphStore.EnsureEntity name entityType st = (Ok id, st')
    /\ match find (fun e => ent_name e =? name) (entities (tables st)) with
       | Some e =>
           id = ent_id e /\ entities (tables st') = entities (tables st)
       | None =>
           id = (entities_seq (tables st) + 1)%Z
           /\ entities (tables st')
              = entities (tables st) ++ [mkEntityRow id name entityType (now st)]
       end
    /\ relations (tables st') = relations (tables st)
    /\ healthy st'.
Proof.
  intros Hh. rewrite (EnsureEntity_healthy st name entityType Hh).
  destruct (find (fun e => ent_name e =? name) (entities (tables st))) as [e|];
    do 2 eexists; (split; [reflexivity|]); cbn [tables entities relations set_entities];
    auto.
Qed.

(** The entity [EnsureEntity] answers with, and what stays in place. *)
Lemma EnsureEntity_entity st name entityType :
  healthy st ->
  exists e st',
    GraphStore.EnsureEntity name entityType st = (Ok (ent_id e), st')
    /\ healthy st'
    /\ find (fun x => ent_name x =? name) (entities (tables st')) = Some e
    /\ relations (tables st') = relations (tables st)
    /\ (forall n x, find (fun x => ent_name x =? n) (entities (tables st)) = Some x ->
                    find (fun x => ent_name x =? n) (entities (tables st')) = Some x)
    /\ (forall x, find (fun x => ent_name x =? name) (entities (tables st)) = Some x ->
                  entities (tables st') = entities (tables st)).
Proof.
  intros Hh. rewrite (EnsureEntity_healthy st name entityType Hh).
  destruct (find (fun e => ent_name e =? name) (entities (tables st))) as [e|] eqn:E.
  - exists e. eexists. split; [reflexivity|]. cbn [tables entities relations set_entities].
    repeat split; auto.
  - eexists (mkEntityRow _ name entityType _). eexists. split; [reflexivity|].
    cbn [tables entities relations set_entities].
    split; [exact Hh|]. split.
    + rewrite find_app, E. cbn [find ent_name]. now rewrite String.eqb_refl.
    + split; [reflexivity|]. split.
      * intros n x Hx. now rewrite find_app, Hx.
      * intros x Hx. discriminate.
Qed.

(** What [AddRelation] leaves behind on a healthy connection, with no
    assumption on the tables. *)
Lemma AddRelation_healthy st subject predicate object metadata :
  healthy st ->
  exists es eo st',
    GraphStore.AddRelation subject predicate object metadata st = (Ok tt, st')
    /\ healthy st'
    /\ find (fun x => ent_name x =? subject) (entities (tables st')) = Some es
    /\ find (fun x => ent_name x =? object) (entities (tables st')) = Some eo
    /\ (exists r, In r (relations (tables st'))
                  /\ relKey r = (ent_id es, predicate, ent_id eo)
                  /\ (existsb (fun r => relKeyEqb (relKey r) (ent_id es, predicate, ent_id eo))
                              (relations (tables st)) = false ->
                      rel_metadata r = metadata))
    /\ (existsb (fun r => relKeyEqb (relKey r) (ent_id es, predicate, ent_id eo))
                (relations (tables st)) = true ->
        relations (tables st') = relations (tables st))
    /\ (forall xs xo,
          find (fun x => ent_name x =? subject) (entities (tables st)) = Some xs ->
          find (fun x => ent_name x =? object) (entities (tables st)) = Some xo ->
          entities (tables st') = entities (tables st))
    /\ incl (relations (tables st)) (relations (tables st'))
    /\ (forall n x, find (fun x => ent_name x =? n) (entities (tables st)) = Some x ->
                    find (fun x => ent_name x =? n) (entities (tables st')) = Some x).
Proof.
  intros Hh.
  destruct (EnsureEntity_entity st subject "" Hh)
    as [es [st1 [E1 [Hh1 [Hs1 [Hr1 [Hstable1 Hsame1]]]]]]].
  destruct (EnsureEntity_entity st1 object "" Hh1)
    as [eo [st2 [E2 [Hh2 [Ho2 [Hr2 [Hstable2 Hsame2]]]]]]].
  pose proof (Hstable2 _ _ Hs1) as Hs2.
  assert (Hes : existsb (fun e => (ent_id e =? ent_id es)%Z) (entities (tables st2)) = true).
  { apply find_some in Hs2. apply existsb_exists. exists es.
    split; [tauto | apply Z.eqb_refl]. }
  assert (Heo : existsb (fun e => (ent_id e =? ent_id eo)%Z) (entities (tables st2)) = true).
  { apply find_some in Ho2. apply existsb_exists. exists eo.
    split; [tauto | apply Z.eqb_refl]. }
  assert (Hrun : forall t3,
            insertRelationOrIgnore (ent_id es) predicate (ent_id eo) metadata
                                   (now st2) (tables st2) = Ok (tt, t3) ->
            GraphStore.AddRelation subject predicate object metadata st
            = (Ok tt, mkDB t3 (now st2) (faults st2))).
  { intros t3 E3. unfold GraphStore.AddRelation, bind. rewrite E1, E2.
    unfold wrap. rewrite Exec_healthy by exact Hh2. now rewrite E3. }
  assert (Hrels : relations (tables st2) = relations (tables st)) by congruence.
  unfold insertRelationOrIgnore in Hrun.
  change (existsb _ (relations (tables st2)))
    with (existsb (fun r => relKeyEqb (relKey r) (ent_id es, predicate, ent_id eo))
                  (relations (tables st2))) in Hrun.
  rewrite Hes, Heo in Hrun. cbn [andb] in Hrun.
  exists es, eo. rewrite <- Hrels.
  destruct (existsb (fun r => relKeyEqb (relKey r) (ent_id es, predicate, ent_id eo))
                    (relations (tables st2))) eqn:Hex.
  - eexists. split; [apply Hrun; reflexivity|].
    cbn [tables entities relations set_relations].
    split; [exact Hh2|]. split; [exact Hs2|]. split; [exact Ho2|].
    split; [|split; [|split; [|split]]].
    + destruct (existsb_key_true relKey relKeyEqb relKeyEqb_spec _ _ Hex) as [r [Hr Hk]].
      exists r. split; [exact Hr|]. split; [exact Hk | discriminate].
    + intros _. reflexivity.
    + intros xs xo Hxs Hxo. rewrite (Hsame2 _ (Hstable1 _ _ Hxo)). eapply Hsame1; eauto.
    + apply incl_refl.
    + intros n x Hx. auto.
  - eexists. split; [apply Hrun; reflexivity|].
    cbn [tables entities relations set_relations].
    split; [exact Hh2|]. split; [exact Hs2|]. split; [exact Ho2|].
    split; [|split; [|split; [|split]]].
    + eexists. split; [apply in_or_app; right; left; reflexivity|].
      split; reflexivity.
    + discriminate.
    + intros xs xo Hxs Hxo. rewrite (Hsame2 _ (Hstable1 _ _ Hxo)). eapply Hsame1; eauto.
    + apply incl_appl, incl_refl.
    + intros n x Hx. auto.
Qed.

(** X10.  On a healthy connection, a second [AddRelation] of a triple
    changes no row, whatever metadata it carries: the entities and the
    relations, metadata included, are those the first call left. *)
Theorem AddRelation_again_changes_no_row
    st subject predicate object metadata1 metadata2 :
  healthy st ->
  exists st1 st2,
    GraphStore.AddRelation subject predicate object metadata1 st = (Ok tt, st1)
    /\ GraphStore.AddRelation subject predicate object metadata2 st1 = (Ok tt, st2)
    /\ entities (tables st2) = entities (tables st1)
    /\ relations (tables st2) = relations (tables st1).
Proof.
  intros Hh.
  destruct (AddRelation_healthy st subject predicate object metadata1 Hh)
    as [es [eo [st1 [E1 [Hh1 [Hs1 [Ho1 [[r [Hr [Hk _]]] _]]]]]]]].
  destruct (AddRelation_healthy st1 subject predicate object metadata2 Hh1)
    as [es' [eo' [st2 [E2 [_ [Hs2 [Ho2 [_ [Hsame [Hent [_ Hstable]]]]]]]]]]].
  rewrite (Hstable _ _ Hs1) in Hs2. injection Hs2 as <-.
  rewrite (Hstable _ _ Ho1) in Ho2. injection Ho2 as <-.
  exists st1, st2. split; [exact E1|]. split; [exact E2|]. split.
  - eapply Hent; eauto.
  - apply Hsame. apply existsb_exists. exists r. split; [exact Hr|].
    now apply relKeyEqb_spec.
Qed.

Lemma joined_in t r es eo :
  In r (relations t) ->
  find (fun x => ent_name x =? ent_name es) (entities t) = Some es ->
  find (fun x => ent_name x =? ent_name eo) (entities t) = Some eo ->
  relKey r = (ent_id es, rel_predicate r, ent_id eo) ->
  In (r, es, eo) (joinRelations t).
Proof.
  intros Hr Hs Ho Hk. unfold joinRelations.
  apply find_some in Hs, Ho. injection Hk as Hks Hko.
  apply in_flat_map. exists r. split; [exact Hr|].
  apply in_flat_map. exists es. split.
  - apply filter_In. split; [tauto | apply Z.eqb_eq; congruence].
  - apply in_map. apply filter_In. split; [tauto | apply Z.eqb_eq; congruence].
Qed.

(** X11.  On a healthy connection, a relation that was just added is
    reported by [QueryEntity] for its subject and for its object, under the
    names and the predicate it was added with and, if the tables satisfy the
    schema and the triple is new, with its metadata. *)
Theorem AddRelation_then_QueryEntity st subject predicate object metadata :
  healthy st ->
  exists st' r ofSubject ofObject,
    GraphStore.AddRelation subject predicate object metadata st = (Ok tt, st')
    /\ GraphStore.QueryEntity subject st' = (Ok ofSubject, st')
    /\ GraphStore.QueryEntity object st' = (Ok ofObject, st')
    /\ In r ofSubject /\ In r ofObject
    /\ Relation_Subject r = subject
    /\ Relation_Predicate r = predicate
    /\ Relation_Object r = object
    /\ (tripleCount (tables st) subject predicate object = 0 ->
        GraphOK (tables st) -> Relation_Metadata r = metadata).
Proof.
  intros Hh.
  destruct (AddRelation_healthy st subject predicate object metadata Hh)
    as [es [eo [st' [E [Hh' [Hs [Ho [[r [Hr [Hk Hmeta]]] [_ [_ [_ Hstable]]]]]]]]]]].
  pose proof (find_some _ _ Hs) as [_ Hns]. apply String.eqb_eq in Hns.
  pose proof (find_some _ _ Ho) as [_ Hno]. apply String.eqb_eq in Hno.
  assert (Hp : rel_predicate r = predicate) by (injection Hk; auto).
  assert (Hj : In (r, es, eo) (joinRelations (tables st'))).
  { apply joined_in; rewrite ?Hns, ?Hno, ?Hp; assumption. }
  exists st', (scanRelation (r, es, eo)). do 2 eexists.
  split; [exact E|].
  split; [apply QueryEntity_healthy; exact Hh'|].
  split; [apply QueryEntity_healthy; exact Hh'|].
  split; [|split; [|split; [exact Hns|split; [exact Hp|split; [exact Hno|]]]]].
  - apply in_map. eapply Permutation_in; [symmetry; apply orderBy_perm|].
    apply filter_In. split; [exact Hj|]. rewrite Hns, String.eqb_refl. reflexivity.
  - apply in_map. eapply Permutation_in; [symmetry; apply orderBy_perm|].
    apply filter_In. split; [exact Hj|]. rewrite Hno, String.eqb_refl. apply orb_true_r.
  - intros Hcount Hok. apply Hmeta.
    destruct (existsb (fun x => relKeyEqb (relKey x) (ent_id es, predicate, ent_id eo))
                      (relations (tables st))) eqn:Hex; [|reflexivity].
    exfalso.
    destruct (existsb_key_true relKey relKeyEqb relKeyEqb_spec _ _ Hex) as [r0 [Hr0 Hk0]].
    destruct (AddRelation_spec st subject predicate object metadata Hh Hok)
      as [st0 [E0 [_ [Hok' _]]]].
    rewrite E in E0. injection E0 as <-.
    pose proof (rel_references _ Hok) as Hfk. rewrite Forall_forall in Hfk.
    destruct (Hfk r0 Hr0) as [Hrs Hro].
    injection Hk0 as Hk0s Hk0p Hk0o.
    destruct (entityRow_of_id _ _ (ent_ids_unique _ Hok) Hrs) as [Hins [Hids _]].
    destruct (entityRow_of_id _ _ (ent_ids_unique _ Hok) Hro) as [Hino [Hido _]].
    assert (Hsame : forall x e, In x (entities (tables st)) ->
              find (fun y => ent_name y =? ent_name e) (entities (tables st')) = Some e ->
              ent_id x = ent_id e -> ent_name x = ent_name e).
    { intros x e Hx He Hid.
      assert (Hfx : find (fun y => ent_name y =? ent_name x) (entities (tables st)) = Some x)
        by (apply (find_key_in ent_name String.eqb Seqb_spec);
            [apply (ent_names_unique _ Hok) | exact Hx]).
      f_equal. apply (key_injective ent_id (entities (tables st'))); auto.
      - apply (ent_ids_unique _ Hok').
      - apply (find_some _ _ (Hstable _ _ Hfx)).
      - apply (find_some _ _ He). }
    assert (Hcount' : In (joined (tables st) r0)
              (filter (fun j => let '(r, s, o) := j in
                                (ent_name s =? subject) && (rel_predicate r =? predicate)
                                && (ent_name o =? object))
                      (joinRelations (tables st)))).
    { apply filter_In. split.
      - rewrite (joinRelations_joined _ Hok). apply in_map. exact Hr0.
      - unfold joined.
        rewrite (Hsame _ es Hins), (Hsame _ eo Hino).
        + rewrite Hns, Hno, Hk0p, !String.eqb_refl. reflexivity.
        + now rewrite Hno.
        + congruence.
        + now rewrite Hns.
        + congruence. }
    unfold tripleCount in Hcount.
    destruct (filter _ (joinRelations (tables st))); [contradiction | discriminate].
Qed.

Lemma filter_nothing {A} (p : A -> bool) l :
  (forall a, In a l -> p a = false) -> filter p l = [].
Proof.
  induction l as [|a l IH]; cbn; intros H; [reflexivity|].
  rewrite (H a) by now left. apply IH. intros b Hb. apply H. now right.
Qed.

Lemma joinRelations_ends t r s o :
  In (r, s, o) (joinRelations t) ->
  In r (relations t) /\ In s (entities t) /\ In o (entities t).
Proof.
  unfold joinRelations. intros H.
  apply in_flat_map in H. destruct H as [r' [Hr H]].
  apply in_flat_map in H. destruct H as [s' [Hs H]].
  apply in_map_iff in H. destruct H as [o' [[= -> -> ->] Ho]].
  apply filter_In in Hs, Ho. tauto.
Qed.

Lemma relations_newest_first (rows : list (RelationRow * EntityRow * EntityRow)) :
  StronglySorted (newerFirst Relation_CreatedAt)
    (map scanRelation (orderBy (newestFirst joinedCreatedAt) rows)).
Proof.
  eapply sorted_map; [|apply orderBy_sorted].
  - intros [[r s] o] [[r' s'] o'] H. unfold newerFirst. cbn. apply Z.leb_le. exact H.
  - apply newestFirst_total.
  - apply newestFirst_trans.
Qed.

(** X12.  On a healthy connection, [QueryEntity] lists the newest
    relation first, and answers a name that no entity has with the empty
    list, not with an error. *)
Theorem QueryEntity_newest_first_and_empty_for_unknown st name :
  healthy st ->
  exists rels,
    GraphStore.QueryEntity name st = (Ok rels, st)
    /\ StronglySorted (newerFirst Relation_CreatedAt) rels
    /\ (selectEntityID name (tables st) = None -> rels = []).
Proof.
  intros Hh. eexists. split; [apply QueryEntity_healthy; exact Hh|].
  split; [apply relations_newest_first|].
  intros Hnone. rewrite filter_nothing; [reflexivity|].
  intros [[r s] o] Hj. apply joinRelations_ends in Hj. destruct Hj as [_ [Hs Ho]].
  unfold selectEntityID in Hnone.
  destruct (find (fun x => ent_name x =? name) (entities (tables st))) as [x|] eqn:E;
    [discriminate|].
  pose proof (find_none _ _ E s Hs) as H1. pose proof (find_none _ _ E o Ho) as H2.
  cbn in H1, H2. now rewrite H1, H2.
Qed.

Lemma SearchRelations_healthy like st predicate :
  healthy st ->
  GraphStore.SearchRelations like predicate st
  = (Ok (map scanRelation
           (orderBy (newestFirst joinedCreatedAt)
              (filter (fun j => let '(r, _, _) := j in
                                like ("%" ++ predicate ++ "%")%string (rel_predicate r))
                      (joinRelations (tables st))))), st).
Proof.
  intros Hh. unfold GraphStore.SearchRelations.
  rewrite listing_healthy by exact Hh. reflexivity.
Qed.

(** X13.  On a healthy connection over tables that satisfy the schema,
    [SearchRelations] returns, newest first and each once, the relations
    whose predicate the LIKE operator accepts for [%predicate%], under the
    names of their two ends. *)
Theorem SearchRelations_returns_matching_relations
    (like : string -> string -> bool) st predicate :
  healthy st ->
  GraphOK (tables st) ->
  exists rels,
    GraphStore.SearchRelations like predicate st = (Ok rels, st)
    /\ Permutation rels
         (map (relationOf (tables st))
              (filter (fun r => like ("%" ++ predicate ++ "%")%string (rel_predicate r))
                      (relations (tables st))))
    /\ StronglySorted (newerFirst Relation_CreatedAt) rels.
Proof.
  intros Hh Hok. eexists. split; [apply SearchRelations_healthy; exact Hh|].
  split; [|apply relations_newest_first].
  rewrite (Permutation_map scanRelation (orderBy_perm _ _)).
  rewrite (joinRelations_joined _ Hok), filter_map_swap, map_map.
  reflexivity.
Qed.

Lemma ListEntities_healthy st entityType :
  healthy st ->
  GraphStore.ListEntities entityType st
  = (Ok (map scanEntity
           (orderBy (fun x y => String.leb (ent_name x) (ent_name y))
              (filter (ofEntityType entityType) (entities (tables st))))), st).
Proof.
  intros Hh. unfold GraphStore.ListEntities.
  rewrite listing_healthy by exact Hh.
  unfold selectEntities, ofEntityType.
  destruct (entityType =? ""); cbn [orb]; [now rewrite filter_true | reflexivity].
Qed.

(** X14.  On a healthy connection, [ListEntities] returns the entities
    of the type asked for, all entities for the empty type, each once, in
    the bytewise order of their names. *)
Theorem ListEntities_returns_entities_of_type_by_name st entityType :
  healthy st ->
  exists ents,
    GraphStore.ListEntities entityType st = (Ok ents, st)
    /\ Permutation ents
         (map scanEntity (filter (ofEntityType entityType) (entities (tables st))))
    /\ StronglySorted byName ents.
Proof.
  intros Hh. eexists. split; [apply ListEntities_healthy; exact Hh|]. split.
  - apply Permutation_map, orderBy_perm.
  - eapply sorted_map; [|apply orderBy_sorted].
    + intros x y H. exact H.
    + intros x y. apply String.leb_total.
    + intros x y z. apply string_leb_trans.
Qed.

End GraphMore.

(* ================================================================= *)
(** ** The summary store *)

Module SummaryFacts.
Import Engine Memory Schema Constraints StoreFacts GraphFacts OrderFacts BlockFacts
       ArchiveFacts.

Lemma CountAtLevel_healthy st level :
  healthy st ->
  SummaryStore.CountAtLevel level st
  = (Ok (Z.of_nat (List.length (filter (fun r => (sum_level r =? level)%Z)
                                       (conversation_summaries (tables st))))), st).
Proof.
  intros Hh. unfold SummaryStore.CountAtLevel. now rewrite QueryRow_healthy by exact Hh.
Qed.

Lemma Summary_Add_stores st level content sourceIDs :
  healthy st ->
  SummariesOK (tables st) ->
  SummaryStore.Add level content sourceIDs st
  = (Ok (mkSummary (conversation_summaries_seq (tables st) + 1) level content sourceIDs
                   (now st)),
     mkDB (set_conversation_summaries
             (conversation_summaries (tables st)
              ++ [mkSummaryRow (conversation_summaries_seq (tables st) + 1) level content
                               sourceIDs (now st)])
             (conversation_summaries_seq (tables st) + 1) (tables st))
          (now st) (faults st)).
Proof.
  intros Hh Hok.
  unfold SummaryStore.Add, bind, wrap. rewrite Exec_healthy by exact Hh.
  unfold insertSummary.
  unfold SummaryStore.GetByID, wrap. rewrite QueryRow_healthy by exact Hh.
  unfold selectSummaryByID. cbn [tables conversation_summaries set_conversation_summaries].
  rewrite find_app, (find_above sum_id _ _ _ Hok) by lia.
  cbn [find sum_id]. rewrite Z.eqb_refl. reflexivity.
Qed.

(** X15.  On a healthy connection, over a table whose ids are below the
    high-water mark, [Add] returns the summary it stored, with the level,
    the content and the source ids it was given and a fresh id; afterwards
    [CountAtLevel] is one higher for that level and as before for every
    other level. *)
Theorem Add_then_CountAtLevel st level content sourceIDs :
  healthy st ->
  SummariesOK (tables st) ->
  exists n st',
    SummaryStore.CountAtLevel level st = (Ok n, st)
    /\ SummaryStore.Add level content sourceIDs st
       = (Ok (mkSummary (conversation_summaries_seq (tables st) + 1) level content
                        sourceIDs (now st)), st')
    /\ SummaryStore.CountAtLevel level st' = (Ok (n + 1)%Z, st')
    /\ (forall other, other <> level ->
          fst (SummaryStore.CountAtLevel other st')
          = fst (SummaryStore.CountAtLevel other st)).
Proof.
  intros Hh Hok. do 2 eexists.
  split; [apply CountAtLevel_healthy; exact Hh|].
  split; [apply Summary_Add_stores; assumption|].
  split.
  - rewrite CountAtLevel_healthy by exact Hh.
    cbn [tables conversation_summaries set_conversation_summaries].
    rewrite filter_app, length_app. cbn [filter sum_level].
    rewrite Z.eqb_refl. cbn [List.length]. do 2 f_equal. lia.
  - intros other Hne. rewrite !CountAtLevel_healthy by exact Hh.
    cbn [fst tables conversation_summaries set_conversation_summaries].
    rewrite filter_app, length_app. cbn [filter sum_level].
    assert (E : (level =? other)%Z = false) by (apply Z.eqb_neq; congruence).
    rewrite E. cbn [List.length]. do 2 f_equal. lia.
Qed.

Lemma summaryFirst_spec x y :
  summaryFirst x y = true <->
  (sum_created_at y < sum_created_at x
   \/ (sum_created_at y = sum_created_at x /\ sum_id y <= sum_id x))%Z.
Proof.
  unfold summaryFirst.
  rewrite orb_true_iff, andb_true_iff, Z.ltb_lt, Z.eqb_eq, Z.leb_le. reflexivity.
Qed.

Lemma List_summaries_healthy st level limit :
  healthy st ->
  SummaryStore.List level limit st
  = (Ok (map scanSummary
           (limitTo (if (limit <=? 0)%Z then 20%Z else limit)
              (orderBy summaryFirst
                 (filter (fun r => (sum_level r =? level)%Z)
                         (conversation_summaries (tables st)))))), st).
Proof.
  intros Hh. unfold SummaryStore.List. rewrite listing_healthy by exact Hh. reflexivity.
Qed.

(** X16.  On a healthy connection, the summary store's [List] returns
    summaries of the level asked for and of no other, the newest first and,
    among summaries of one time stamp, the one with the higher id first; all
    summaries of the level when the limit allows, each once. *)
Theorem List_returns_level_newest_first st level limit :
  healthy st ->
  exists summaries,
    SummaryStore.List level limit st = (Ok summaries, st)
    /\ Forall (fun s => Summary_Level s = level) summaries
    /\ StronglySorted newerThenHigher summaries
    /\ incl summaries (map scanSummary (conversation_summaries (tables st)))
    /\ (List.length (filter (fun r => (sum_level r =? level)%Z)
                            (conversation_summaries (tables st))) <= limitOr 20 limit ->
        Permutation summaries
          (map scanSummary
               (filter (fun r => (sum_level r =? level)%Z)
                       (conversation_summaries (tables st))))).
Proof.
  intros Hh. eexists. split; [apply List_summaries_healthy; exact Hh|].
  assert (Hin : incl (limitTo (if (limit <=? 0)%Z then 20%Z else limit)
                        (orderBy summaryFirst
                           (filter (fun r => (sum_level r =? level)%Z)
                                   (conversation_summaries (tables st)))))
                     (filter (fun r => (sum_level r =? level)%Z)
                             (conversation_summaries (tables st)))).
  { eapply incl_tran; [apply limitTo_incl|].
    intros x Hx. eapply Permutation_in; [apply orderBy_perm | exact Hx]. }
  split; [|split; [|split]].
  - apply Forall_forall. intros s Hs. apply in_map_iff in Hs. destruct Hs as [r [<- Hr]].
    apply Hin, filter_In in Hr. destruct Hr as [_ Hr]. now apply Z.eqb_eq in Hr.
  - eapply sorted_map; [|apply sorted_limitTo, (orderBy_sorted summaryFirst)].
    + intros x y H. apply summaryFirst_spec in H. exact H.
    + intros x y. rewrite !summaryFirst_spec. lia.
    + intros x y z. rewrite !summaryFirst_spec. lia.
  - apply incl_map. intros r Hr. apply Hin, filter_In in Hr. tauto.
  - intros Hlen. apply Permutation_map. rewrite limitTo_all.
    + apply orderBy_perm.
    + rewrite (Permutation_length (orderBy_perm _ _)). exact Hlen.
Qed.

End SummaryFacts.

(* ================================================================= *)
(** ** The context assembler, on any connection and on a healthy one *)

Module BuildFacts.
Import Engine Memory Context Schema Assembly Plan Constraints StoreFacts GraphFacts
       AssemblyFacts ApplyFacts OrderFacts BlockFacts ArchiveFacts GraphMore SummaryFacts.

#[local] Instance unchanged_cumulative : Cumulative (fun before after => after = before).
Proof. split; [reflexivity | intros t1 t2 t3 H1 H2; congruence]. Qed.

Section Reads.
Context (R : Tables -> Tables -> Prop) `{Cumulative R}.

Lemma steps_Query {A} (sel : Tables -> Result (list A)) : steps R (Query sel).
Proof.
  intros st r st'. unfold Query.
  pose proof (next_fault_tables st) as Ht.
  destruct (next_fault st) as [f st1]. cbn [snd] in Ht.
  destruct f; try destruct (sel (tables st1)); intros [= _ <-];
    rewrite Ht; apply cumulative_refl.
Qed.

Lemma steps_scanAll {A B} (scan : A -> B) rows : steps R (scanAll scan rows).
Proof.
  unfold scanAll. destruct (broken rows); [apply steps_fail | apply steps_ret]; exact _.
Qed.

Lemma steps_listing {A B} format (sel : Tables -> Result (list A)) (scan : A -> B) :
  steps R (rows <- wrap format [] (Query sel) ;; scanAll scan rows).
Proof.
  apply steps_bind; [exact _ | apply steps_wrap, steps_Query | intros; apply steps_scanAll].
Qed.

Lemma steps_scanEntities entities :
  forall seen allRelations, steps R (scanEntities entities seen allRelations).
Proof.
  induction entities as [|e entities IH]; intros seen allRelations; cbn [scanEntities].
  - apply steps_ret. exact _.
  - apply steps_bind; [exact _ | apply steps_try, steps_listing|].
    intros [rels|err]; [|apply IH].
    destruct (appendUnseen rels seen allRelations). apply IH.
Qed.

Lemma steps_Build : steps R Build.
Proof.
  unfold Build.
  repeat (apply steps_bind; [exact _ | apply steps_wrap, steps_listing | intros]).
  apply steps_bind; [exact _ | apply steps_scanEntities | intros; apply steps_ret; exact _].
Qed.

End Reads.

Lemma listing_inv {A B} format (sel : Tables -> Result (list A)) (scan : A -> B) st l st1 :
  (rows <- wrap format [] (Query sel) ;; scanAll scan rows) st = (Ok l, st1) ->
  exists rows, sel (tables st) = Ok rows /\ l = map scan rows.
Proof.
  unfold bind, wrap, Query, scanAll, next_fault.
  destruct (faults st) as [|[| |] fs]; cbn [tables];
    destruct (sel (tables st)) as [rows|e]; cbn; try discriminate;
    intros [= <- _]; eauto.
Qed.

Lemma dedupFrom_NoDup rels :
  forall ids,
    NoDup (map Relation_ID (dedupFrom ids rels))
    /\ forall r, In r (dedupFrom ids rels) -> ~ In (Relation_ID r) ids.
Proof.
  induction rels as [|r rels IH]; intros ids; cbn [dedupFrom].
  - split; [constructor | intros r []].
  - destruct (existsb (fun id => (id =? Relation_ID r)%Z) ids) eqn:E; [apply IH|].
    destruct (IH (Relation_ID r :: ids)) as [Hnd Hout].
    split.
    + cbn [map]. constructor; [|exact Hnd].
      intros Hin. apply in_map_iff in Hin. destruct Hin as [x [Hx Hin]].
      apply (Hout x Hin). left. congruence.
    + intros x [<-|Hx].
      * intros Hin. assert (existsb (fun id => (id =? Relation_ID r)%Z) ids = true).
        { apply existsb_exists. exists (Relation_ID r). split; [exact Hin | apply Z.eqb_refl]. }
        congruence.
      * intros Hin. apply (Hout x Hx). now right.
Qed.

(** X17.  On any connection, whatever calls it refuses, [Build] changes no
    table, and a payload it returns holds blocks of type "core" only, at
    most five summaries, all of level 0, and no relation twice. *)
Theorem Build_reads_only_and_repeats_no_relation st :
  tables (snd (Build st)) = tables st
  /\ match fst (Build st) with
     | Ok p =>
         Forall (fun b => Block_BlockType b = "core") (CoreBlocks p)
         /\ Forall (fun s => Summary_Level s = 0%Z) (Summaries p)
         /\ List.length (Summaries p) <= 5
         /\ NoDup (map Relation_ID (Graph p))
     | Error _ => True
     end.
Proof.
  split.
  - destruct (Build st) as [r st'] eqn:E.
    exact (steps_Build (fun before after => after = before) st r st' E).
  - unfold Build, bind, wrap.
    destruct (BlockStore.List "core" st) as [[coreBlocks|e] st1] eqn:E1; [|exact I].
    destruct (SummaryStore.List 0 5 st1) as [[recentSummaries|e] st2] eqn:E2; [|exact I].
    destruct (GraphStore.ListEntities "" st2) as [[entities|e] st3]; [|exact I].
    rewrite (scanEntities_spec entities [] [] [] st3 agree_empty).
    cbn [fst CoreBlocks Summaries Graph app].
    apply listing_inv in E1, E2.
    destruct E1 as [rows1 [S1 ->]]. destruct E2 as [rows2 [S2 ->]].
    rewrite selectBlocks_ofType in S1. injection S1 as <-.
    unfold selectSummaries in S2. injection S2 as <-.
    unfold CoreBlocks, Summaries, Graph.
    split; [|split; [|split]].
    + apply Forall_forall. intros b Hb. apply in_map_iff in Hb. destruct Hb as [r [<- Hr]].
      eapply Permutation_in in Hr; [|apply orderBy_perm].
      apply filter_In in Hr. destruct Hr as [_ Hr]. unfold ofType in Hr. cbn in Hr.
      now apply String.eqb_eq in Hr.
    + apply Forall_forall. intros s Hs. apply in_map_iff in Hs. destruct Hs as [r [<- Hr]].
      apply limitTo_incl in Hr. eapply Permutation_in in Hr; [|apply orderBy_perm].
      apply filter_In in Hr. destruct Hr as [_ Hr]. now apply Z.eqb_eq in Hr.
    + rewrite length_map. apply (limitTo_length 5). lia.
    + apply dedupFrom_NoDup.
Qed.

Lemma relationsOf_perm t name :
  GraphOK t ->
  Permutation
    (map scanRelation
       (orderBy (newestFirst joinedCreatedAt)
          (filter (fun j => let '(_, s, o) := j in
                            (ent_name s =? name) || (ent_name o =? name))
                  (joinRelations t))))
    (map (relationOf t) (filter (involves t name) (relations t))).
Proof.
  intros Hok.
  rewrite (Permutation_map scanRelation (orderBy_perm _ _)).
  rewrite (joinRelations_joined _ Hok), filter_map_swap, map_map.
  reflexivity.
Qed.

Lemma queryAll_healthy ents st :
  healthy st ->
  queryAll ents st
  = (map (fun e => fst (GraphStore.QueryEntity (Entity_Name e) st)) ents, st).
Proof.
  intros Hh. induction ents as [|e ents IH]; cbn [queryAll map]; [reflexivity|].
  rewrite (QueryEntity_healthy st _ Hh), IH. reflexivity.
Qed.

Lemma dedupFrom_incl rels : forall ids, incl (dedupFrom ids rels) rels.
Proof.
  induction rels as [|r rels IH]; intros ids; cbn [dedupFrom]; [apply incl_refl|].
  destruct (existsb _ ids).
  - apply incl_tl, IH.
  - intros x [<-|Hx]; [now left | right; eapply IH; eauto].
Qed.

Lemma dedupFrom_covers rels :
  forall ids x, In x rels ->
    In (Relation_ID x) ids
    \/ exists y, In y (dedupFrom ids rels) /\ Relation_ID y = Relation_ID x.
Proof.
  induction rels as [|r rels IH]; intros ids x Hx; [contradiction|].
  cbn [dedupFrom].
  destruct (existsb (fun id => (id =? Relation_ID r)%Z) ids) eqn:E.
  - destruct Hx as [<-|Hx]; [|now apply IH].
    left. apply existsb_exists in E. destruct E as [id [Hid E]].
    apply Z.eqb_eq in E. now subst.
  - destruct Hx as [<-|Hx].
    + right. exists r. split; [now left | reflexivity].
    + destruct (IH (Relation_ID r :: ids) x Hx) as [[E'|Hin]|[y [Hy Hid]]].
      * right. exists r. split; [now left | exact E'].
      * now left.
      * right. exists y. split; [now right | exact Hid].
Qed.

(** X18.  On a healthy connection over tables that satisfy the schema,
    [Build] returns a payload: the blocks [List] returns for "core", the
    summaries the summary store's [List] returns for level 0 and limit 5,
    and every relation of the store exactly once. *)
Theorem Build_on_healthy_connection_is_complete st :
  healthy st ->
  GraphOK (tables st) ->
  exists p,
    Build st = (Ok p, st)
    /\ BlockStore.List "core" st = (Ok (CoreBlocks p), st)
    /\ SummaryStore.List 0 5 st = (Ok (Summaries p), st)
    /\ Permutation (Graph p) (map (relationOf (tables st)) (relations (tables st))).
Proof.
  intros Hh Hok.
  set (t := tables st).
  set (f := fun e => map scanRelation
                       (orderBy (newestFirst joinedCreatedAt)
                          (filter (fun j => let '(_, s, o) := j in
                                            (ent_name s =? Entity_Name e)
                                            || (ent_name o =? Entity_Name e))
                                  (joinRelations t)))).
  set (ents := map scanEntity
                 (orderBy (fun x y => String.leb (ent_name x) (ent_name y))
                    (filter (ofEntityType "") (entities t)))).
  assert (Hbuild : Build st
            = (Ok (mkPayload
                     (map scanBlock
                        (orderBy (fun x y => String.leb (blk_label x) (blk_label y))
                           (filter (ofType "core") (memory_blocks t))))
                     (map scanSummary
                        (limitTo 5 (orderBy summaryFirst
                                      (filter (fun r => (sum_level r =? 0)%Z)
                                              (conversation_summaries t)))))
                     (dedupByID (flat_map f ents))), st)).
  { unfold Build, bind, wrap.
    rewrite (BlockStore_List_healthy st "core" Hh).
    rewrite (List_summaries_healthy st 0 5 Hh).
    rewrite (ListEntities_healthy st "" Hh).
    rewrite (scanEntities_spec _ [] [] [] st agree_empty).
    rewrite (queryAll_healthy _ st Hh). cbn [fst snd app].
    unfold ret, dedupByID, succeeded.
    rewrite flat_map_concat_map, map_map, (flat_map_concat_map f).
    fold t. fold ents.
    replace (map (fun x => match fst (GraphStore.QueryEntity (Entity_Name x) st) with
                           | Ok rels => rels
                           | Error _ => []
                           end) ents)
      with (map f ents); [reflexivity|].
    apply map_ext. intros e. now rewrite (QueryEntity_healthy st _ Hh). }
  eexists. split; [exact Hbuild|].
  split; [apply BlockStore_List_healthy; exact Hh|].
  split; [apply List_summaries_healthy; exact Hh|].
  unfold Graph.
  assert (HL : forall x, In x (flat_map f ents) <->
                 exists e r, In e (entities t) /\ In r (relations t)
                             /\ involves t (ent_name e) r = true
                             /\ x = relationOf t r).
  { intros x. rewrite in_flat_map. split.
    - intros [e [He Hx]]. unfold ents in He. apply in_map_iff in He.
      destruct He as [row [<- Hrow]].
      eapply Permutation_in in Hrow; [|apply orderBy_perm].
      apply filter_In in Hrow. destruct Hrow as [Hrow _].
      unfold f in Hx. eapply Permutation_in in Hx; [|apply (relationsOf_perm t _ Hok)].
      apply in_map_iff in Hx. destruct Hx as [r [<- Hr]].
      apply filter_In in Hr. exists row, r. tauto.
    - intros [e [r [He [Hr [Hinv ->]]]]]. exists (scanEntity e). split.
      + unfold ents. apply in_map.
        eapply Permutation_in; [symmetry; apply orderBy_perm|].
        apply filter_In. split; [exact He | reflexivity].
      + unfold f. eapply Permutation_in; [symmetry; apply (relationsOf_perm t _ Hok)|].
        apply in_map. apply filter_In. split; [exact Hr | exact Hinv]. }
  apply NoDup_Permutation.
  - apply (NoDup_map_inv Relation_ID). apply dedupFrom_NoDup.
  - apply (NoDup_map_inv Relation_ID). rewrite map_map. apply (rel_ids_unique _ Hok).
  - intros x. split.
    + intros Hx. apply dedupFrom_incl, HL in Hx.
      destruct Hx as [e [r [_ [Hr [_ ->]]]]]. now apply in_map.
    + intros Hx. apply in_map_iff in Hx. destruct Hx as [r [<- Hr]].
      pose proof (rel_references _ Hok) as Hfk. rewrite Forall_forall in Hfk.
      destruct (Hfk r Hr) as [Hrs _].
      destruct (entityRow_of_id t _ (ent_ids_unique _ Hok) Hrs) as [Hin _].
      assert (HinL : In (relationOf t r) (flat_map f ents)).
      { apply HL. exists (entityRow t (rel_subject_id r)), r.
        repeat split; auto. unfold involves, entityName.
        now rewrite String.eqb_refl. }
      destruct (dedupFrom_covers _ [] _ HinL) as [[]|[y [Hy Hid]]].
      assert (Hy' := Hy). apply dedupFrom_incl, HL in Hy'.
      destruct Hy' as [e' [r' [_ [Hr' [_ ->]]]]].
      assert (r' = r) by (apply (key_injective rel_id (relations t)); auto;
                          apply (rel_ids_unique _ Hok)).
      subst r'. exact Hy.
Qed.

End BuildFacts.

(* ================================================================= *)
(** ** The apply phase on a healthy connection *)

Module PipelineFacts.
Import Engine Memory Embeddings Ingest Schema Plan Constraints Outcome StoreFacts
       GraphFacts ApplyFacts OrderFacts BlockFacts ArchiveFacts GraphMore BuildFacts.

(** *** One write at a time *)

Lemma GetByLabel_healthy st label :
  healthy st ->
  BlockStore.GetByLabel label st
  = match selectBlockByLabel label (tables st) with
    | Some b => (Ok b, st)
    | None => (Error (Wrapf "get block %q: %w" [ArgS label] ErrNoRows), st)
    end.
Proof.
  intros Hh. unfold BlockStore.GetByLabel, wrap. rewrite QueryRow_healthy by exact Hh.
  destruct (selectBlockByLabel label (tables st)); reflexivity.
Qed.

Lemma applyBlockUpdate_healthy st bu :
  healthy st ->
  exists st',
    applyBlockUpdate bu st = (Ok tt, st')
    /\ healthy st'
    /\ (exists b',
          selectBlockByLabel (BlockUpdate_Label bu) (tables st') = Some b'
          /\ Block_Content b' = BlockUpdate_Content bu
          /\ Block_BlockType b'
             = match selectBlockByLabel (BlockUpdate_Label bu) (tables st) with
               | Some b => Block_BlockType b
               | None => "core"
               end)
    /\ (forall other, other <> BlockUpdate_Label bu ->
          selectBlockByLabel other (tables st') = selectBlockByLabel other (tables st)).
Proof.
  intros Hh. unfold applyBlockUpdate, bind, try.
  rewrite (GetByLabel_healthy st _ Hh).
  destruct (selectBlockByLabel (BlockUpdate_Label bu) (tables st)) as [b|] eqn:E.
  - destruct (Update_existing_block st _ (BlockUpdate_Content bu) b Hh E)
      as [st' [EU [Hnew [_ [_ [Hother Hh']]]]]].
    exists st'. unfold wrap. rewrite EU.
    split; [reflexivity|]. split; [exact Hh'|]. split; [|exact Hother].
    eexists. split; [exact Hnew|]. split; reflexivity.
  - destruct (Create_new_label st _ "core" (BlockUpdate_Content bu) Hh E)
      as [b [st' [EC [Hh' [Hnew Hother]]]]].
    exists st'. unfold wrap. rewrite EC.
    split; [reflexivity|]. split; [exact Hh'|]. split; [|exact Hother].
    eexists. split; [exact Hnew|]. split; reflexivity.
Qed.

Lemma storeFact_healthy {P} `{Embeddings.Provider P} (cfg : Config P) f st :
  healthy st ->
  exists st',
    storeFact cfg f st = (Ok tt, st')
    /\ healthy st'
    /\ archival (tables st')
       = archival (tables st)
         ++ [mkArchivalRow (archival_seq (tables st) + 1) (Fact_Content f)
                           (GoStrings.Join (Fact_Tags f) ",") (embedFact cfg f) (now st)].
Proof.
  intros Hh. unfold storeFact, bind, wrap.
  destruct (Add_healthy st (Fact_Content f) (Fact_Tags f) (embedFact cfg f) Hh)
    as [entry ->].
  eexists. split; [reflexivity|]. split; [exact Hh | reflexivity].
Qed.

Lemma storeTriplet_healthy t st :
  healthy st ->
  exists es eo r st',
    storeTriplet t st = (Ok tt, st')
    /\ healthy st'
    /\ find (fun x => ent_name x =? Triplet_Subject t) (entities (tables st')) = Some es
    /\ find (fun x => ent_name x =? Triplet_Object t) (entities (tables st')) = Some eo
    /\ In r (relations (tables st'))
    /\ relKey r = (ent_id es, Triplet_Predicate t, ent_id eo)
    /\ incl (relations (tables st)) (relations (tables st'))
    /\ (forall n x, find (fun x => ent_name x =? n) (entities (tables st)) = Some x ->
                    find (fun x => ent_name x =? n) (entities (tables st')) = Some x).
Proof.
  intros Hh.
  destruct (AddRelation_healthy st (Triplet_Subject t) (Triplet_Predicate t)
              (Triplet_Object t) "" Hh)
    as [es [eo [st' [E [Hh' [Hs [Ho [[r [Hr [Hk _]]] [_ [_ [Hincl Hstable]]]]]]]]]]].
  exists es, eo, r, st'. unfold storeTriplet, wrap. rewrite E. auto 10.
Qed.

Lemma summaryAdd_healthy st level content sourceIDs :
  healthy st ->
  exists s st',
    SummaryStore.Add level content sourceIDs st = (Ok s, st')
    /\ healthy st'
    /\ conversation_summaries (tables st')
       = conversation_summaries (tables st)
         ++ [mkSummaryRow (conversation_summaries_seq (tables st) + 1) level content
                          sourceIDs (now st)].
Proof.
  intros Hh. unfold SummaryStore.Add, bind, wrap. rewrite Exec_healthy by exact Hh.
  unfold insertSummary.
  unfold SummaryStore.GetByID, wrap. rewrite QueryRow_healthy by exact Hh.
  unfold selectSummaryByID. cbn [tables conversation_summaries set_conversation_summaries].
  rewrite find_app.
  destruct (find (fun r => (sum_id r =? conversation_summaries_seq (tables st) + 1)%Z)
                 (conversation_summaries (tables st))) as [r|].
  - do 2 eexists. split; [reflexivity|]. split; [exact Hh | reflexivity].
  - cbn [find sum_id]. rewrite Z.eqb_refl.
    do 2 eexists. split; [reflexivity|]. split; [exact Hh | reflexivity].
Qed.

Lemma storeSummary_healthy summary st :
  healthy st ->
  exists st',
    storeSummary summary st = (Ok tt, st')
    /\ healthy st'
    /\ conversation_summaries (tables st')
       = conversation_summaries (tables st)
         ++ (if summary =? "" then []
             else [mkSummaryRow (conversation_summaries_seq (tables st) + 1) 0 summary ""
                                (now st)]).
Proof.
  intros Hh. unfold storeSummary. destruct (summary =? "").
  - exists st. split; [reflexivity|]. split; [exact Hh | now rewrite app_nil_r].
  - destruct (summaryAdd_healthy st 0 summary "" Hh) as [s [st' [E [Hh' Hrows]]]].
    exists st'. unfold bind, wrap. rewrite E. auto.
Qed.

(** *** The four loops *)

Lemma forEach_healthy {A} (xs : list A) (body : A -> M unit) :
  (forall x st, healthy st -> exists st', body x st = (Ok tt, st') /\ healthy st') ->
  forall st, healthy st ->
  exists st', forEach xs body st = (Ok tt, st') /\ healthy st'.
Proof.
  intros Hbody. induction xs as [|x xs IH]; intros st Hh; cbn [forEach].
  - exists st. split; [reflexivity | exact Hh].
  - destruct (Hbody x st Hh) as [st1 [E1 Hh1]].
    destruct (IH st1 Hh1) as [st2 [E2 Hh2]].
    exists st2. unfold bind. rewrite E1. auto.
Qed.

Lemma phases_healthy {P} `{Embeddings.Provider P} (cfg : Config P) result st :
  healthy st ->
  exists st1 st2 st3 st4,
    forEach (BlockUpdates result) applyBlockUpdate st = (Ok tt, st1) /\ healthy st1
    /\ forEach (Facts result) (storeFact cfg) st1 = (Ok tt, st2) /\ healthy st2
    /\ forEach (Triplets result) storeTriplet st2 = (Ok tt, st3) /\ healthy st3
    /\ storeSummary (Summary result) st3 = (Ok tt, st4) /\ healthy st4
    /\ applyResult cfg result st = (Ok result, st4).
Proof.
  intros Hh.
  destruct (forEach_healthy (BlockUpdates result) applyBlockUpdate) with (st := st)
    as [st1 [E1 Hh1]]; [|exact Hh|].
  { intros bu s Hs. destruct (applyBlockUpdate_healthy s bu Hs) as [s' [E [Hs' _]]]. eauto. }
  destruct (forEach_healthy (Facts result) (storeFact cfg)) with (st := st1)
    as [st2 [E2 Hh2]]; [|exact Hh1|].
  { intros f s Hs. destruct (storeFact_healthy cfg f s Hs) as [s' [E [Hs' _]]]. eauto. }
  destruct (forEach_healthy (Triplets result) storeTriplet) with (st := st2)
    as [st3 [E3 Hh3]]; [|exact Hh2|].
  { intros t s Hs.
    destruct (storeTriplet_healthy t s Hs) as [es [eo [r [s' [E [Hs' _]]]]]]. eauto. }
  destruct (storeSummary_healthy (Summary result) st3 Hh3) as [st4 [E4 [Hh4 _]]].
  exists st1, st2, st3, st4.
  repeat (split; [assumption|]).
  unfold applyResult, bind. now rewrite E1, E2, E3, E4.
Qed.

(** On a connection that refuses no call the apply phase cannot fail,
    whatever the extraction result holds. *)
Lemma applyResult_healthy {P} `{Embeddings.Provider P} (cfg : Config P) result st :
  healthy st ->
  exists st', applyResult cfg result st = (Ok result, st') /\ healthy st'.
Proof.
  intros Hh.
  destruct (phases_healthy cfg result st Hh)
    as [st1 [st2 [st3 [st4 [_ [_ [_ [_ [_ [_ [_ [Hh4 E]]]]]]]]]]]].
  eauto.
Qed.

(** X19.  A block update treats every failure of its lookup as "no such
    block": when the lookup of a label that has a block is refused by the
    engine and the call after it is served, the update is not made;
    [Create] is tried instead and fails on the UNIQUE constraint, and that
    conflict is the error of the block update.  The tables stay as they
    were. *)
Theorem refused_lookup_turns_update_into_conflict bu b st refusal rest :
  selectBlockByLabel (BlockUpdate_Label bu) (tables st) = Some b ->
  refusal <> Healthy ->
  faults st = refusal :: Healthy :: rest ->
  applyBlockUpdate bu st
  = (Error (Wrapf "create block %q: %w" [ArgS (BlockUpdate_Label bu)]
              (Wrapf "create block: %w" [] (ErrUnique "memory_blocks.label"))),
     mkDB (tables st) (now st) rest).
Proof.
  intros Hsel Hrefusal Hfaults.
  assert (Hex : existsb (fun r => blk_label r =? BlockUpdate_Label bu)
                        (memory_blocks (tables st)) = true).
  { unfold selectBlockByLabel in Hsel.
    destruct (find (fun r => blk_label r =? BlockUpdate_Label bu)
                   (memory_blocks (tables st))) as [r|] eqn:E; [|discriminate].
    eapply find_some_existsb; eauto. }
  unfold applyBlockUpdate, bind, try, BlockStore.GetByLabel, wrap, QueryRow, next_fault.
  rewrite Hfaults.
  destruct refusal; [congruence| |];
    unfold BlockStore.Create, bind, wrap, Exec, next_fault; cbn [faults tables now];
    unfold insertBlock; rewrite Hex; reflexivity.
Qed.

(** *** What a phase does not touch *)

#[local] Instance untouched_cumulative {A} (column : Tables -> A) :
  Cumulative (untouched column).
Proof. split; unfold untouched; [reflexivity | intros; congruence]. Qed.

Ltac frame :=
  repeat (intros;
          first [ match goal with |- Cumulative _ => exact _ end
                | apply steps_ret | apply steps_fail | apply steps_QueryRow
                | apply steps_try | apply steps_wrap | apply steps_bind
                | apply steps_Exec ]);
  intros;
  unfold untouched, insertBlock, updateBlock, insertArchival, insertEntityOrIgnore,
         insertRelationOrIgnore, insertSummary in *;
  repeat match goal with
         | H : (if ?c then _ else _) = Ok _ |- _ => destruct c; try discriminate H
         | H : (let id := _ in _) = Ok _ |- _ => cbv zeta in H
         | H : Ok _ = Ok _ |- _ => injection H as <- <-
         end;
  auto.

Section Frames.
Context {A : Type} (column : Tables -> A).

Lemma blocks_frame bu :
  (forall rows seq t, column (set_memory_blocks rows seq t) = column t) ->
  steps (untouched column) (applyBlockUpdate bu).
Proof.
  intros Hcol. unfold applyBlockUpdate. apply steps_bind; [exact _ | |].
  - unfold BlockStore.GetByLabel. frame.
  - intros [b|e]; unfold BlockStore.Update, BlockStore.Create, BlockStore.GetByLabel,
                         BlockStore.GetByID; frame.
Qed.

Lemma facts_frame {P} `{Embeddings.Provider P} (cfg : Config P) f :
  (forall rows seq t, column (set_archival rows seq t) = column t) ->
  steps (untouched column) (storeFact cfg f).
Proof.
  intros Hcol. unfold storeFact, ArchivalStore.Add, ArchivalStore.GetByID. frame.
Qed.

Lemma triplets_frame t :
  (forall rows seq t, column (set_entities rows seq t) = column t) ->
  (forall rows seq t, column (set_relations rows seq t) = column t) ->
  steps (untouched column) (storeTriplet t).
Proof.
  intros Hent Hrel.
  unfold storeTriplet, GraphStore.AddRelation, GraphStore.EnsureEntity. frame.
Qed.

Lemma summary_frame summary :
  (forall rows seq t, column (set_conversation_summaries rows seq t) = column t) ->
  steps (untouched column) (storeSummary summary).
Proof.
  intros Hcol. unfold storeSummary. destruct (summary =? ""); [frame|].
  unfold SummaryStore.Add, SummaryStore.GetByID. frame.
Qed.

End Frames.

(** *** Facts *)



(** X21.  On a healthy connection the apply phase stores the summary of
    the result as one new level-0 summary without source ids, and stores no
    summary at all when the summary of the result is empty. *)
Theorem apply_phase_stores_summary_unless_empty
    {P} `{Embeddings.Provider P} (cfg : Config P) result st :
  healthy st ->
  exists st',
    applyResult cfg result st = (Ok result, st')
    /\ map summaryColumns (conversation_summaries (tables st'))
       = map summaryColumns (conversation_summaries (tables st))
         ++ (if Summary result =? "" then [] else [(0%Z, Summary result, "")]).
Proof.
  intros Hh.
  destruct (phases_healthy cfg result st Hh)
    as [st1 [st2 [st3 [st4 [E1 [Hh1 [E2 [Hh2 [E3 [Hh3 [E4 [Hh4 E]]]]]]]]]]]].
  exists st4. split; [exact E|].
  assert (F1 : conversation_summaries (tables st1) = conversation_summaries (tables st)).
  { refine (steps_forEach (untouched conversation_summaries) _ _ _ st _ st1 E1).
    intros bu. now apply blocks_frame. }
  assert (F2 : conversation_summaries (tables st2) = conversation_summaries (tables st1)).
  { refine (steps_forEach (untouched conversation_summaries) _ _ _ st1 _ st2 E2).
    intros f. now apply facts_frame. }
  assert (F3 : conversation_summaries (tables st3) = conversation_summaries (tables st2)).
  { refine (steps_forEach (untouched conversation_summaries) _ _ _ st2 _ st3 E3).
    intros t. now apply triplets_frame. }
  destruct (storeSummary_healthy (Summary result) st3 Hh3) as [st4' [E4' [_ Hrows]]].
  rewrite E4 in E4'. injection E4' as <-.
  rewrite Hrows, F3, F2, F1, map_app.
  destruct (Summary result =? ""); reflexivity.
Qed.

(** *** Block updates *)

Lemma blocks_updated updates :
  forall st st',
    healthy st ->
    forEach updates applyBlockUpdate st = (Ok tt, st') ->
    forall label,
      option_map Block_Content (selectBlockByLabel label (tables st'))
      = match lastContent label updates with
        | Some c => Some c
        | None => option_map Block_Content (selectBlockByLabel label (tables st))
        end
      /\ option_map Block_BlockType (selectBlockByLabel label (tables st'))
         = match selectBlockByLabel label (tables st) with
           | Some b => Some (Block_BlockType b)
           | None => match lastContent label updates with
                     | Some _ => Some "core"
                     | None => None
                     end
           end.
Proof.
  induction updates as [|bu updates IH]; intros st st' Hh; cbn [forEach lastContent].
  - intros [= <-] label. destruct (selectBlockByLabel label (tables st)); auto.
  - destruct (applyBlockUpdate_healthy st bu Hh)
      as [st1 [E1 [Hh1 [[b' [Hnew [Hc Hty]]] Hother]]]].
    unfold bind. rewrite E1. intros E label.
    destruct (IH st1 st' Hh1 E label) as [IHc IHt]. rewrite IHc, IHt.
    destruct (String.eqb_spec (BlockUpdate_Label bu) label) as [<-|Hne].
    + rewrite Hnew. cbn [option_map]. rewrite Hc, Hty. split.
      * destruct (lastContent _ updates); reflexivity.
      * destruct (selectBlockByLabel _ (tables st)); [reflexivity|].
        destruct (lastContent _ updates); reflexivity.
    + rewrite (Hother label) by congruence.
      destruct (lastContent label updates); split; reflexivity.
Qed.

(** X22.  On a healthy connection, after the apply phase the block of a
    label the result updates holds the content of the last update of that
    label, is of type "core" if it did not exist and of the type it had if
    it did; every other block has the content and the type it had. *)
Theorem apply_phase_upserts_blocks
    {P} `{Embeddings.Provider P} (cfg : Config P) result st :
  healthy st ->
  exists st',
    applyResult cfg result st = (Ok result, st')
    /\ forall label,
         option_map Block_Content (selectBlockByLabel label (tables st'))
         = match lastContent label (BlockUpdates result) with
           | Some c => Some c
           | None => option_map Block_Content (selectBlockByLabel label (tables st))
           end
         /\ option_map Block_BlockType (selectBlockByLabel label (tables st'))
            = match selectBlockByLabel label (tables st) with
              | Some b => Some (Block_BlockType b)
              | None => match lastContent label (BlockUpdates result) with
                        | Some _ => Some "core"
                        | None => None
                        end
              end.
Proof.
  intros Hh.
  destruct (phases_healthy cfg result st Hh)
    as [st1 [st2 [st3 [st4 [E1 [Hh1 [E2 [Hh2 [E3 [Hh3 [E4 [Hh4 E]]]]]]]]]]]].
  exists st4. split; [exact E|].
  assert (F2 : memory_blocks (tables st2) = memory_blocks (tables st1)).
  { refine (steps_forEach (untouched memory_blocks) _ _ _ st1 _ st2 E2).
    intros f. now apply facts_frame. }
  assert (F3 : memory_blocks (tables st3) = memory_blocks (tables st2)).
  { refine (steps_forEach (untouched memory_blocks) _ _ _ st2 _ st3 E3).
    intros t. now apply triplets_frame. }
  assert (F4 : memory_blocks (tables st4) = memory_blocks (tables st3)).
  { refine (summary_frame memory_blocks _ _ st3 _ st4 E4). reflexivity. }
  intros label.
  replace (selectBlockByLabel label (tables st4))
    with (selectBlockByLabel label (tables st1))
    by (unfold selectBlockByLabel; now rewrite F4, F3, F2).
  exact (blocks_updated _ st st1 Hh E1 label).
Qed.

(** *** Triplets *)

Lemma triplets_stored ts :
  forall st st',
    healthy st ->
    forEach ts storeTriplet st = (Ok tt, st') ->
    incl (relations (tables st)) (relations (tables st'))
    /\ (forall n x, find (fun x => ent_name x =? n) (entities (tables st)) = Some x ->
                    find (fun x => ent_name x =? n) (entities (tables st')) = Some x)
    /\ forall t, In t ts ->
         exists es eo r,
           find (fun x => ent_name x =? Triplet_Subject t) (entities (tables st')) = Some es
           /\ find (fun x => ent_name x =? Triplet_Object t) (entities (tables st')) = Some eo
           /\ In r (relations (tables st'))
           /\ relKey r = (ent_id es, Triplet_Predicate t, ent_id eo).
Proof.
  induction ts as [|t ts IH]; intros st st' Hh; cbn [forEach].
  - intros [= <-]. split; [apply incl_refl|]. split; [auto | intros t []].
  - destruct (storeTriplet_healthy t st Hh)
      as [es [eo [r [st1 [E1 [Hh1 [Hs [Ho [Hr [Hk [Hincl Hstable]]]]]]]]]]].
    unfold bind. rewrite E1. intros E.
    destruct (IH st1 st' Hh1 E) as [Hincl' [Hstable' Hall]].
    split; [eapply incl_tran; eauto|]. split; [auto|].
    intros t' [<-|Ht']; [|now apply Hall].
    exists es, eo, r. auto 6.
Qed.

(** X23.  On a healthy connection, after the apply phase every triplet
    of the result is a relation of the graph: [QueryEntity] reports it for
    its subject and for its object, under the names and the predicate of the
    triplet. *)
Theorem apply_phase_stores_every_triplet
    {P} `{Embeddings.Provider P} (cfg : Config P) result st :
  healthy st ->
  exists st',
    applyResult cfg result st = (Ok result, st')
    /\ forall t, In t (Triplets result) ->
         exists r,
           In r (returned (GraphStore.QueryEntity (Triplet_Subject t) st'))
           /\ In r (returned (GraphStore.QueryEntity (Triplet_Object t) st'))
           /\ Relation_Subject r = Triplet_Subject t
           /\ Relation_Predicate r = Triplet_Predicate t
           /\ Relation_Object r = Triplet_Object t.
Proof.
  intros Hh.
  destruct (phases_healthy cfg result st Hh)
    as [st1 [st2 [st3 [st4 [E1 [Hh1 [E2 [Hh2 [E3 [Hh3 [E4 [Hh4 E]]]]]]]]]]]].
  exists st4. split; [exact E|].
  assert (F4e : entities (tables st4) = entities (tables st3)).
  { refine (summary_frame entities _ _ st3 _ st4 E4). reflexivity. }
  assert (F4r : relations (tables st4) = relations (tables st3)).
  { refine (summary_frame relations _ _ st3 _ st4 E4). reflexivity. }
  destruct (triplets_stored _ st2 st3 Hh2 E3) as [_ [_ Hall]].
  intros t Ht. destruct (Hall t Ht) as [es [eo [r [Hs [Ho [Hr Hk]]]]]].
  rewrite <- F4e in Hs, Ho. rewrite <- F4r in Hr.
  pose proof (find_some _ _ Hs) as [_ Hns]. apply String.eqb_eq in Hns.
  pose proof (find_some _ _ Ho) as [_ Hno]. apply String.eqb_eq in Hno.
  assert (Hp : rel_predicate r = Triplet_Predicate t) by (injection Hk; auto).
  assert (Hj : In (r, es, eo) (joinRelations (tables st4))).
  { apply joined_in; rewrite ?Hns, ?Hno, ?Hp; assumption. }
  exists (scanRelation (r, es, eo)).
  unfold returned. rewrite !(QueryEntity_healthy st4 _ Hh4). cbn [fst].
  split; [|split; [|auto]].
  - apply in_map. eapply Permutation_in; [symmetry; apply orderBy_perm|].
    apply filter_In. split; [exact Hj|]. rewrite Hns, String.eqb_refl. reflexivity.
  - apply in_map. eapply Permutation_in; [symmetry; apply orderBy_perm|].
    apply filter_In. split; [exact Hj|]. rewrite Hno, String.eqb_refl. apply orb_true_r.
Qed.

(** *** The whole of [Run] *)

Lemma extracted_healthy {P} `{Embeddings.Provider P} (cfg : Config P) r st :
  healthy st ->
  match r with
  | Ok result => exists st', extracted cfg r st = (Ok result, st') /\ healthy st'
  | Error e => extracted cfg r st = (Error (Wrapf "extract: %w" [] e), st)
  end.
Proof.
  intros Hh. unfold extracted, bind, wrap, lift. destruct r as [result|e]; [|reflexivity].
  destruct (phases_healthy cfg result st Hh)
    as [st1 [st2 [st3 [st4 [_ [_ [_ [_ [_ [_ [_ [Hh4 E]]]]]]]]]]]].
  eauto.
Qed.

(** X24.  On a connection that refuses no call, [Run] is all or nothing:
    when it fails (no configuration, an unknown provider, no API key, a
    backend that fails or answers with text that does not parse) it has
    written nothing, and the store is as it was. *)
Theorem Run_fails_only_before_writing
    {P} `{Embeddings.Provider P} (w : World) text (cfg : option (Config P)) st e :
  healthy st ->
  fst (Run w text cfg st) = Error e ->
  snd (Run w text cfg st) = st.
Proof.
  intros Hh. unfold Run.
  assert (Hex : forall cfg' r, fst (extracted cfg' r st) = Error e ->
                               snd (extracted cfg' r st) = st).
  { intros cfg' r. pose proof (extracted_healthy cfg' r st Hh) as Hr.
    destruct r as [result|err].
    - destruct Hr as [st1 [-> _]]. discriminate.
    - rewrite Hr. reflexivity. }
  destruct cfg as [cfg|]; [|reflexivity].
  destruct (Provider cfg =? "claude"); [apply Hex|].
  destruct (Provider cfg =? "anthropic").
  - cbv zeta.
    destruct ((if APIKey cfg =? "" then getenv w "ANTHROPIC_API_KEY" else APIKey cfg) =? "");
      [reflexivity | apply Hex].
  - destruct (Provider cfg =? "ollama"); [apply Hex | reflexivity].
Qed.

End PipelineFacts.

(* ================================================================= *)
(** ** More on [strings.TrimSpace] and [stripCodeFences] *)

Module FenceMore.
Import GoStrings Engine Ingest Plan StringFacts.

(** [part] is a contiguous part of [whole]. *)
Lemma part_refl {A} (l : list A) : exists pre post, l = pre ++ l ++ post.
Proof. exists [], []. now rewrite app_nil_r. Qed.

Lemma part_trans {A} (a b c : list A) :
  (exists pre post, b = pre ++ a ++ post) ->
  (exists pre post, c = pre ++ b ++ post) ->
  exists pre post, c = pre ++ a ++ post.
Proof.
  intros [p1 [q1 ->]] [p2 [q2 ->]]. exists (p2 ++ p1), (q1 ++ q2).
  now rewrite <- !app_assoc.
Qed.

Lemma part_skipn {A} n (l : list A) : exists pre post, l = pre ++ skipn n l ++ post.
Proof. exists (firstn n l), []. now rewrite app_nil_r, firstn_skipn. Qed.

Lemma part_firstn {A} n (l : list A) : exists pre post, l = pre ++ firstn n l ++ post.
Proof. exists [], (skipn n l). cbn. now rewrite firstn_skipn. Qed.

Lemma strip_suffix width n : forall s, exists pre, s = pre ++ strip width n s.
Proof.
  induction n as [|n IH]; intros s; cbn [strip]; [now exists []|].
  destruct (width s) as [|w']; [now exists []|].
  destruct (IH (skipn (S w') s)) as [pre Hpre].
  exists (firstn (S w') s ++ pre). rewrite <- app_assoc, <- Hpre. now rewrite firstn_skipn.
Qed.

Lemma part_TrimLeft s : exists pre post, s = pre ++ TrimLeft s ++ post.
Proof.
  destruct (strip_suffix leadingSpace (List.length s) s) as [pre Hpre].
  exists pre, []. now rewrite app_nil_r.
Qed.

Lemma TrimRight_prefix s : exists post, s = TrimRight s ++ post.
Proof.
  unfold TrimRight.
  destruct (strip_suffix trailingSpace (List.length s) (rev s)) as [pre Hpre].
  exists (rev pre). rewrite <- rev_app_distr, <- Hpre. now rewrite rev_involutive.
Qed.

Lemma part_TrimRight s : exists pre post, s = pre ++ TrimRight s ++ post.
Proof. destruct (TrimRight_prefix s) as [post Hpost]. now exists [], post. Qed.

Lemma part_TrimSpace s : exists pre post, s = pre ++ TrimSpace s ++ post.
Proof.
  unfold TrimSpace. eapply part_trans; [apply part_TrimRight | apply part_TrimLeft].
Qed.

Lemma strip_done width (Hle : forall s, width s <= List.length s) n :
  forall s, List.length s <= n -> width (strip width n s) = 0.
Proof.
  induction n as [|n IH]; intros s Hn; cbn [strip].
  - destruct s; [|cbn in Hn; lia]. specialize (Hle []). cbn in Hle. lia.
  - destruct (width s) as [|w'] eqn:E; [exact E|].
    apply IH. rewrite length_skipn. lia.
Qed.

Lemma leadingSpace_TrimLeft s : leadingSpace (TrimLeft s) = 0.
Proof. apply (strip_done leadingSpace leadingSpace_le). lia. Qed.

Lemma trailingSpace_TrimRight s : trailingSpace (rev (TrimRight s)) = 0.
Proof.
  unfold TrimRight. rewrite rev_involutive.
  apply (strip_done trailingSpace trailingSpace_le). rewrite length_rev. lia.
Qed.

Lemma leadingSpace_prefix p q : leadingSpace (p ++ q) = 0 -> leadingSpace p = 0.
Proof.
  intros H. destruct (leadingSpace p) eqn:E; [reflexivity|].
  rewrite leadingSpace_app in H by congruence. congruence.
Qed.

Lemma TrimSpace_trimmed s :
  leadingSpace (TrimSpace s) = 0 /\ trailingSpace (rev (TrimSpace s)) = 0.
Proof.
  unfold TrimSpace. split; [|apply trailingSpace_TrimRight].
  destruct (TrimRight_prefix (TrimLeft s)) as [post Hpost].
  apply (leadingSpace_prefix _ post). rewrite <- Hpost. apply leadingSpace_TrimLeft.
Qed.

Lemma TrimSpace_of_trimmed s :
  leadingSpace s = 0 -> trailingSpace (rev s) = 0 -> TrimSpace s = s.
Proof.
  intros Hl Hr. unfold TrimSpace, TrimLeft. rewrite (strip_stop _ _ _ Hl).
  unfold TrimRight. rewrite (strip_stop _ _ _ Hr). apply rev_involutive.
Qed.

Lemma TrimSpace_idempotent s : TrimSpace (TrimSpace s) = TrimSpace s.
Proof. apply TrimSpace_of_trimmed; apply TrimSpace_trimmed. Qed.

Lemma of_to_string b : of_string (to_string b) = b.
Proof. apply list_ascii_of_string_of_list_ascii. Qed.

(** X25.  Whatever text it is given, [stripCodeFences] returns one
    contiguous part of it, and that part neither starts nor ends with white
    space; of a text that, once trimmed, neither starts nor ends with three
    backticks, it returns the whole trimmed text. *)
Theorem stripCodeFences_returns_a_trimmed_part s :
  (exists pre post, of_string s = pre ++ of_string (stripCodeFences s) ++ post)
  /\ TrimSpaceString (stripCodeFences s) = stripCodeFences s
  /\ (HasPrefix (TrimSpace (of_string s)) fence = false ->
      HasSuffix (TrimSpace (of_string s)) fence = false ->
      stripCodeFences s = TrimSpaceString s).
Proof.
  unfold stripCodeFences, TrimSpaceString. rewrite of_to_string.
  unfold stripCodeFencesBytes. cbv zeta.
  set (s0 := TrimSpace (of_string s)).
  set (s1 := if HasPrefix s0 fence
             then match IndexByte s0 newline with
                  | Some idx => skipn (idx + 1) s0
                  | None => s0
                  end
             else s0).
  set (s2 := if HasSuffix s1 fence then firstn (List.length s1 - 3) s1 else s1).
  split; [|split].
  - eapply part_trans; [apply part_TrimSpace|].
    eapply part_trans; [|apply part_TrimSpace]. fold s0.
    eapply (part_trans s2 s1 s0).
    + unfold s2. destruct (HasSuffix s1 fence); [apply part_firstn | apply part_refl].
    + unfold s1. destruct (HasPrefix s0 fence); [|apply part_refl].
      destruct (IndexByte s0 newline); [apply part_skipn | apply part_refl].
  - now rewrite TrimSpace_idempotent.
  - intros Hp Hs. unfold s2, s1. rewrite Hp, Hs. unfold s0.
    now rewrite TrimSpace_idempotent.
Qed.

Lemma IndexByte_app_none a b c :
  IndexByte a c = None -> IndexByte b c = None -> IndexByte (a ++ b) c = None.
Proof.
  induction a as [|x a IH]; cbn [IndexByte app]; intros Ha Hb; [exact Hb|].
  destruct (Ascii.eqb x c); [discriminate|].
  destruct (IndexByte a c); [discriminate|]. now rewrite IH.
Qed.

Lemma trailingSpace_before_backticks r :
  trailingSpace (r ++ [backtick; backtick; backtick]) <= List.length r.
Proof.
  destruct r as [|a [|b [|c r]]]; cbn [app trailingSpace List.length].
  - cbn. lia.
  - destruct (asciiSpace a); [lia|].
    unfold space2, space3. cbn. rewrite ?andb_false_r. cbn. lia.
  - destruct (asciiSpace a); [lia|]. destruct (space2 b a); [lia|].
    unfold space3. cbn. lia.
  - destruct (asciiSpace a); [lia|]. destruct (space2 b a); [lia|].
    destruct (space3 c b a); lia.
Qed.

Lemma strip_before_backticks n :
  forall r, exists r',
    strip trailingSpace n (r ++ [backtick; backtick; backtick])
    = r' ++ [backtick; backtick; backtick].
Proof.
  induction n as [|n IH]; intros r; cbn [strip]; [now exists r|].
  pose proof (trailingSpace_before_backticks r) as Hle.
  destruct (trailingSpace (r ++ [backtick; backtick; backtick])) as [|w']; [now exists r|].
  rewrite skipn_app. replace (S w' - List.length r) with 0 by lia.
  change (skipn 0 [backtick; backtick; backtick]) with [backtick; backtick; backtick].
  apply IH.
Qed.

Lemma TrimRight_keeps_fence body :
  exists rest, TrimRight (fence ++ body) = fence ++ rest.
Proof.
  unfold TrimRight. rewrite rev_app_distr.
  change (rev fence) with [backtick; backtick; backtick].
  destruct (strip_before_backticks (List.length (fence ++ body)) (rev body)) as [r' ->].
  exists (rev r'). rewrite rev_app_distr. reflexivity.
Qed.

(** X26.  The opening fence goes only together with the line it is on:
    of a fenced text without any newline, [stripCodeFences] strips the
    closing fence and leaves the opening one. *)
Theorem stripCodeFences_keeps_opening_fence_of_one_line body :
  IndexByte (of_string body) newline = None ->
  stripCodeFences ("```" ++ body ++ "```")
  = TrimSpaceString ("```" ++ body)
  /\ HasPrefix (of_string (stripCodeFences ("```" ++ body ++ "```"))) fence = true.
Proof.
  intros Hnl.
  assert (Hstrip : stripCodeFencesBytes (fence ++ of_string body ++ fence)
                   = TrimSpace (fence ++ of_string body)).
  { unfold stripCodeFencesBytes. cbv zeta.
    assert (Hs : fence ++ of_string body ++ fence
                 = backtick :: ([backtick; backtick] ++ of_string body ++ [backtick; backtick])
                            ++ [backtick]).
    { unfold fence. cbn. repeat (rewrite <- app_assoc; cbn). reflexivity. }
    rewrite Hs, TrimSpace_fenced, <- Hs.
    change (HasPrefix (fence ++ of_string body ++ fence) fence) with true. cbv iota.
    rewrite IndexByte_app_none;
      [|reflexivity | apply IndexByte_app_none; [exact Hnl | reflexivity]].
    assert (Hsuf : HasSuffix (fence ++ of_string body ++ fence) fence = true).
    { unfold HasSuffix. rewrite !rev_app_distr. reflexivity. }
    rewrite Hsuf. rewrite app_assoc, length_app.
    change (List.length fence) with 3.
    replace (List.length (fence ++ of_string body) + 3 - 3)
      with (List.length (fence ++ of_string body) + 0) by lia.
    rewrite firstn_app_2. cbn [firstn]. now rewrite app_nil_r. }
  assert (Hout : stripCodeFences ("```" ++ body ++ "```") = TrimSpaceString ("```" ++ body)).
  { unfold stripCodeFences, TrimSpaceString. rewrite !of_string_app.
    change (of_string "```") with fence. now rewrite Hstrip. }
  split; [exact Hout|].
  rewrite Hout. unfold TrimSpaceString. rewrite of_to_string, of_string_app.
  change (of_string "```") with fence.
  unfold TrimSpace, TrimLeft. rewrite strip_stop by apply leadingSpace_backtick.
  destruct (TrimRight_keeps_fence (of_string body)) as [rest ->]. reflexivity.
Qed.

End FenceMore.

(* ================================================================= *)
(** ** The BLOB encoding of an embedding *)

Module EmbeddingFacts.
Import Engine Embeddings.

Lemma testbit_255 k : (0 <= k)%Z -> Z.testbit 255 k = (k <? 8)%Z.
Proof.
  intros Hk. change 255%Z with (Z.ones 8).
  destruct (Z.ltb_spec k 8).
  - apply Z.ones_spec_low. lia.
  - apply Z.ones_spec_high. lia.
Qed.

Lemma byte_bit x s k :
  (0 <= s)%Z ->
  Z.testbit (Z.land (Z.shiftr x s) 255) k
  = if (k <? 0)%Z then false else Z.testbit x (k + s) && (k <? 8)%Z.
Proof.
  intros Hs. destruct (Z.ltb_spec k 0).
  - now apply Z.testbit_neg_r.
  - rewrite Z.land_spec, Z.shiftr_spec, testbit_255 by lia. reflexivity.
Qed.

Lemma uint32_putUint32 x :
  (0 <= x < 2 ^ 32)%Z ->
  uint32 (Z.land x 255) (Z.land (Z.shiftr x 8) 255)
         (Z.land (Z.shiftr x 16) 255) (Z.land (Z.shiftr x 24) 255) = x.
Proof.
  intros Hx. unfold uint32. apply Z.bits_inj'. intros n Hn.
  rewrite <- (Z.shiftr_0_r x) at 1.
  rewrite !Z.lor_spec, !Z.shiftl_spec, !byte_bit by lia.
  assert (Hhigh : (32 <= n)%Z -> Z.testbit x n = false).
  { intros H32. destruct (Z.eq_dec x 0) as [->|Hne]; [apply Z.testbit_0_l|].
    apply Z.bits_above_log2; [lia|].
    assert (Z.log2 x < 32)%Z by (apply Z.log2_lt_pow2; lia). lia. }
  destruct (Z.ltb_spec n 0); [lia|].
  destruct (Z.ltb_spec n 8).
  - replace (n + 0)%Z with n by lia.
    destruct (Z.ltb_spec (n - 8) 0); [|lia].
    destruct (Z.ltb_spec (n - 16) 0); [|lia].
    destruct (Z.ltb_spec (n - 24) 0); [|lia].
    now rewrite andb_true_r, !orb_false_r.
  - rewrite andb_false_r. cbn [orb].
    destruct (Z.ltb_spec (n - 8) 0); [lia|].
    destruct (Z.ltb_spec (n - 8) 8).
    + replace (n - 8 + 8)%Z with n by lia.
      destruct (Z.ltb_spec (n - 16) 0); [|lia].
      destruct (Z.ltb_spec (n - 24) 0); [|lia].
      now rewrite andb_true_r, !orb_false_r.
    + rewrite andb_false_r. cbn [orb].
      destruct (Z.ltb_spec (n - 16) 0); [lia|].
      destruct (Z.ltb_spec (n - 16) 8).
      * replace (n - 16 + 16)%Z with n by lia.
        destruct (Z.ltb_spec (n - 24) 0); [|lia].
        now rewrite andb_true_r, !orb_false_r.
      * rewrite andb_false_r. cbn [orb].
        destruct (Z.ltb_spec (n - 24) 0); [lia|].
        replace (n - 24 + 24)%Z with n by lia.
        destruct (Z.ltb_spec (n - 24) 8).
        -- now rewrite andb_true_r.
        -- rewrite andb_false_r. symmetry. apply Hhigh. lia.
Qed.

Lemma byte_range x s : (0 <= Z.land (Z.shiftr x s) 255 < 256)%Z.
Proof.
  change 255%Z with (Z.ones 8). rewrite Z.land_ones by lia.
  apply Z.mod_pos_bound. lia.
Qed.

Lemma Deserialize_Serialize (v : list float32) (stray : list Z) :
  Forall (fun x => 0 <= x < 2 ^ 32)%Z v ->
  List.length stray < 4 ->
  DeserializeEmbedding (SerializeEmbedding v ++ stray) = v.
Proof.
  intros Hv Hstray. induction Hv as [|x v Hx Hv IH].
  - destruct stray as [|a [|b [|c [|d stray]]]]; try reflexivity. cbn in Hstray. lia.
  - unfold SerializeEmbedding in *. cbn [flat_map putUint32 app DeserializeEmbedding].
    rewrite IH. f_equal.
    rewrite <- (Z.shiftr_0_r x) at 1.
    rewrite (Z.shiftr_0_r x). now apply uint32_putUint32.
Qed.

(** X27.  [DeserializeEmbedding] undoes [SerializeEmbedding]: a vector
    of 32-bit patterns comes back from its bytes value by value, bit for
    bit, also when up to three stray bytes follow; the encoding has four
    bytes, each below 256, for each value. *)
Theorem Deserialize_undoes_Serialize (v : list float32) (stray : list Z) :
  Forall (fun x => 0 <= x < 2 ^ 32)%Z v ->
  List.length stray < 4 ->
  DeserializeEmbedding (SerializeEmbedding v ++ stray) = v
  /\ List.length (SerializeEmbedding v) = 4 * List.length v
  /\ Forall (fun b => 0 <= b < 256)%Z (SerializeEmbedding v).
Proof.
  intros Hv Hstray. split; [now apply Deserialize_Serialize|].
  clear Hstray. induction Hv as [|x v Hx Hv [IH2 IH3]].
  - split; [reflexivity | constructor].
  - unfold SerializeEmbedding in *. cbn [flat_map putUint32 app].
    split.
    + cbn [List.length]. rewrite IH2. lia.
    + repeat constructor; try exact IH3;
        try (rewrite <- (Z.shiftr_0_r x); apply byte_range); apply byte_range.
Qed.

End EmbeddingFacts.

(* ================================================================= *)
(** ** The commands of [main.go] *)

Module CliFacts.
Import GoStrings Engine Memory Schema Constraints Cli StoreFacts BlockFacts ArchiveFacts
       PipelineFacts.

(** X28.  [block set] reports success whatever the store does: the error
    of its [Create] or [Update] is assigned to a variable that is not the
    one it returns.  On a healthy connection the block of the label holds
    the content afterwards. *)
Theorem blockSet_reports_no_failure label content st :
  fst (blockSet label content st) = Ok tt
  /\ (healthy st ->
      exists b,
        selectBlockByLabel label (tables (snd (blockSet label content st))) = Some b
        /\ Block_Content b = content).
Proof.
  split.
  - unfold blockSet, bind, try, ret.
    destruct (BlockStore.GetByLabel label st) as [[b|e] st1];
      [destruct (BlockStore.Update label content st1) as [r st2]
      |destruct (BlockStore.Create label "core" content st1) as [r st2]]; reflexivity.
  - intros Hh. unfold blockSet, bind, try, ret.
    rewrite (GetByLabel_healthy st label Hh).
    destruct (selectBlockByLabel label (tables st)) as [b|] eqn:E.
    + destruct (Update_existing_block st label content b Hh E)
        as [st' [EU [Hnew _]]].
      rewrite EU. cbn [snd]. eexists. split; [exact Hnew | reflexivity].
    + destruct (Create_new_label st label "core" content Hh E)
        as [b [st' [EC [_ [Hnew _]]]]].
      rewrite EC. cbn [snd]. eexists. split; [exact Hnew | reflexivity].
Qed.

Lemma Split_nonempty s sep : Split s sep <> [].
Proof.
  destruct s as [|c s]; cbn [Split]; [discriminate|].
  destruct (Ascii.eqb c sep); [discriminate|].
  destruct (Split s sep); discriminate.
Qed.

Lemma Join_cons x rest sep :
  rest <> [] -> Join (x :: rest) sep = (x ++ sep ++ Join rest sep)%string.
Proof. destruct rest; [congruence | reflexivity]. Qed.

Lemma Join_head c x rest sep :
  Join (String c x :: rest) sep = String c (Join (x :: rest) sep).
Proof. destruct rest; reflexivity. Qed.

Lemma Join_Split s sep :
  Join (Split s sep) (String sep EmptyString) = s.
Proof.
  induction s as [|c s IH]; cbn [Split]; [reflexivity|].
  destruct (Ascii.eqb_spec c sep) as [->|Hne].
  - rewrite Join_cons by apply Split_nonempty. cbn. now rewrite IH.
  - pose proof (Split_nonempty s sep) as Hs.
    destruct (Split s sep) as [|piece pieces]; [congruence|].
    now rewrite Join_head, IH.
Qed.

Lemma Join_tagsOfFlag tagsFlag : Join (tagsOfFlag tagsFlag) "," = tagsFlag.
Proof.
  unfold tagsOfFlag. destruct (String.eqb_spec tagsFlag "") as [->|Hne]; [reflexivity|].
  apply (Join_Split tagsFlag ","%char).
Qed.

(** X29.  On a healthy connection, over a table whose ids are below the
    high-water mark, [archive add --tags] stores the value of the flag as it
    was typed: splitting it at the commas and joining the pieces again gives
    the flag back, and no flag gives the empty tag string.  The entry has
    no embedding. *)
Theorem archiveAdd_stores_the_tags_flag st text tagsFlag :
  healthy st ->
  ArchivalOK (tables st) ->
  exists e st',
    archiveAdd text tagsFlag st = (Ok e, st')
    /\ Entry_Content e = text
    /\ Entry_Tags e = tagsFlag
    /\ Entry_Embedding e = None
    /\ archival (tables st')
       = archival (tables st)
         ++ [mkArchivalRow (Entry_ID e) text tagsFlag None (now st)].
Proof.
  intros Hh Hok. unfold archiveAdd.
  rewrite (Add_stores st text (tagsOfFlag tagsFlag) None Hh Hok).
  rewrite Join_tagsOfFlag. do 2 eexists. split; [reflexivity|].
  cbn. auto.
Qed.

End CliFacts.

(* ================================================================= *)
(** ** From the provider to the store and back *)

Module EndToEnd.
Import Engine Memory Embeddings Ingest Schema Constraints StoreFacts ArchiveFacts
       EmbeddingFacts.


End EndToEnd.

(* ================================================================= *)
(** ** The further properties at concrete inputs *)

Module MoreChecks.
Import Engine Memory Context Embeddings Ingest Schema Assembly Plan Constraints Outcome
       Cli Examples MoreExamples.

Ltac rows :=
  cbn; repeat first [ apply Forall_nil | apply Forall_cons; [cbn; lia|] ].

Lemma Create_returns_the_stored_block_witness :
  exists st',
    BlockStore.Create "persona" "" "helpful" blocksDB
    = (Ok (mkBlock 4 "persona" "core" "helpful" 50 50), st')
    /\ memory_blocks (tables st')
       = memory_blocks (tables blocksDB)
         ++ [mkBlockRow 4 "persona" "core" "helpful" 50 50]
    /\ Forall (fun r => (blk_id r < 4)%Z) (memory_blocks (tables blocksDB))
    /\ BlocksOK (tables st')
    /\ healthy st'.
Proof.
  apply (BlockFacts.Create_returns_the_stored_block blocksDB "persona" "" "helpful").
  - reflexivity.
  - unfold BlocksOK. rows.
  - reflexivity.
Defined.

Lemma Update_rewrites_content_only_witness :
  exists st',
    BlockStore.Update "human" "Stuart Kennedy" blocksDB
    = (Ok (mkBlock 1 "human" "core" "Stuart Kennedy" 10 50), st')
    /\ map blk_id (memory_blocks (tables st')) = [1; 3]%Z
    /\ map blk_label (memory_blocks (tables st')) = ["human"; "scratch"]
    /\ (forall other, other <> "human" ->
          selectBlockByLabel other (tables st') = selectBlockByLabel other (tables blocksDB))
    /\ healthy st'.
Proof.
  apply (BlockFacts.Update_rewrites_content_only
           blocksDB "human" "Stuart Kennedy" (mkBlock 1 "human" "core" "Stuart" 10 10)).
  - reflexivity.
  - reflexivity.
Defined.

Lemma Delete_removes_the_block_only_witness :
  exists st',
    BlockStore.Delete "human" blocksDB = (Ok tt, st')
    /\ selectBlockByLabel "human" (tables st') = None
    /\ (forall other, other <> "human" ->
          selectBlockByLabel other (tables st') = selectBlockByLabel other (tables blocksDB))
    /\ (exists e, BlockStore.GetByLabel "human" st' = (Error e, st')
                  /\ isNotFound e = true)
    /\ BlockStore.Delete "human" st' = (Ok tt, st')
    /\ memory_blocks_seq (tables st') = 3%Z.
Proof.
  apply (BlockFacts.Delete_removes_the_block_only blocksDB "human"). reflexivity.
Defined.

Lemma List_returns_blocks_of_type_by_label_witness :
  exists blocks,
    BlockStore.List "notes" blocksDB = (Ok blocks, blocksDB)
    /\ Permutation blocks
         (map scanBlock (filter (ofType "notes") (memory_blocks (tables blocksDB))))
    /\ StronglySorted byLabel blocks.
Proof.
  apply (BlockFacts.List_returns_blocks_of_type_by_label blocksDB "notes"). reflexivity.
Defined.


Lemma Delete_removes_the_entry_only_witness :
  exists st',
    ArchivalStore.Delete 2 archiveDB = (Ok tt, st')
    /\ (exists e, ArchivalStore.GetByID 2 st' = (Error e, st')
                  /\ isNotFound e = true)
    /\ (forall other, other <> 2%Z ->
          selectArchivalByID other (tables st')
          = selectArchivalByID other (tables archiveDB))
    /\ (selectArchivalByID 2 (tables archiveDB) = None -> st' = archiveDB)
    /\ archival_seq (tables st') = 2%Z.
Proof.
  apply (ArchiveFacts.Delete_removes_the_entry_only archiveDB 2). reflexivity.
Defined.

Lemma List_returns_tagged_entries_newest_first_witness :
  exists entries,
    ArchivalStore.List likeContains "b" 0 archiveDB = (Ok entries, archiveDB)
    /\ StronglySorted (newerFirst Entry_CreatedAt) entries
    /\ incl entries
         (map (fun r => scanEntryCols (archivalCols r))
              (filter (tagged likeContains "b") (archival (tables archiveDB))))
    /\ (List.length (filter (tagged likeContains "b") (archival (tables archiveDB)))
        <= limitOr 50 0 ->
        Permutation entries
          (map (fun r => scanEntryCols (archivalCols r))
               (filter (tagged likeContains "b") (archival (tables archiveDB))))).
Proof.
  apply (ArchiveFacts.List_returns_tagged_entries_newest_first
           likeContains archiveDB "b" 0).
  reflexivity.
Defined.

Lemma EnsureEntity_finds_or_creates_witness :
  exists id st',
    GraphStore.EnsureEntity "C" "project" graphDB = (Ok id, st')
    /\ (id = 3%Z
        /\ entities (tables st')
           = entities (tables graphDB) ++ [mkEntityRow id "C" "project" 20])
    /\ relations (tables st') = relations (tables graphDB)
    /\ healthy st'.
Proof.
  apply (GraphMore.EnsureEntity_finds_or_creates graphDB "C" "project"). reflexivity.
Defined.

Lemma AddRelation_again_changes_no_row_witness :
  exists st1 st2,
    GraphStore.AddRelation "B" "r" "C" "first" graphDB = (Ok tt, st1)
    /\ GraphStore.AddRelation "B" "r" "C" "second" st1 = (Ok tt, st2)
    /\ entities (tables st2) = entities (tables st1)
    /\ relations (tables st2) = relations (tables st1).
Proof.
  apply (GraphMore.AddRelation_again_changes_no_row graphDB "B" "r" "C" "first" "second").
  reflexivity.
Defined.

Lemma AddRelation_then_QueryEntity_witness :
  exists st' r ofSubject ofObject,
    GraphStore.AddRelation "B" "r" "C" "first" graphDB = (Ok tt, st')
    /\ GraphStore.QueryEntity "B" st' = (Ok ofSubject, st')
    /\ GraphStore.QueryEntity "C" st' = (Ok ofObject, st')
    /\ In r ofSubject /\ In r ofObject
    /\ Relation_Subject r = "B"
    /\ Relation_Predicate r = "r"
    /\ Relation_Object r = "C"
    /\ (tripleCount (tables graphDB) "B" "r" "C" = 0 ->
        GraphOK (tables graphDB) -> Relation_Metadata r = "first").
Proof.
  apply (GraphMore.AddRelation_then_QueryEntity graphDB "B" "r" "C" "first").
  reflexivity.
Defined.

Lemma QueryEntity_newest_first_and_empty_for_unknown_witness :
  exists rels,
    GraphStore.QueryEntity "nobody" graphDB = (Ok rels, graphDB)
    /\ StronglySorted (newerFirst Relation_CreatedAt) rels
    /\ (selectEntityID "nobody" (tables graphDB) = None -> rels = []).
Proof.
  apply (GraphMore.QueryEntity_newest_first_and_empty_for_unknown graphDB "nobody").
  reflexivity.
Defined.

Lemma SearchRelations_returns_matching_relations_witness :
  exists rels,
    GraphStore.SearchRelations likeContains "p" graphDB = (Ok rels, graphDB)
    /\ Permutation rels
         (map (relationOf (tables graphDB))
              (filter (fun r => likeContains "%p%" (rel_predicate r))
                      (relations (tables graphDB))))
    /\ StronglySorted (newerFirst Relation_CreatedAt) rels.
Proof.
  apply (GraphMore.SearchRelations_returns_matching_relations likeContains graphDB "p").
  - reflexivity.
  - exact Checks.graphTables_ok.
Defined.

Lemma ListEntities_returns_entities_of_type_by_name_witness :
  exists ents,
    GraphStore.ListEntities "" graphDB = (Ok ents, graphDB)
    /\ Permutation ents
         (map scanEntity (filter (ofEntityType "") (entities (tables graphDB))))
    /\ StronglySorted byName ents.
Proof.
  apply (GraphMore.ListEntities_returns_entities_of_type_by_name graphDB "").
  reflexivity.
Defined.

Lemma Add_then_CountAtLevel_witness :
  exists n st',
    SummaryStore.CountAtLevel 0 summariesDB = (Ok n, summariesDB)
    /\ SummaryStore.Add 0 "third" "" summariesDB
       = (Ok (mkSummary 4 0 "third" "" 50), st')
    /\ SummaryStore.CountAtLevel 0 st' = (Ok (n + 1)%Z, st')
    /\ (forall other, other <> 0%Z ->
          fst (SummaryStore.CountAtLevel other st')
          = fst (SummaryStore.CountAtLevel other summariesDB)).
Proof.
  apply (SummaryFacts.Add_then_CountAtLevel summariesDB 0 "third" "").
  - reflexivity.
  - unfold SummariesOK. rows.
Defined.

Lemma List_returns_level_newest_first_witness :
  exists summaries,
    SummaryStore.List 0 0 summariesDB = (Ok summaries, summariesDB)
    /\ Forall (fun s => Summary_Level s = 0%Z) summaries
    /\ StronglySorted newerThenHigher summaries
    /\ incl summaries (map scanSummary (conversation_summaries (tables summariesDB)))
    /\ (List.length (filter (fun r => (sum_level r =? 0)%Z)
                            (conversation_summaries (tables summariesDB)))
        <= limitOr 20 0 ->
        Permutation summaries
          (map scanSummary
               (filter (fun r => (sum_level r =? 0)%Z)
                       (conversation_summaries (tables summariesDB))))).
Proof.
  apply (SummaryFacts.List_returns_level_newest_first summariesDB 0 0). reflexivity.
Defined.

Lemma Build_on_healthy_connection_is_complete_witness :
  exists p,
    Build graphDB = (Ok p, graphDB)
    /\ BlockStore.List "core" graphDB = (Ok (CoreBlocks p), graphDB)
    /\ SummaryStore.List 0 5 graphDB = (Ok (Summaries p), graphDB)
    /\ Permutation (Graph p)
         (map (relationOf (tables graphDB)) (relations (tables graphDB))).
Proof.
  apply (BuildFacts.Build_on_healthy_connection_is_complete graphDB).
  - reflexivity.
  - exact Checks.graphTables_ok.
Defined.

Lemma refused_lookup_turns_update_into_conflict_witness :
  applyBlockUpdate (mkBlockUpdate "human" "new") blocksDBRefusingLookup
  = (Error (Wrapf "create block %q: %w" [ArgS "human"]
              (Wrapf "create block: %w" [] (ErrUnique "memory_blocks.label"))),
     mkDB (tables blocksDBRefusingLookup) 50 []).
Proof.
  apply (PipelineFacts.refused_lookup_turns_update_into_conflict
           (mkBlockUpdate "human" "new") (mkBlock 1 "human" "core" "Stuart" 10 10)
           blocksDBRefusingLookup FailStmt []).
  - reflexivity.
  - discriminate.
  - reflexivity.
Defined.


Lemma apply_phase_stores_summary_unless_empty_witness :
  exists st',
    applyResult embedderConfig busyResult summariesDB = (Ok busyResult, st')
    /\ map summaryColumns (conversation_summaries (tables st'))
       = map summaryColumns (conversation_summaries (tables summariesDB))
         ++ [(0%Z, "talked about Go", "")].
Proof.
  apply (PipelineFacts.apply_phase_stores_summary_unless_empty
           embedderConfig busyResult summariesDB).
  reflexivity.
Defined.

Lemma apply_phase_upserts_blocks_witness :
  exists st',
    applyResult embedderConfig busyResult blocksDB = (Ok busyResult, st')
    /\ forall label,
         option_map Block_Content (selectBlockByLabel label (tables st'))
         = match lastContent label (BlockUpdates busyResult) with
           | Some c => Some c
           | None => option_map Block_Content (selectBlockByLabel label (tables blocksDB))
           end
         /\ option_map Block_BlockType (selectBlockByLabel label (tables st'))
            = match selectBlockByLabel label (tables blocksDB) with
              | Some b => Some (Block_BlockType b)
              | None => match lastContent label (BlockUpdates busyResult) with
                        | Some _ => Some "core"
                        | None => None
                        end
              end.
Proof.
  apply (PipelineFacts.apply_phase_upserts_blocks embedderConfig busyResult blocksDB).
  reflexivity.
Defined.

Lemma apply_phase_stores_every_triplet_witness :
  exists st',
    applyResult embedderConfig busyResult graphDB = (Ok busyResult, st')
    /\ forall t, In t (Triplets busyResult) ->
         exists r,
           In r (returned (GraphStore.QueryEntity (Triplet_Subject t) st'))
           /\ In r (returned (GraphStore.QueryEntity (Triplet_Object t) st'))
           /\ Relation_Subject r = Triplet_Subject t
           /\ Relation_Predicate r = Triplet_Predicate t
           /\ Relation_Object r = Triplet_Object t.
Proof.
  apply (PipelineFacts.apply_phase_stores_every_triplet embedderConfig busyResult graphDB).
  reflexivity.
Defined.

Lemma Run_fails_only_before_writing_witness :
  fst (Run noClaudeWorld "hello" (Some claudeConfig) blocksDB)
  = Error (Wrapf "extract: %w" []
             (Wrapf "claude -p failed: %w\nstderr: %s" [ArgS ""]
                    (ErrExternal "exec: claude: executable file not found")))
  /\ snd (Run noClaudeWorld "hello" (Some claudeConfig) blocksDB) = blocksDB.
Proof.
  split; [reflexivity|].
  apply (PipelineFacts.Run_fails_only_before_writing
           noClaudeWorld "hello" (Some claudeConfig) blocksDB
           (Wrapf "extract: %w" []
              (Wrapf "claude -p failed: %w\nstderr: %s" [ArgS ""]
                     (ErrExternal "exec: claude: executable file not found")))).
  - reflexivity.
  - reflexivity.
Defined.

Lemma stripCodeFences_keeps_opening_fence_of_one_line_witness :
  stripCodeFences ("```" ++ "{}" ++ "```") = TrimSpaceString ("```" ++ "{}")
  /\ GoStrings.HasPrefix
       (GoStrings.of_string (stripCodeFences ("```" ++ "{}" ++ "```"))) fence = true.
Proof.
  apply (FenceMore.stripCodeFences_keeps_opening_fence_of_one_line "{}"). reflexivity.
Defined.

Lemma Deserialize_undoes_Serialize_witness :
  DeserializeEmbedding (SerializeEmbedding [1065353216; 0; 3212836864]%Z ++ [7]%Z)
  = [1065353216; 0; 3212836864]%Z
  /\ List.length (SerializeEmbedding [1065353216; 0; 3212836864]%Z) = 4 * 3
  /\ Forall (fun b => 0 <= b < 256)%Z (SerializeEmbedding [1065353216; 0; 3212836864]%Z).
Proof.
  apply (EmbeddingFacts.Deserialize_undoes_Serialize
           [1065353216; 0; 3212836864]%Z [7]%Z).
  - rows.
  - cbn. lia.
Defined.

Lemma archiveAdd_stores_the_tags_flag_witness :
  exists e st',
    archiveAdd "Go is great for CLIs" "tech,,opinion" archiveDB = (Ok e, st')
    /\ Entry_Content e = "Go is great for CLIs"
    /\ Entry_Tags e = "tech,,opinion"
    /\ Entry_Embedding e = None
    /\ archival (tables st')
       = archival (tables archiveDB)
         ++ [mkArchivalRow (Entry_ID e) "Go is great for CLIs" "tech,,opinion" None 20].
Proof.
  apply (CliFacts.archiveAdd_stores_the_tags_flag
           archiveDB "Go is great for CLIs" "tech,,opinion").
  - reflexivity.
  - unfold ArchivalOK. rows.
Defined.


(** [block set] says "updated" after a write the engine refused; the
    block is as it was. *)
Example blockSet_hides_a_refused_write :
  fst (blockSet "human" "new" blocksDBRefusingWrite) = Ok tt
  /\ selectBlockByLabel "human" (tables (snd (blockSet "human" "new" blocksDBRefusingWrite)))
     = Some (mkBlock 1 "human" "core" "Stuart" 10 10)
  /\ fst (BlockStore.Update "human" "new" (mkDB (tables blocksDB) 50 [FailStmt]))
     = Error (Wrapf "update block %q: %w" [ArgS "human"] ErrEngine).
Proof. repeat split; vm_compute; reflexivity. Qed.

(** The busy result on the block store: the second update of "human"
    wins, "persona" is new and of type "core", "scratch" is as it was; the
    triplet named twice is stored once. *)
Example busyResult_applied :
  let st := snd (applyResult embedderConfig busyResult blocksDB) in
  map (fun r => (blk_label r, blk_block_type r, blk_content r)) (memory_blocks (tables st))
  = [("human", "core", "Y"); ("scratch", "notes", "todo"); ("persona", "core", "P")]
  /\ map factColumns (archival (tables st))
     = [("likes Go", "tech,opinion", Some [0; 0; 128; 63; 0; 0; 0; 0]%Z);
        ("lives in NZ", "", Some [0; 0; 128; 63; 0; 0; 0; 0]%Z)]
  /\ map ent_name (entities (tables st)) = ["A"; "B"; "C"]
  /\ List.length (relations (tables st)) = 2
  /\ map summaryColumns (conversation_summaries (tables st)) = [(0%Z, "talked about Go", "")].
Proof. repeat split; vm_compute; reflexivity. Qed.

(** A fenced answer on one line, and a text without fence. *)
Example stripCodeFences_examples :
  stripCodeFences "```{}```" = "```{}"
  /\ stripCodeFences "```json" = "```json"
  /\ stripCodeFences "```" = ""
  /\ stripCodeFences "  {} " = "{}".
Proof. repeat split; vm_compute; reflexivity. Qed.

End MoreChecks.
